(** * Image cleaning: Tailcut and the mr_filter wrapper

    A shallow embedding of [datapipe/denoising/tailcut_jd.py],
    [datapipe/denoising/wavelets_mrfilter.py] and
    [datapipe/io/geometry_converter.py].

    - Pixels are IEEE-754 binary64 values, taken from the specification of
      floating-point numbers of the Standard Library ([spec_float] with
      [prec = 53] and [emax = 1024]): signed zeros, signed infinities, one
      NaN, and finite numbers [(-1)^s * m * 2^e].
    - A numpy array is a rank together with nested lists of that rank.
    - numpy is read with the rules of its versions 1.13 and later: an
      in-place operation whose operands overlap reads its right-hand side
      before it writes, and a boolean index must have the shape of the array
      it indexes.
    - The wrapper runs in a state-and-exception monad over a file system
      (a finite map from paths to files).

    The first part holds the definitions, the second the lemmas, the third
    the claims of the specification, each under its number, and the fourth
    further properties of the code. *)

From Stdlib Require Import ZArith Bool Lia.
From Stdlib Require Import Floats.SpecFloat.
From stdpp Require Import gmap strings list fin_maps pretty.

(** * Part I: definitions *)

(** ** Binary64 *)

Module F64.

Local Open Scope Z_scope.

Definition prec : Z := 53.
Definition emax : Z := 1024.

Definition float : Type := spec_float.

Definition nan : float := S754_nan.
Definition pinf : float := S754_infinity false.
Definition ninf : float := S754_infinity true.
Definition zero : float := S754_zero false.
(** [1.0 = 2^52 * 2^-52]. *)
Definition one : float := S754_finite false 4503599627370496 (-52).

(** The binary64 value nearest to an integer (used for literals). *)
Definition of_Z (z : Z) : float := binary_normalize prec emax z 0 false.

Definition add : float -> float -> float := SFadd prec emax.
Definition sub : float -> float -> float := SFsub prec emax.
Definition mul : float -> float -> float := SFmul prec emax.
Definition sqrt : float -> float := SFsqrt prec emax.

(** [x < y], [x <= y], [x >= y]: false as soon as an operand is NaN. *)
Definition ltb (x y : float) : bool := SFltb x y.
Definition leb (x y : float) : bool := SFleb x y.
Definition geb (x y : float) : bool := SFleb y x.

(** [np.isnan], [np.isfinite]. *)
Definition isnan (x : float) : bool :=
  match x with S754_nan => true | _ => false end.
Definition isfinite (x : float) : bool :=
  match x with S754_zero _ | S754_finite _ _ _ => true | _ => false end.
Definition iszero (x : float) : bool :=
  match x with S754_zero _ => true | _ => false end.

(** A boolean operand of an arithmetic operation is promoted to [1.0] or
    [0.0]. *)
Definition of_bool (b : bool) : float := if b then one else zero.

(** Well-formed binary64 values: canonical mantissa, exponent in range. *)
Definition valid (x : float) : Prop := valid_binary prec emax x = true.

(** [np.fmin]: the smaller operand, a NaN operand being ignored. *)
Definition fmin (x y : float) : float :=
  if leb x y || isnan y then x else y.

(** A key that orders the values other than NaN as [SFcompare] does:
    the sign class first, then exponent and mantissa. *)
Definition key (x : float) : Z * (Z * Z) :=
  match x with
  | S754_nan => (0, (0, 0))
  | S754_infinity true => (-2, (0, 0))
  | S754_infinity false => (2, (0, 0))
  | S754_zero _ => (0, (0, 0))
  | S754_finite true m e => (-1, (- e, - Zpos m))
  | S754_finite false m e => (1, (e, Zpos m))
  end.

Definition lex3 (a b : Z * (Z * Z)) : comparison :=
  match fst a ?= fst b with
  | Eq => match fst (snd a) ?= fst (snd b) with
          | Eq => snd (snd a) ?= snd (snd b)
          | c => c
          end
  | c => c
  end.

End F64.

Import F64.

(** ** Arrays *)

(** Nested lists of a given rank. *)
Fixpoint tensor (A : Type) (n : nat) : Type :=
  match n with
  | O => A
  | S k => list (tensor A k)
  end.

(** Elementwise application of a scalar function. *)
Fixpoint tmap {A B : Type} (f : A -> B) (n : nat) : tensor A n -> tensor B n :=
  match n with
  | O => f
  | S k => fmap (tmap f k)
  end.

(** Elementwise binary operation on two arrays of equal shape. *)
Fixpoint tzip {A B C : Type} (f : A -> B -> C) (n : nat)
  : tensor A n -> tensor B n -> tensor C n :=
  match n with
  | O => f
  | S k => zip_with (tzip f k)
  end.

(** [a.shape == sh], for rectangular arrays. *)
Fixpoint has_shape {A : Type} (n : nat) (sh : list nat) : tensor A n -> Prop :=
  match n, sh with
  | O, [] => fun _ => True
  | S k, d :: sh' => fun t => length t = d /\ Forall (has_shape k sh') t
  | _, _ => fun _ => False
  end.

Record ndarray (A : Type) : Type := NdArray { ndim : nat; items : tensor A ndim }.
Arguments NdArray {A} ndim items.
Arguments ndim {A} _.
Arguments items {A} _.

Definition array_has_shape {A : Type} (sh : list nat) (a : ndarray A) : Prop :=
  has_shape (ndim a) sh (items a).

(** Two-dimensional grids and their pixels. *)
Abbreviation grid A := (list (list A)).

Definition get2 {A : Type} (g : grid A) (i j : nat) : option A :=
  match g !! i with
  | Some row => row !! j
  | None => None
  end.

(** The row lengths of a grid: its shape, also when it is not rectangular
    (a grid without rows has no width of its own). *)
Definition shape2 {A : Type} (g : grid A) : list nat := fmap length g.

(** Elementwise operations on grids. *)
Definition map2 {A B : Type} (f : A -> B) (g : grid A) : grid B :=
  fmap (M:=list) (fmap (M:=list) f) g.
Definition zip2 {A B C : Type} (f : A -> B -> C) (a : grid A) (b : grid B) : grid C :=
  zip_with (zip_with f) a b.

(** Exceptions raised by the two cleaning functions and the calls they make. *)
Inductive exn : Type :=
| IndexError
| ValueError
| WrongDimensionError
| OSError
| FileNotFoundError.

Inductive result (A : Type) : Type :=
| Ok (a : A)
| Raise (e : exn).
Arguments Ok {A} a.
Arguments Raise {A} e.

(** ** Slices and in-place updates

    [a[:-1]] and [a[1:]] are views: an augmented assignment to one of them
    changes the entries of [a] it covers and keeps the others. *)

Section Slices.
Context {T : Type}.

(** [a[:-1]] *)
Definition but_last (a : list T) : list T := take (length a - 1) a.
(** [a[1:]] *)
Definition from_1 (a : list T) : list T := drop 1 a.

(** [a[:-1] = f(a[:-1])] *)
Definition upd_but_last (f : list T -> list T) (a : list T) : list T :=
  f (but_last a) ++ drop (length a - 1) a.
(** [a[1:] = f(a[1:])] *)
Definition upd_from_1 (f : list T -> list T) (a : list T) : list T :=
  take 1 a ++ f (from_1 a).

(** [v |= s] on two views of equal length, entry by entry. *)
Fixpoint ior (orT : T -> T -> T) (v s : list T) : list T :=
  match v, s with
  | x :: v', y :: s' => orT x y :: ior orT v' s'
  | _, _ => v
  end.
End Slices.

(** ** Tailcut *)

Module Tailcut.

Section Cells.
(** The first two axes are explicit; a cell holds the trailing axes (a
    single boolean for a two-dimensional mask). *)
Context {C : Type} (orC : C -> C -> C).

(** Lines 177-184.  The right-hand side of each augmented assignment is
    read before the assignment writes (numpy's rule for overlapping
    operands), which matters for the last two, where both sides are views
    of [high_mask_dilated]. *)
Definition dilate (high_mask : list (list C)) : list (list C) :=
  (* high_mask_dilated[:] = high_mask *)
  let d0 := high_mask in
  (* high_mask_dilated[:-1,:] |= high_mask[1:,:] *)
  let d1 := upd_but_last (fun v => ior (ior orC) v (from_1 high_mask)) d0 in
  (* high_mask_dilated[1:,:] |= high_mask[:-1,:] *)
  let d2 := upd_from_1 (fun v => ior (ior orC) v (but_last high_mask)) d1 in
  (* high_mask_dilated[:,:-1] |= high_mask_dilated[:,1:] *)
  let d3 := fmap (fun row => upd_but_last (fun v => ior orC v (from_1 row)) row) d2 in
  (* high_mask_dilated[:,1:] |= high_mask_dilated[:,:-1] *)
  let d4 := fmap (fun row => upd_from_1 (fun v => ior orC v (but_last row)) row) d3 in
  d4.
End Cells.

(** Lines 155-188 on an array of rank [k + 2]. *)
Definition final_mask (k : nat) (img : tensor float (S (S k)))
    (high_threshold low_threshold : float) : tensor bool (S (S k)) :=
  let high_mask := tmap (fun x => geb x high_threshold) (S (S k)) img in
  let low_mask := tmap (fun x => geb x low_threshold) (S (S k)) img in
  let high_mask_dilated := dilate (tzip orb k) high_mask in
  tzip andb (S (S k)) high_mask_dilated low_mask.

(** [img * final_mask]: the mask is promoted to binary64. *)
Definition mul_mask (x : float) (b : bool) : float := mul x (of_bool b).

Definition apply_mask (n : nat) (img : tensor float n) (mask : tensor bool n)
  : tensor float n :=
  tzip mul_mask n img mask.

(** [Tailcut.clean_image].  Indexing with two subscripts ([[:-1,:]]) raises
    IndexError on an array of fewer than two dimensions.  The plots of the
    verbose mode are left out. *)
Definition clean_image (img : ndarray float)
    (high_threshold low_threshold : float) : result (ndarray float) :=
  match img with
  | NdArray n t =>
      match n return tensor float n -> result (ndarray float) with
      | O | S O => fun _ => Raise IndexError
      | S (S k) => fun g =>
          Ok (NdArray (S (S k))
                (apply_mask (S (S k)) g
                   (final_mask k g high_threshold low_threshold)))
      end t
  end.

(** The two-dimensional case, on grids. *)
Definition final_mask2 (img : grid float) (high low : float) : grid bool :=
  final_mask 0 img high low.
Definition clean2 (img : grid float) (high low : float) : grid float :=
  apply_mask 2 img (final_mask2 img high low).

(** A mask written with [0] and [1], as in the comments of the source. *)
Definition mask_of_bits (bits : grid nat) : grid bool :=
  map2 (fun n => negb (Nat.eqb n 0)) bits.

(** [x] implies [y]: the order on masks, pixel by pixel. *)
Definition ble (x y : bool) : Prop := x = true -> y = true.

(** [image * (image >= t)] *)
Definition threshold_filter (img : grid float) (t : float) : grid float :=
  zip2 mul_mask img (map2 (fun x => geb x t) img).

End Tailcut.

(** ** The mr_filter wrapper *)

Module WaveletTransform.

(** *** Files and the calls that touch them *)

(** A file is either a FITS image (its primary HDU) or something else. *)
Inductive file : Type :=
| Fits (hdu0 : ndarray float)
| NotFits.

Abbreviation filesystem := (gmap string file).

(** Computations that read and write the file system and may raise; an
    exception leaves the file system as it was when it was raised. *)
Definition M (A : Type) : Type := filesystem -> filesystem * result A.

Definition ret {A : Type} (a : A) : M A := fun fs => (fs, Ok a).
Definition raise {A : Type} (e : exn) : M A := fun fs => (fs, Raise e).
Definition bind {A B : Type} (m : M A) (k : A -> M B) : M B :=
  fun fs =>
    match m fs with
    | (fs', Ok a) => k a fs'
    | (fs', Raise e) => (fs', Raise e)
    end.
Definition lift {A : Type} (r : result A) : M A := fun fs => (fs, r).

Notation "'let*' x ':=' m 'in' k" := (bind m (fun x => k))
  (at level 10, x name, m at level 100, k at level 200).
Notation "m ';;' k" := (bind m (fun _ => k))
  (at level 100, k at level 200, right associativity).

(** Modelled from the spec: [images.save] of [datapipe/io/images.py], the
    file-format I/O of section 6, which is not among the sources.  It
    writes the array as a FITS file when the path can be written, and raises
    otherwise. *)
Definition images_save (writable : string -> bool)
    (img : ndarray float) (path : string) : M unit :=
  fun fs =>
    if writable path then (<[path := Fits img]> fs, Ok tt)
    else (fs, Raise OSError).

(** Modelled from the spec: [images.load] of [datapipe/io/images.py], which
    is not among the sources.  It returns the primary HDU of the FITS
    file at the path, and raises when there is none. *)
Definition images_load (path : string) : M (ndarray float) :=
  fun fs =>
    match fs !! path with
    | Some (Fits a) => (fs, Ok a)
    | _ => (fs, Raise OSError)
    end.

(** [os.system(cmd)]: the command acts on the file system; its exit status
    is returned, not raised, and the caller drops it. *)
Definition os_system (program : filesystem -> filesystem) : M unit :=
  fun fs => (program fs, Ok tt).

(** [os.remove(path)] *)
Definition os_remove (path : string) : M unit :=
  fun fs =>
    match fs !! path with
    | Some _ => (delete path fs, Ok tt)
    | None => (fs, Raise FileNotFoundError)
    end.

(** *** Pixel operations *)

(** [np.count_nonzero] of a boolean grid. *)
Definition count_nonzero (mask : grid bool) : nat :=
  length (filter (fun b => b = true) (concat mask)).

(** [img[mask] = vals]: the selected pixels take the values in row-major
    order.  A single value is broadcast; any other length mismatch raises
    ValueError. *)
Fixpoint put_row (row : list float) (mask : list bool) (vals : list float)
  : list float * list float :=
  match row, mask with
  | x :: row', b :: mask' =>
      match b, vals with
      | true, v :: vals' =>
          let '(r, rest) := put_row row' mask' vals' in (v :: r, rest)
      | _, _ =>
          let '(r, rest) := put_row row' mask' vals in (x :: r, rest)
      end
  | _, _ => (row, vals)
  end.

Fixpoint put_rows (img : grid float) (mask : grid bool) (vals : list float)
  : grid float :=
  match img, mask with
  | row :: img', m :: mask' =>
      let '(r, rest) := put_row row m vals in r :: put_rows img' mask' rest
  | _, _ => img
  end.

Definition assign_masked (img : grid float) (mask : grid bool)
    (vals : list float) : result (grid float) :=
  let n := count_nonzero mask in
  if (length vals =? n)%nat then Ok (put_rows img mask vals)
  else
    match vals with
    | [v] => Ok (put_rows img mask (replicate n v))
    | _ => Raise ValueError
    end.

(** [x] at a pixel outside the mask, NaN at a pixel inside. *)
Definition restore_pixel (x : float) (b : bool) : float := if b then nan else x.

(** [img[mask] = np.nan]: a boolean index must have the shape of the array
    it indexes, otherwise numpy raises IndexError. *)
Definition set_nan (img : grid float) (mask : grid bool) : result (grid float) :=
  if bool_decide (shape2 mask = shape2 img)
  then Ok (zip2 restore_pixel img mask)
  else Raise IndexError.

(** [np.nanmin]: [np.fmin.reduce] over all the pixels; ValueError on an
    array without pixels. *)
Definition nanmin (img : grid float) : result float :=
  match concat img with
  | [] => Raise ValueError
  | x :: xs => Ok (foldl fmin x xs)
  end.

(** Line 288 on one pixel. *)
Definition floor_pixel (x : float) : float :=
  if isfinite x && ltb x one then zero else x.

(** Lines 287-288. *)
Definition apply_correction_offset (cleaned_img : grid float) : result (grid float) :=
  match nanmin cleaned_img with
  | Raise e => Raise e
  | Ok m =>
      (* cleaned_img = cleaned_img - np.nanmin(cleaned_img) *)
      let shifted := map2 (fun x => sub x m) cleaned_img in
      (* cleaned_img[np.isfinite(cleaned_img) & (cleaned_img < 1.0)] = 0. *)
      Ok (map2 floor_pixel shifted)
  end.

(** *** Parameters of a call *)

(** The keyword arguments that reach the image.  The other ones only
    select options on the command line of the external program. *)
Record params : Type := Params {
  noise_distribution : option (nat -> list float);  (* its [rvs(size=n)] *)
  offset_after_calibration : option float;
  input_image_scale : string;
  suppress_last_scale : bool;
  correction_offset : bool;
  kill_isolated_pixels : bool;
  (* os.path.join(tmp_files_directory, ".tmp_<pid>_<time>_in.fits") and the
     same with "_out.fits" *)
  input_file_path : string;
  mr_output_file_path : string
}.

(** What the call finds around it: which paths can be written, what the
    command line run by [os.system] does to the file system, and the
    isolated-pixel filter of [datapipe/image/kill_isolated_pixels.py], which
    is not among the sources. *)
Record environment : Type := Environment {
  writable : string -> bool;
  mr_filter : filesystem -> filesystem;
  scipy_kill_isolated_pixels : grid float -> grid float
}.

(** The noise source returns as many samples as it is asked for. *)
Definition noise_ok (p : params) : Prop :=
  match noise_distribution p with
  | Some rvs => forall n, length (rvs n) = n
  | None => True
  end.

(** *** The library functions of the two scale changes

    [np.log10] and [np.power] are fixed on the special values by the C
    standard (Annex F) and computed by the platform's libm elsewhere:
    [lg m e] stands for [log10 (m * 2^e)] and [pw10 y], [pw2 y] for [10^y]
    and [2^y] at a finite non-zero [y]. *)
Section Libm.
Variable lg : positive -> Z -> float.
Variable pw10 pw2 : float -> float.

Definition log10 (x : float) : float :=
  match x with
  | S754_nan => nan
  | S754_zero _ => ninf
  | S754_infinity false => pinf
  | S754_infinity true => nan
  | S754_finite true _ _ => nan
  | S754_finite false m e => lg m e
  end.

Definition power (pw : float -> float) (y : float) : float :=
  match y with
  | S754_nan => nan
  | S754_zero _ => one
  | S754_infinity false => pinf
  | S754_infinity true => zero
  | S754_finite _ _ _ => pw y
  end.

(** The forward and backward scale changes (lines 161-172, 268-275). *)
Definition change_scale (scale : string) (img : grid float) : grid float :=
  if String.eqb scale "log" then map2 log10 img
  else if String.eqb scale "sqrt" then map2 sqrt img
  else img.

Definition invert_scale (scale : string) (img : grid float) : grid float :=
  if String.eqb scale "log" then map2 (power pw10) img
  else if String.eqb scale "sqrt" then map2 (power pw2) img
  else img.

(** Lines 134-172: what is written to the input file. *)
Definition prepare (p : params) (input_img : grid float) (nan_mask : grid bool)
  : result (grid float) :=
  match
    match noise_distribution p with
    | Some rvs => assign_masked input_img nan_mask (rvs (count_nonzero nan_mask))
    | None => Ok input_img
    end
  with
  | Raise e => Raise e
  | Ok img =>
      let img :=
        match offset_after_calibration p with
        | Some o => map2 (fun x => add x o) img
        | None => img
        end in
      Ok (change_scale (input_image_scale p) img)
  end.

(** Lines 262-305: from the array read back to the result.  The island
    statistics of lines 292-299 are computed from the image and stored in
    [output_data_dict]; they do not change the image. *)
Definition finish (env : environment) (p : params) (cleaned_img : grid float)
    (nan_mask : grid bool) : result (grid float) :=
  match set_nan cleaned_img nan_mask with
  | Raise e => Raise e
  | Ok img =>
      let img := invert_scale (input_image_scale p) img in
      let img :=
        match offset_after_calibration p with
        | Some o => if negb (suppress_last_scale p)
                    then map2 (fun x => sub x o) img else img
        | None => img
        end in
      match (if correction_offset p then apply_correction_offset img else Ok img) with
      | Raise e => Raise e
      | Ok img =>
          Ok (if kill_isolated_pixels p
              then scipy_kill_isolated_pixels env img else img)
      end
  end.

(** [WaveletTransform.clean_image].  The entries written to
    [output_data_dict] (paths and timings) are left out, and so is the text
    of the command line: [mr_filter env] is what running it does. *)
Definition clean_image (env : environment) (p : params) (input_img : ndarray float)
  : M (ndarray float) :=
  match input_img with
  | NdArray 2 g =>
      let nan_mask := map2 isnan g in
      let* img := lift (prepare p g nan_mask) in
      images_save (writable env) (NdArray 2 img) (input_file_path p) ;;
      os_system (mr_filter env) ;;
      let* cleaned_img := images_load (mr_output_file_path p) in
      os_remove (input_file_path p) ;;
      os_remove (mr_output_file_path p) ;;
      match cleaned_img with
      | NdArray 2 c =>
          let* out := lift (finish env p c nan_mask) in
          ret (NdArray 2 out)
      | _ => raise WrongDimensionError
      end
  | _ => raise WrongDimensionError
  end.

(** *** The same, pixel by pixel *)

Definition scale_pixel (scale : string) (x : float) : float :=
  if String.eqb scale "log" then log10 x
  else if String.eqb scale "sqrt" then sqrt x
  else x.

Definition unscale_pixel (scale : string) (x : float) : float :=
  if String.eqb scale "log" then power pw10 x
  else if String.eqb scale "sqrt" then power pw2 x
  else x.

Definition offset_pixel (p : params) (x : float) : float :=
  match offset_after_calibration p with
  | Some o => add x o
  | None => x
  end.

Definition unoffset_pixel (p : params) (x : float) : float :=
  match offset_after_calibration p with
  | Some o => if negb (suppress_last_scale p) then sub x o else x
  | None => x
  end.

(** The correction offset with minimum [m], when it is applied. *)
Definition correct_pixel (m : option float) (x : float) : float :=
  match m with
  | Some m => floor_pixel (sub x m)
  | None => x
  end.

Definition post_pixel (p : params) (m : option float) (x : float) : float :=
  correct_pixel m (unoffset_pixel p (unscale_pixel (input_image_scale p) x)).

(** [10 ^ log10 x], as the two library calls compute it. *)
Definition power10_log10 (x : float) : float := power pw10 (log10 x).

(** The part of the call after the two removals, which touches no file. *)
Definition conclude (env : environment) (p : params) (cleaned_img : ndarray float)
    (nan_mask : grid bool) : result (ndarray float) :=
  match cleaned_img with
  | NdArray 2 c =>
      match finish env p c nan_mask with
      | Ok out => Ok (NdArray 2 out)
      | Raise e => Raise e
      end
  | _ => Raise WrongDimensionError
  end.
End Libm.

(** *** Stand-ins for the external program *)

(** An external program seen as a function on grids. *)
Definition on_grid (f : grid float -> grid float) (a : ndarray float) : ndarray float :=
  match a with
  | NdArray 2 g => NdArray 2 (f g)
  | _ => a
  end.

(** A program that reads the array at its first argument and writes [f]
    of it at its second. *)
Definition mock_mr_filter (f : ndarray float -> ndarray float)
    (input output : string) : filesystem -> filesystem :=
  fun fs =>
    match fs !! input with
    | Some (Fits a) => <[output := Fits (f a)]> fs
    | _ => fs
    end.

(** An environment in which every path can be written, the external
    program computes [f], and the isolated-pixel filter changes nothing. *)
Definition mock_environment (f : grid float -> grid float) (p : params) : environment :=
  Environment (fun _ => true)
    (mock_mr_filter (on_grid f) (input_file_path p) (mr_output_file_path p))
    (fun g => g).

End WaveletTransform.

Import WaveletTransform.

(** ** Cleaning calls *)

(** A cleaning call that returns: either of the two algorithms, the
    isolated-pixel filter being one that keeps the shape of its argument. *)
Inductive cleaning_returns : ndarray float -> ndarray float -> Prop :=
| tailcut_returns (img : ndarray float) (high low : float) (out : ndarray float) :
    Tailcut.clean_image img high low = Ok out ->
    cleaning_returns img out
| wavelet_returns lg pw10 pw2 (env : environment) (p : params) (img : ndarray float)
    (fs fs' : filesystem) (out : ndarray float) :
    (forall sh g, has_shape 2 sh g -> has_shape 2 sh (scipy_kill_isolated_pixels env g)) ->
    clean_image lg pw10 pw2 env p img fs = (fs', Ok out) ->
    cleaning_returns img out.

(** ** Inputs of the examples *)

(** A libm that answers NaN: the examples never depend on its answers. *)
Definition no_libm_lg : positive -> Z -> float := fun _ _ => nan.
Definition no_libm_pw : float -> float := fun _ => nan.

Definition linear_params : params :=
  Params None None "linear" false false false ".tmp_in.fits" ".tmp_out.fits".


Definition example_run : filesystem * result (ndarray float) :=
  clean_image no_libm_lg no_libm_pw no_libm_pw
    (mock_environment (fun g => g) linear_params) linear_params
    (NdArray 2 [[of_Z 5; nan]]) ∅.




Definition shower : grid float :=
  [[of_Z 0; of_Z 6; of_Z 1];
   [of_Z 7; of_Z 20; of_Z (-3)];
   [of_Z 2; nan; of_Z 9]].

Definition cube : tensor float 3 :=
  [[[of_Z 20; of_Z 1]; [of_Z 7; of_Z 7]]; [[of_Z 1; of_Z 1]; [of_Z 6; of_Z 30]]].

(** ** Neighbours *)

(** Two indices at most one apart. *)
Definition near (a b : nat) : Prop := a <= S b /\ b <= S a.

(** The pixel of a mask, [false] outside the mask. *)
Definition pix (m : grid bool) (i j : nat) : bool :=
  default false (default [] (m !! i) !! j).

(** Whether [p] holds at [k], at [k + 1] or at [k - 1]. *)
Definition around (p : nat -> bool) (k : nat) : bool :=
  p k || p (S k) || match k with O => false | S k' => p k' end.

(** All the rows have [w] entries. *)
Definition rows_of_width {A : Type} (w : nat) (g : grid A) : Prop :=
  Forall (fun row => length row = w) g.

(** ** One pixel through the wrapper *)

(** A pixel through the offset, the change of scale and their inverses,
    as the wrapper applies them around the external program. *)
Definition round_trip_pixel (lg : positive -> Z -> float) (pw10 pw2 : float -> float)
    (p : params) (x : float) : float :=
  unoffset_pixel p
    (unscale_pixel pw10 pw2 (input_image_scale p)
       (scale_pixel lg (input_image_scale p) (offset_pixel p x))).

(** An external program that writes an array of one dimension. *)
Definition flat_output (a : ndarray float) : ndarray float := NdArray 1 [one].

(** An external program that writes one more row than it reads. *)
Definition one_more_row (a : grid float) : grid float := [] :: a.

(** A noise source that answers [7.0] as many times as asked. *)
Definition sevens (n : nat) : list float := replicate n (of_Z 7).

Definition noise_params : params :=
  Params (Some sevens) None "linear" false false false ".tmp_in.fits" ".tmp_out.fits".

Definition sqrt_params : params :=
  Params None None "sqrt" false false false ".tmp_in.fits" ".tmp_out.fits".

Definition correction_params : params :=
  Params None None "linear" false true false ".tmp_in.fits" ".tmp_out.fits".

Definition offset_params (suppress : bool) : params :=
  Params None (Some (of_Z 3)) "linear" suppress false false ".tmp_in.fits" ".tmp_out.fits".

(** ** The converter of camera images ([datapipe/io/geometry_converter.py])

    The image of a camera comes as a one-dimensional array, one entry for
    each pixel; the converter lays it out on a square grid, the positions
    without a pixel holding NaN, and back. *)

Module GeometryConverter.

(** *** The numpy operations in use *)

(** [np.arange(n)] *)
Definition arange (n : nat) : list Z := Z.of_nat <$> seq 0 n.

(** [a.reshape([rows, cols])] for a one-dimensional [a] of [rows * cols]
    entries; the sizes are constants that agree wherever the converter
    reshapes. *)
Fixpoint reshape {A : Type} (rows cols : nat) (a : list A) : grid A :=
  match rows with
  | O => []
  | S r => take cols a :: reshape r cols (drop cols a)
  end.

(** [g.ravel()] *)
Definition ravel {A : Type} (g : grid A) : list A := concat g.

(** [g[::-1, :]] *)
Definition flip_rows {A : Type} (g : grid A) : grid A := reverse g.

(** [g[r0:r1, c0:c1]] with bounds inside the array. *)
Definition slice2 {A : Type} (r0 r1 c0 c1 : nat) (g : grid A) : grid A :=
  (fun row => take (c1 - c0) (drop c0 row)) <$> take (r1 - r0) (drop r0 g).

(** [g[r0:r1, c0:c1] = b] for a block [b] of the shape of the slice. *)
Definition assign_block {A : Type} (r0 r1 c0 c1 : nat) (b : grid A) (g : grid A) : grid A :=
  take r0 g
  ++ zip_with (fun row brow => take c0 row ++ brow ++ drop c1 row)
       (take (r1 - r0) (drop r0 g)) b
  ++ drop r1 g.

(** [g[r0:r1, c0:c1] = v] for a scalar [v]. *)
Definition fill_block {A : Type} (r0 r1 c0 c1 : nat) (v : A) (g : grid A) : grid A :=
  assign_block r0 r1 c0 c1 (replicate (r1 - r0) (replicate (c1 - c0) v)) g.

(** [a[k]] with the negative indices of Python. *)
Definition py_index {A : Type} (a : list A) (k : Z) : option A :=
  if (0 <=? k)%Z then a !! Z.to_nat k
  else if (- Z.of_nat (length a) <=? k)%Z then a !! Z.to_nat (Z.of_nat (length a) + k)
  else None.

(** [a[idx]] for an array of indices [idx]: IndexError when one of them is
    out of bounds. *)
Definition take_indices {A : Type} (a : list A) (idx : list Z) : result (list A) :=
  match mapM (py_index a) idx with
  | Some l => Ok l
  | None => Raise IndexError
  end.

(** Lines 128-130 and 403-405: the image with one more entry, NaN, at its
    end. *)
Definition extend_with_nan (input_img : list float) : list float :=
  (* input_img_ext = np.zeros(input_img.shape[0] + 1) *)
  let input_img_ext := replicate (length input_img + 1) zero in
  (* input_img_ext[:-1] = input_img[:] *)
  let input_img_ext := upd_but_last (fun _ => input_img) input_img_ext in
  (* input_img_ext[-1] = np.nan *)
  but_last input_img_ext ++ [nan].

(** *** ASTRI *)

(** [np.arange(64).reshape([8,8])[::-1,:] + k * 64]: the pixels of module
    [k], its rows from the last to the first. *)
Definition astri_module (k : Z) : grid Z :=
  map2 (fun x => x + k * 64)%Z (flip_rows (reshape 8 8 (arange 64))).

(** [img_map[r*8:(r+1)*8, c*8:(c+1)*8] = ... + k * 64] *)
Definition place (r c : nat) (k : Z) (img_map : grid Z) : grid Z :=
  assign_block (r * 8) ((r + 1) * 8) (c * 8) ((c + 1) * 8) (astri_module k) img_map.

(** Lines 134-182. *)
Definition astri_img_map : grid Z :=
  (* img_map = np.zeros([8*7, 8*7], dtype=int); img_map[:] = -1 *)
  let img_map := map2 (fun _ => (-1)%Z) (replicate (8 * 7) (replicate (8 * 7) 0%Z)) in
  let img_map := place 0 2 34 img_map in
  let img_map := place 0 3 35 img_map in
  let img_map := place 0 4 36 img_map in
  let img_map := place 1 1 29 img_map in
  let img_map := place 1 2 30 img_map in
  let img_map := place 1 3 31 img_map in
  let img_map := place 1 4 32 img_map in
  let img_map := place 1 5 33 img_map in
  let img_map := place 2 0 22 img_map in
  let img_map := place 2 1 23 img_map in
  let img_map := place 2 2 24 img_map in
  let img_map := place 2 3 25 img_map in
  let img_map := place 2 4 26 img_map in
  let img_map := place 2 5 27 img_map in
  let img_map := place 2 6 28 img_map in
  let img_map := place 3 0 15 img_map in
  let img_map := place 3 1 16 img_map in
  let img_map := place 3 2 17 img_map in
  let img_map := place 3 3 18 img_map in
  let img_map := place 3 4 19 img_map in
  let img_map := place 3 5 20 img_map in
  let img_map := place 3 6 21 img_map in
  let img_map := place 4 0 8 img_map in
  let img_map := place 4 1 9 img_map in
  let img_map := place 4 2 10 img_map in
  let img_map := place 4 3 11 img_map in
  let img_map := place 4 4 12 img_map in
  let img_map := place 4 5 13 img_map in
  let img_map := place 4 6 14 img_map in
  let img_map := place 5 1 3 img_map in
  let img_map := place 5 2 4 img_map in
  let img_map := place 5 3 5 img_map in
  let img_map := place 5 4 6 img_map in
  let img_map := place 5 5 7 img_map in
  let img_map := place 6 2 0 img_map in
  let img_map := place 6 3 1 img_map in
  let img_map := place 6 4 2 img_map in
  img_map.

(** [astri_to_2d_array_no_crop] *)
Definition astri_to_2d_array_no_crop (input_img : list float) : result (grid float) :=
  if negb (length input_img =? 37 * 64)%nat then Raise ValueError
  else
    let input_img_ext := extend_with_nan input_img in
    (* img_2d = input_img_ext[[img_map.ravel()]].reshape([8*7, 8*7]) *)
    match take_indices input_img_ext (ravel astri_img_map) with
    | Ok a => Ok (reshape (8 * 7) (8 * 7) a)
    | Raise e => Raise e
    end.

(** Lines 210-240. *)
Definition astri_crop_img_map : grid Z :=
  (* img_map = np.zeros([8*5, 8*5], dtype=int) *)
  let img_map := replicate (8 * 5) (replicate (8 * 5) 0%Z) in
  let img_map := place 0 0 29 img_map in
  let img_map := place 0 1 30 img_map in
  let img_map := place 0 2 31 img_map in
  let img_map := place 0 3 32 img_map in
  let img_map := place 0 4 33 img_map in
  let img_map := place 1 0 23 img_map in
  let img_map := place 1 1 24 img_map in
  let img_map := place 1 2 25 img_map in
  let img_map := place 1 3 26 img_map in
  let img_map := place 1 4 27 img_map in
  let img_map := place 2 0 16 img_map in
  let img_map := place 2 1 17 img_map in
  let img_map := place 2 2 18 img_map in
  let img_map := place 2 3 19 img_map in
  let img_map := place 2 4 20 img_map in
  let img_map := place 3 0 9 img_map in
  let img_map := place 3 1 10 img_map in
  let img_map := place 3 2 11 img_map in
  let img_map := place 3 3 12 img_map in
  let img_map := place 3 4 13 img_map in
  let img_map := place 4 0 3 img_map in
  let img_map := place 4 1 4 img_map in
  let img_map := place 4 2 5 img_map in
  let img_map := place 4 3 6 img_map in
  let img_map := place 4 4 7 img_map in
  img_map.

(** [astri_to_2d_array_crop] *)
Definition astri_to_2d_array_crop (input_img : list float) : result (grid float) :=
  if negb (length input_img =? 37 * 64)%nat then Raise ValueError
  else
    (* cropped_img = input_img[[img_map.ravel()]].reshape([8*5, 8*5]) *)
    match take_indices input_img (ravel astri_crop_img_map) with
    | Ok a => Ok (reshape (8 * 5) (8 * 5) a)
    | Raise e => Raise e
    end.

(** [astri_to_2d_array] *)
Definition astri_to_2d_array (input_img : list float) (crop : bool) : result (grid float) :=
  if crop then astri_to_2d_array_crop input_img
  else astri_to_2d_array_no_crop input_img.

(** [img_mask[r*8:(r+1)*8, c*8:(c+1)*8] = 1] *)
Definition mark (r c : nat) (img_mask : grid Z) : grid Z :=
  fill_block (r * 8) ((r + 1) * 8) (c * 8) ((c + 1) * 8) 1%Z img_mask.

(** [astri_pixel_mask] *)
Definition astri_pixel_mask (crop : bool) : grid Z :=
  if crop then
    (* np.ones([8*5, 8*5], dtype=int) *)
    replicate (8 * 5) (replicate (8 * 5) 1%Z)
  else
    (* np.zeros([8*7, 8*7], dtype=int) *)
    let img_mask := replicate (8 * 7) (replicate (8 * 7) 0%Z) in
    let img_mask := mark 0 2 img_mask in
    let img_mask := mark 0 3 img_mask in
    let img_mask := mark 0 4 img_mask in
    let img_mask := mark 1 1 img_mask in
    let img_mask := mark 1 2 img_mask in
    let img_mask := mark 1 3 img_mask in
    let img_mask := mark 1 4 img_mask in
    let img_mask := mark 1 5 img_mask in
    let img_mask := mark 2 0 img_mask in
    let img_mask := mark 2 1 img_mask in
    let img_mask := mark 2 2 img_mask in
    let img_mask := mark 2 3 img_mask in
    let img_mask := mark 2 4 img_mask in
    let img_mask := mark 2 5 img_mask in
    let img_mask := mark 2 6 img_mask in
    let img_mask := mark 3 0 img_mask in
    let img_mask := mark 3 1 img_mask in
    let img_mask := mark 3 2 img_mask in
    let img_mask := mark 3 3 img_mask in
    let img_mask := mark 3 4 img_mask in
    let img_mask := mark 3 5 img_mask in
    let img_mask := mark 3 6 img_mask in
    let img_mask := mark 4 0 img_mask in
    let img_mask := mark 4 1 img_mask in
    let img_mask := mark 4 2 img_mask in
    let img_mask := mark 4 3 img_mask in
    let img_mask := mark 4 4 img_mask in
    let img_mask := mark 4 5 img_mask in
    let img_mask := mark 4 6 img_mask in
    let img_mask := mark 5 1 img_mask in
    let img_mask := mark 5 2 img_mask in
    let img_mask := mark 5 3 img_mask in
    let img_mask := mark 5 4 img_mask in
    let img_mask := mark 5 5 img_mask in
    let img_mask := mark 6 2 img_mask in
    let img_mask := mark 6 3 img_mask in
    let img_mask := mark 6 4 img_mask in
    img_mask.

(** [img_2d[r*8:(r+1)*8, c*8:(c+1)*8][::-1,:].ravel()] *)
Definition module_of {A : Type} (img_2d : grid A) (r c : nat) : list A :=
  ravel (flip_rows (slice2 (r * 8) ((r + 1) * 8) (c * 8) ((c + 1) * 8) img_2d)).

(** [array_2d_to_astri]: [np.concatenate] of the modules, in the order of
    their numbers. *)
Definition array_2d_to_astri {A : Type} (img_2d : grid A) : list A :=
  concat [
    module_of img_2d 6 2; module_of img_2d 6 3; module_of img_2d 6 4;
    module_of img_2d 5 1; module_of img_2d 5 2; module_of img_2d 5 3;
    module_of img_2d 5 4; module_of img_2d 5 5;
    module_of img_2d 4 0; module_of img_2d 4 1; module_of img_2d 4 2;
    module_of img_2d 4 3; module_of img_2d 4 4; module_of img_2d 4 5;
    module_of img_2d 4 6;
    module_of img_2d 3 0; module_of img_2d 3 1; module_of img_2d 3 2;
    module_of img_2d 3 3; module_of img_2d 3 4; module_of img_2d 3 5;
    module_of img_2d 3 6;
    module_of img_2d 2 0; module_of img_2d 2 1; module_of img_2d 2 2;
    module_of img_2d 2 3; module_of img_2d 2 4; module_of img_2d 2 5;
    module_of img_2d 2 6;
    module_of img_2d 1 1; module_of img_2d 1 2; module_of img_2d 1 3;
    module_of img_2d 1 4; module_of img_2d 1 5;
    module_of img_2d 0 2; module_of img_2d 0 3; module_of img_2d 0 4
  ].

(** *** GCT *)

(** Lines 409-417.  On an axis of 48 entries the bound [-8] is 40. *)
Definition gct_img_map : grid Z :=
  (* img_map = np.zeros([8*6, 8*6], dtype=int); img_map[:] = -1 *)
  let img_map := map2 (fun _ => (-1)%Z) (replicate (8 * 6) (replicate (8 * 6) 0%Z)) in
  (* img_map[:8,8:-8] = np.arange(8*8*4).reshape([8,8*4]) *)
  let img_map := assign_block 0 8 8 (48 - 8) (reshape 8 (8 * 4) (arange (8 * 8 * 4))) img_map in
  (* img_map[8:40,:] = np.arange(32*48).reshape([32,48]) + 256 *)
  let img_map :=
    assign_block 8 40 0 48
      (map2 (fun x => x + 256)%Z (reshape 32 48 (arange (32 * 48)))) img_map in
  (* img_map[-8:,8:-8] = np.arange(8*8*4).reshape([8,8*4]) + 1792 *)
  let img_map :=
    assign_block (48 - 8) 48 8 (48 - 8)
      (map2 (fun x => x + 1792)%Z (reshape 8 (8 * 4) (arange (8 * 8 * 4)))) img_map in
  img_map.

(** [gct_to_2d_array] *)
Definition gct_to_2d_array (input_img : list float) : result (grid float) :=
  if negb (length input_img =? 2048)%nat then Raise ValueError
  else
    let input_img_ext := extend_with_nan input_img in
    (* img_2d = input_img_ext[[img_map.ravel()]].reshape([8*6, 8*6]) *)
    match take_indices input_img_ext (ravel gct_img_map) with
    | Ok a => Ok (reshape (8 * 6) (8 * 6) a)
    | Raise e => Raise e
    end.

(** [gct_pixel_mask] *)
Definition gct_pixel_mask : grid Z :=
  let img_mask := replicate (8 * 6) (replicate (8 * 6) 0%Z) in
  (* img_mask[:8,8:-8] = 1 *)
  let img_mask := fill_block 0 8 8 (48 - 8) 1%Z img_mask in
  (* img_mask[8:40,:] = 1 *)
  let img_mask := fill_block 8 40 0 48 1%Z img_mask in
  (* img_mask[-8:,8:-8] = 1 *)
  let img_mask := fill_block (48 - 8) 48 8 (48 - 8) 1%Z img_mask in
  img_mask.

(** [array_2d_to_gct]: [img_2d[np.isfinite(img_2d)]], the finite pixels in
    row-major order. *)
Definition array_2d_to_gct (img_2d : grid float) : list float :=
  filter (fun x => isfinite x = true) (ravel img_2d).

(** *** Reading an index map *)

(** The entry of [a] at an index of a map, NaN when there is none. *)
Definition entry (a : list float) (k : Z) : float := default nan (py_index a k).

(** An index that [a[k]] accepts when [a] has [len] entries. *)
Definition in_bounds (len : Z) (k : Z) : bool := ((- len <=? k) && (k <? len))%Z.

(** The mask of the pixels of a map: [1] where the map holds the index of
    a pixel, [0] where it holds [-1]. *)
Definition mask_of_map (img_map : grid Z) : grid Z :=
  map2 (fun k => if (k <? 0)%Z then 0%Z else 1%Z) img_map.

(** The mask of the pixels of an image that are not NaN. *)
Definition mask_of_image (img : grid float) : grid Z :=
  map2 (fun x => if isnan x then 0%Z else 1%Z) img.

(** An image of [n] pixels, the pixel [k] holding the number [k]. *)
Definition ramp (n : nat) : list float := of_Z <$> arange n.

End GeometryConverter.

(** ** The command line of the external program and the temporary paths
    (lines 124-125 and 189-228 of [wavelets_mrfilter.py]) *)

Module CommandLine.

(** A value given to a keyword argument and printed by [format]. *)
Inductive pyvalue : Type :=
| PyInt (n : Z)
| PyFloat (x : float)
| PyStr (s : string).

(** The keyword arguments that reach the command line. *)
Record options : Type := Options {
  type_of_multiresolution_transform : option pyvalue;
  type_of_filters : option pyvalue;
  type_of_non_orthog_filters : option pyvalue;
  number_of_scales : option pyvalue;
  suppress_last_scale : bool;
  suppress_isolated_pixels : bool;
  coef_detection_method : option pyvalue;
  k_sigma_noise_threshold : option pyvalue;
  noise_model : option pyvalue;
  detect_only_positive_structure : bool;
  suppress_positivity_constraint : bool;
  type_of_filtering : option pyvalue;
  first_detection_scale : option pyvalue;
  number_of_iterations : option pyvalue;
  epsilon : option pyvalue;
  support_file_name : option pyvalue;
  precision : option pyvalue;
  mask_file_path : option pyvalue;
  verbose : bool;
  raw_option_string : option string;
  mrfilter_directory : option string
}.

(** The double-quote character, as a string. *)
Definition double_quote : string := String (Ascii.ascii_of_nat 34) EmptyString.

(** The separator of paths, [/]. *)
Definition sep : Ascii.ascii := Ascii.ascii_of_nat 47.

(** [s.startswith('/')] and [s.endswith('/')] *)
Definition starts_with_sep (s : string) : bool :=
  match s with
  | String c _ => Ascii.eqb c sep
  | EmptyString => false
  end.

Fixpoint ends_with_sep (s : string) : bool :=
  match s with
  | EmptyString => false
  | String c EmptyString => Ascii.eqb c sep
  | String _ s' => ends_with_sep s'
  end.

(** [os.path.join(a, b)] of [posixpath]. *)
Definition path_join (a b : string) : string :=
  if starts_with_sep b then b
  else if String.eqb a EmptyString || ends_with_sep a then a +:+ b
  else a +:+ String sep EmptyString +:+ b.

Section Format.
(** [repr] of a float, as [format] prints it. *)
Variable repr_float : float -> string.

(** ['{}'.format(v)] *)
Definition format (v : pyvalue) : string :=
  match v with
  | PyInt n => pretty n
  | PyFloat x => repr_float x
  | PyStr s => s
  end.

(** [' -x{}'.format(v) if v is not None else ''] *)
Definition flag (letter : string) (v : option pyvalue) : string :=
  match v with
  | Some x => letter +:+ format x
  | None => EmptyString
  end.

(** [' -x' if b else ''] *)
Definition switch (letter : string) (b : bool) : string :=
  if b then letter else EmptyString.

(** Lines 189-192. *)
Definition program (o : options) : string :=
  match mrfilter_directory o with
  | None => "mr_filter"
  | Some d => path_join d "mr_filter"
  end.

(** Lines 189-228: the command given to [os.system]. *)
Definition mr_filter_command (o : options) (input_file_path mr_output_file_path : string)
  : string :=
  let cmd := program o in
  let cmd :=
    match raw_option_string o with
    | None =>
        let cmd := cmd +:+ flag " -t" (type_of_multiresolution_transform o) in
        let cmd := cmd +:+ flag " -T" (type_of_filters o) in
        let cmd := cmd +:+ flag " -U" (type_of_non_orthog_filters o) in
        let cmd := cmd +:+ flag " -n" (number_of_scales o) in
        let cmd := cmd +:+ switch " -K" (suppress_last_scale o) in
        let cmd := cmd +:+ switch " -k" (suppress_isolated_pixels o) in
        let cmd := cmd +:+ flag " -C" (coef_detection_method o) in
        let cmd := cmd +:+ flag " -s" (k_sigma_noise_threshold o) in
        let cmd := cmd +:+ flag " -m" (noise_model o) in
        let cmd := cmd +:+ switch " -p" (detect_only_positive_structure o) in
        let cmd := cmd +:+ switch " -P" (suppress_positivity_constraint o) in
        let cmd := cmd +:+ flag " -f" (type_of_filtering o) in
        let cmd := cmd +:+ flag " -F" (first_detection_scale o) in
        let cmd := cmd +:+ flag " -i" (number_of_iterations o) in
        let cmd := cmd +:+ flag " -e" (epsilon o) in
        let cmd := cmd +:+ flag " -w" (support_file_name o) in
        let cmd := cmd +:+ flag " -E" (precision o) in
        let cmd := cmd +:+ flag " -I " (mask_file_path o) in
        let cmd := cmd +:+ switch " -v" (verbose o) in
        cmd
    | Some raw =>
        (* cmd += ' ' + raw_option_string *)
        cmd +:+ (" " +:+ raw)
    end in
  (* cmd += ' "{}" "{}"'.format(input_file_path, mr_output_file_path) *)
  let cmd :=
    cmd +:+ (" " +:+ double_quote +:+ input_file_path +:+ double_quote
             +:+ " " +:+ double_quote +:+ mr_output_file_path +:+ double_quote) in
  if verbose o then cmd else cmd +:+ " > /dev/null".

(** Lines 124-125: the paths of the two temporary files, from the
    directory, the process id and two readings of the clock. *)
Definition input_file_path (tmp_files_directory : string) (pid : Z) (now : float) : string :=
  path_join tmp_files_directory
    (".tmp_" +:+ pretty pid +:+ "_" +:+ repr_float now +:+ "_in.fits").

Definition mr_output_file_path (tmp_files_directory : string) (pid : Z) (now : float)
  : string :=
  path_join tmp_files_directory
    (".tmp_" +:+ pretty pid +:+ "_" +:+ repr_float now +:+ "_out.fits").
End Format.

(** The keyword arguments at their defaults. *)
Definition default_options : options :=
  Options None None None None false false None None None false false
    None None None None None None None false None None.

(** A [repr] that prints every float as [1.5]: the examples do not depend
    on it. *)
Definition repr_stub (x : float) : string := "1.5".

End CommandLine.

(** ** The whole call of the wrapper, with its report

    [WaveletTransform.clean_image] once more, this time with everything
    lines 119-314 do: the temporary paths are built from the directory, the
    process id and the clock, the command line is built from the keyword
    arguments, and the entries of [output_data_dict] are written when the
    caller gave a dictionary. *)

Module FullCall.
Import CommandLine.

(** [output_data_dict], when the caller gives one. *)
Abbreviation report := (gmap string pyvalue).

(** The keyword arguments: the ones of the command line and the ones that
    reach the image. *)
Record keywords : Type := Keywords {
  command_options : options;
  kill_isolated_pixels : bool;
  offset_after_calibration : option float;
  correction_offset : bool;
  input_image_scale : string;
  noise_distribution : option (nat -> list float);
  tmp_files_directory : string
}.

(** What the call finds around it. [kill_isolated_pixels_stats],
    [number_of_islands] and [scipy_kill_isolated_pixels] come from
    [datapipe/image/kill_isolated_pixels.py], which is not among the
    sources. *)
Record system : Type := System {
  repr_float : float -> string;
  getpid : Z;
  (* the two readings of time.time() of lines 124 and 125 *)
  time_in : float;
  time_out : float;
  (* the successive readings of time.perf_counter() *)
  perf_counter : nat -> float;
  writable : string -> bool;
  (* os.system(cmd) *)
  shell : string -> filesystem -> filesystem;
  kill_isolated_pixels_stats : grid float -> pyvalue * pyvalue * pyvalue;
  number_of_islands : grid float -> pyvalue;
  scipy_kill_isolated_pixels : grid float -> grid float
}.

(** The files, the dictionary of the caller and the number of readings of
    the performance counter so far. *)
Record state : Type := State {
  files : filesystem;
  output_data_dict : option report;
  readings : nat
}.

Definition R (A : Type) : Type := state -> state * result A.

Definition ret {A : Type} (a : A) : R A := fun st => (st, Ok a).
Definition raise {A : Type} (e : exn) : R A := fun st => (st, Raise e).
Definition bind {A B : Type} (m : R A) (k : A -> R B) : R B :=
  fun st =>
    match m st with
    | (st', Ok a) => k a st'
    | (st', Raise e) => (st', Raise e)
    end.
Definition lift {A : Type} (r : result A) : R A := fun st => (st, r).

(** A computation on the files alone. *)
Definition on_files {A : Type} (m : M A) : R A :=
  fun st =>
    let '(fs, r) := m (files st) in
    (State fs (output_data_dict st) (readings st), r).

(** [if output_data_dict is not None: output_data_dict[key] = value] *)
Definition record (key : string) (value : pyvalue) : R unit :=
  fun st =>
    (State (files st) ((fun d => <[key := value]> d) <$> output_data_dict st) (readings st),
     Ok tt).

(** [time.perf_counter()] *)
Definition read_perf_counter (sys : system) : R float :=
  fun st =>
    (State (files st) (output_data_dict st) (S (readings st)),
     Ok (perf_counter sys (readings st))).

Local Notation "'let!' x ':=' m 'in' k" := (bind m (fun x => k))
  (at level 10, x name, m at level 100, k at level 200).
Local Notation "m ';!' k" := (bind m (fun _ => k))
  (at level 100, k at level 200, right associativity).

(** The parameters of the call as [WaveletTransform] takes them. *)
Definition params_of (kw : keywords) (input_file_path mr_output_file_path : string)
  : params :=
  Params (noise_distribution kw) (offset_after_calibration kw) (input_image_scale kw)
    (CommandLine.suppress_last_scale (command_options kw)) (correction_offset kw)
    (kill_isolated_pixels kw) input_file_path mr_output_file_path.

Section Libm.
Variable lg : positive -> Z -> float.
Variable pw10 pw2 : float -> float.

(** Lines 262-288: from the array read back to the image the island
    statistics are computed from. *)
Definition before_islands (kw : keywords) (cleaned_img : grid float) (nan_mask : grid bool)
  : result (grid float) :=
  match set_nan cleaned_img nan_mask with
  | Raise e => Raise e
  | Ok img =>
      let img := invert_scale pw10 pw2 (input_image_scale kw) img in
      let img :=
        match offset_after_calibration kw with
        | Some o => if negb (CommandLine.suppress_last_scale (command_options kw))
                    then map2 (fun x => sub x o) img else img
        | None => img
        end in
      if correction_offset kw then apply_correction_offset img else Ok img
  end.

(** Lines 119-314. *)
Definition clean_image (sys : system) (kw : keywords) (input_img : ndarray float)
  : R (ndarray float) :=
  match input_img with
  | NdArray 2 g =>
      let input_file_path :=
        CommandLine.input_file_path (repr_float sys) (tmp_files_directory kw)
          (getpid sys) (time_in sys) in
      let mr_output_file_path :=
        CommandLine.mr_output_file_path (repr_float sys) (tmp_files_directory kw)
          (getpid sys) (time_out sys) in
      record "mr_input_tmp_file_path" (PyStr input_file_path) ;!
      record "mr_output_tmp_file_path" (PyStr mr_output_file_path) ;!
      match mask_file_path (command_options kw) with
      | Some path => record "mr_mask_file_path" path
      | None => ret tt
      end ;!
      let nan_mask := map2 isnan g in
      let! img :=
        lift (prepare lg (params_of kw input_file_path mr_output_file_path) g nan_mask) in
      (* write the input file *)
      let! initial_time := read_perf_counter sys in
      on_files (images_save (writable sys) (NdArray 2 img) input_file_path) ;!
      let! final_time := read_perf_counter sys in
      record "save_tmp_file_time_sec" (PyFloat (sub final_time initial_time)) ;!
      (* execute mr_filter *)
      let cmd :=
        mr_filter_command (repr_float sys) (command_options kw)
          input_file_path mr_output_file_path in
      let! initial_time := read_perf_counter sys in
      on_files (os_system (shell sys cmd)) ;!
      let! final_time := read_perf_counter sys in
      record "mrfilter_cmd_exec_time_sec" (PyFloat (sub final_time initial_time)) ;!
      (* read the output file *)
      let! initial_time := read_perf_counter sys in
      let! cleaned_img := on_files (images_load mr_output_file_path) in
      let! final_time := read_perf_counter sys in
      record "load_tmp_file_time_sec" (PyFloat (sub final_time initial_time)) ;!
      (* remove the files *)
      on_files (os_remove input_file_path) ;!
      on_files (os_remove mr_output_file_path) ;!
      match cleaned_img with
      | NdArray 2 c =>
          let! cleaned_img := lift (before_islands kw c nan_mask) in
          let '(delta_pe, delta_abs_pe, delta_num_pixels) :=
            kill_isolated_pixels_stats sys cleaned_img in
          let num_islands := number_of_islands sys cleaned_img in
          record "img_cleaned_islands_delta_pe" delta_pe ;!
          record "img_cleaned_islands_delta_abs_pe" delta_abs_pe ;!
          record "img_cleaned_islands_delta_num_pixels" delta_num_pixels ;!
          record "img_cleaned_num_islands" num_islands ;!
          if kill_isolated_pixels kw then
            let! initial_time := read_perf_counter sys in
            let cleaned_img := scipy_kill_isolated_pixels sys cleaned_img in
            let! final_time := read_perf_counter sys in
            record "scipy_kill_isolated_pixels_time_sec"
              (PyFloat (sub final_time initial_time)) ;!
            ret (NdArray 2 cleaned_img)
          else ret (NdArray 2 cleaned_img)
      | _ => raise WrongDimensionError
      end
  | _ => raise WrongDimensionError
  end.
End Libm.

(** The environment and the parameters of the same call, as
    [WaveletTransform.clean_image] takes them. *)
Definition environment_of (sys : system) (kw : keywords) : environment :=
  Environment (writable sys)
    (shell sys
       (mr_filter_command (repr_float sys) (command_options kw)
          (CommandLine.input_file_path (repr_float sys) (tmp_files_directory kw)
             (getpid sys) (time_in sys))
          (CommandLine.mr_output_file_path (repr_float sys) (tmp_files_directory kw)
             (getpid sys) (time_out sys))))
    (scipy_kill_isolated_pixels sys).

Definition call_params (sys : system) (kw : keywords) : params :=
  params_of kw
    (CommandLine.input_file_path (repr_float sys) (tmp_files_directory kw)
       (getpid sys) (time_in sys))
    (CommandLine.mr_output_file_path (repr_float sys) (tmp_files_directory kw)
       (getpid sys) (time_out sys)).

(** The keys the call writes when it returns. *)
Definition keys_written (kw : keywords) : gset string :=
  {[ "mr_input_tmp_file_path"; "mr_output_tmp_file_path";
     "save_tmp_file_time_sec"; "mrfilter_cmd_exec_time_sec"; "load_tmp_file_time_sec";
     "img_cleaned_islands_delta_pe"; "img_cleaned_islands_delta_abs_pe";
     "img_cleaned_islands_delta_num_pixels"; "img_cleaned_num_islands" ]}
  ∪ (match mask_file_path (command_options kw) with
     | Some _ => {[ "mr_mask_file_path" ]}
     | None => ∅
     end)
  ∪ (if kill_isolated_pixels kw then {[ "scipy_kill_isolated_pixels_time_sec" ]} else ∅).

(** A system in which every path can be written, the command copies the
    array of the file [.tmp_1_1.5_in.fits] to [.tmp_1_1.5_out.fits], and the
    island functions answer zeros and change nothing. *)
Definition example_system : system :=
  System repr_stub 1 one one (fun n => of_Z (Z.of_nat n)) (fun _ => true)
    (fun _ => mock_mr_filter (fun a => a) ".tmp_1_1.5_in.fits" ".tmp_1_1.5_out.fits")
    (fun _ => (PyFloat zero, PyFloat zero, PyInt 0)) (fun _ => PyInt 0) (fun g => g).

Definition example_keywords : keywords :=
  Keywords default_options false None false "linear" None EmptyString.

(** A call with an empty dictionary, no file and a clock never read. *)
Definition example_state : state := State ∅ (Some ∅) 0.

Definition example_call : state * result (ndarray float) :=
  clean_image no_libm_lg no_libm_pw no_libm_pw example_system example_keywords
    (NdArray 2 [[of_Z 5; nan]]) example_state.

End FullCall.

(** * Part II: lemmas *)

(** ** Binary64: order, multiplication by a mask, subtraction *)

Section Float64.
Local Open Scope Z_scope.

Lemma SFcompare_key (x y : float) :
  isnan x = false -> isnan y = false -> SFcompare x y = Some (lex3 (key x) (key y)).
Proof.
  destruct x as [[]|[]| |[] m1 e1], y as [[]|[]| |[] m2 e2]; simpl; try discriminate; intros _ _;
    try reflexivity.
  unfold lex3; simpl. rewrite Z.compare_opp, (Z.compare_antisym e1 e2).
  destruct (e1 ?= e2); simpl; try reflexivity.
Qed.

Lemma lex3_trans (a b c : Z * (Z * Z)) :
  lex3 a b <> Gt -> lex3 b c <> Gt -> lex3 a c <> Gt.
Proof.
  destruct a as [a1 [a2 a3]], b as [b1 [b2 b3]], c as [c1 [c2 c3]].
  unfold lex3; simpl.
  destruct (Z.compare_spec a1 b1), (Z.compare_spec b1 c1), (Z.compare_spec a1 c1);
    try congruence; try lia;
  destruct (Z.compare_spec a2 b2), (Z.compare_spec b2 c2), (Z.compare_spec a2 c2);
    try congruence; try lia;
  destruct (Z.compare_spec a3 b3), (Z.compare_spec b3 c3), (Z.compare_spec a3 c3);
    try congruence; lia.
Qed.

Lemma lex3_lt_le_trans (a b c : Z * (Z * Z)) :
  lex3 a b = Lt -> lex3 b c <> Gt -> lex3 a c = Lt.
Proof.
  destruct a as [a1 [a2 a3]], b as [b1 [b2 b3]], c as [c1 [c2 c3]].
  unfold lex3; simpl.
  destruct (Z.compare_spec a1 b1), (Z.compare_spec b1 c1), (Z.compare_spec a1 c1);
    try congruence; try lia;
  destruct (Z.compare_spec a2 b2), (Z.compare_spec b2 c2), (Z.compare_spec a2 c2);
    try congruence; try lia;
  destruct (Z.compare_spec a3 b3), (Z.compare_spec b3 c3), (Z.compare_spec a3 c3);
    try congruence; lia.
Qed.

Lemma lex3_antisym (a b : Z * (Z * Z)) : lex3 b a = CompOpp (lex3 a b).
Proof.
  destruct a as [a1 [a2 a3]], b as [b1 [b2 b3]]. unfold lex3; simpl.
  rewrite (Z.compare_antisym a1 b1), (Z.compare_antisym a2 b2), (Z.compare_antisym a3 b3).
  destruct (a1 ?= b1), (a2 ?= b2), (a3 ?= b3); reflexivity.
Qed.

Lemma leb_key (x y : float) :
  leb x y = true <-> isnan x = false /\ isnan y = false /\ lex3 (key x) (key y) <> Gt.
Proof.
  unfold leb, SFleb. split.
  - intros H. assert (isnan x = false /\ isnan y = false) as [Hx Hy].
    { destruct x as [[]|[]| |[]], y as [[]|[]| |[]]; simpl in *; auto; discriminate. }
    rewrite (SFcompare_key _ _ Hx Hy) in H. repeat split; auto.
    destruct (lex3 (key x) (key y)); congruence.
  - intros (Hx & Hy & H). rewrite (SFcompare_key _ _ Hx Hy).
    destruct (lex3 (key x) (key y)); congruence.
Qed.

Lemma ltb_key (x y : float) :
  ltb x y = true <-> isnan x = false /\ isnan y = false /\ lex3 (key x) (key y) = Lt.
Proof.
  unfold ltb, SFltb. split.
  - intros H. assert (isnan x = false /\ isnan y = false) as [Hx Hy].
    { destruct x as [[]|[]| |[]], y as [[]|[]| |[]]; simpl in *; auto; discriminate. }
    rewrite (SFcompare_key _ _ Hx Hy) in H. repeat split; auto.
    destruct (lex3 (key x) (key y)); congruence.
  - intros (Hx & Hy & H). rewrite (SFcompare_key _ _ Hx Hy), H. reflexivity.
Qed.

Lemma leb_trans (x y z : float) : leb x y = true -> leb y z = true -> leb x z = true.
Proof.
  rewrite !leb_key. intros (? & ? & ?) (? & ? & ?). repeat split; auto.
  eapply lex3_trans; eauto.
Qed.

Lemma ltb_leb_trans (x y z : float) : ltb x y = true -> leb y z = true -> leb x z = true.
Proof.
  rewrite ltb_key, !leb_key. intros (? & ? & ?) (? & ? & ?). repeat split; auto.
  rewrite (lex3_lt_le_trans _ _ _ H1 H4). discriminate.
Qed.

Lemma leb_total (x y : float) :
  isnan x = false -> isnan y = false -> leb x y = true \/ ltb y x = true.
Proof.
  intros Hx Hy. rewrite leb_key, ltb_key, (lex3_antisym (key x) (key y)).
  destruct (lex3 (key x) (key y)) eqn:E; simpl; [left|left|right]; repeat split; auto; discriminate.
Qed.

Lemma leb_isnan_l (x y : float) : leb x y = true -> isnan x = false.
Proof. rewrite leb_key. tauto. Qed.
Lemma leb_isnan_r (x y : float) : leb x y = true -> isnan y = false.
Proof. rewrite leb_key. tauto. Qed.

(** Multiplication by the promoted mask. *)
Lemma digits2_pos_shift (m : positive) :
  Zpos (digits2_pos (m * 4503599627370496)) = Zpos (digits2_pos m) + 52.
Proof.
  rewrite Pos.mul_comm. simpl. rewrite Pos.mul_1_l, !Pos2Z.inj_succ. lia.
Qed.

Lemma shr_fexp_canonical (m : positive) (e : Z) :
  fexp prec emax (Z.pos (digits2_pos m) + e) = e ->
  shr_fexp prec emax (Z.pos m) e loc_Exact = (Build_shr_record (Z.pos m) false false, e).
Proof.
  intros Hc. unfold shr_fexp, Zdigits2. rewrite Hc, Z.sub_diag. reflexivity.
Qed.

Lemma shr_fexp_shifted (m : positive) (e : Z) :
  fexp prec emax (Z.pos (digits2_pos m) + e) = e ->
  shr_fexp prec emax (Z.pos (m * 4503599627370496)) (e + -52) loc_Exact
  = (Build_shr_record (Z.pos m) false false, e).
Proof.
  intros Hc. unfold shr_fexp, Zdigits2. rewrite digits2_pos_shift.
  replace (Z.pos (digits2_pos m) + 52 + (e + -52)) with (Z.pos (digits2_pos m) + e) by lia.
  rewrite Hc. replace (e - (e + -52)) with 52 by lia.
  unfold shr, shr_record_of_loc. rewrite Pos.mul_comm. simpl.
  rewrite Pos.mul_1_l. f_equal. lia.
Qed.

Lemma mul_one (x : float) : valid x -> mul x one = x.
Proof.
  destruct x as [s|s| |s m e]; simpl; intros Hv.
  - cbn. now rewrite xorb_false_r.
  - cbn. now rewrite xorb_false_r.
  - reflexivity.
  - unfold valid, valid_binary, bounded, canonical_mantissa in Hv.
    apply andb_true_iff in Hv as [Hc Hb]. apply Z.eqb_eq in Hc.
    unfold mul, one, SFmul, binary_round_aux. rewrite xorb_false_r.
    rewrite (shr_fexp_shifted m e Hc). cbn [shr_m loc_of_shr_record round_nearest_even].
    rewrite (shr_fexp_canonical m e Hc). cbn [shr_m]. rewrite Hb. reflexivity.
Qed.

Lemma mul_zero (x : float) :
  mul x zero = match x with
               | S754_zero s | S754_finite s _ _ => S754_zero s
               | _ => nan
               end.
Proof. destruct x as [s|s| |s m e]; cbn; rewrite ?xorb_false_r; reflexivity. Qed.

Lemma sub_self (x : float) : isfinite x = true -> iszero (sub x x) = true.
Proof.
  destruct x as [[]|s| |s m e]; simpl; try discriminate; intros _; try reflexivity.
  unfold sub, SFsub. rewrite Z.sub_diag. reflexivity.
Qed.
End Float64.

Lemma lex3_refl (a : Z * (Z * Z)) : lex3 a a = Eq.
Proof. destruct a as [a1 [a2 a3]]. unfold lex3; simpl. now rewrite !Z.compare_refl. Qed.

Lemma leb_refl (x : float) : isnan x = false -> leb x x = true.
Proof. intros Hx. apply leb_key. rewrite lex3_refl. repeat split; auto; discriminate. Qed.

Lemma isnan_true (x : float) : isnan x = true <-> x = nan.
Proof. unfold nan. destruct x; simpl; split; congruence. Qed.

Lemma geb_nan (t : float) : geb nan t = false.
Proof. destruct t as [[]|[]| |[] m e]; reflexivity. Qed.

Lemma geb_zero_positive (s : bool) (t : float) : ltb zero t = true -> geb (S754_zero s) t = false.
Proof. destruct t as [[]|[]| |[] m e]; simpl; auto; discriminate. Qed.

Lemma thresholds_nested (high low : float) :
  (forall x, geb x low = true -> geb x high = true)
  \/ (forall x, geb x high = true -> geb x low = true).
Proof.
  unfold geb. destruct (isnan low) eqn:Hl.
  { left. intros x Hx. apply leb_isnan_l in Hx. congruence. }
  destruct (isnan high) eqn:Hh.
  { right. intros x Hx. apply leb_isnan_l in Hx. congruence. }
  destruct (leb_total high low Hh Hl) as [H|H].
  - left. intros x Hx. eapply leb_trans; eauto.
  - right. intros x Hx. eapply ltb_leb_trans; eauto.
Qed.

(** The minimum that ignores NaN. *)
Lemma fmin_fold_spec (xs : list float) (x : float) :
  let m := foldl fmin x xs in
  m ∈ x :: xs /\ (forall v, v ∈ x :: xs -> isnan v = false -> leb m v = true).
Proof.
  revert x. induction xs as [|y xs IH] using rev_ind; intros x; simpl.
  - split; [left|]. intros v Hv Hn. apply list_elem_of_singleton in Hv as ->. now apply leb_refl.
  - rewrite foldl_app. simpl. destruct (IH x) as [Hin Hmin]. set (acc := foldl fmin x xs) in *.
    unfold fmin. destruct (leb acc y) eqn:Hle; simpl.
    { split.
      - rewrite app_comm_cons. apply elem_of_app. now left.
      - intros v Hv Hn. rewrite app_comm_cons in Hv. apply elem_of_app in Hv as [Hv|Hv]; auto.
        apply list_elem_of_singleton in Hv as ->. exact Hle. }
    destruct (isnan y) eqn:Hy.
    { split.
      - rewrite app_comm_cons. apply elem_of_app. now left.
      - intros v Hv Hn. rewrite app_comm_cons in Hv. apply elem_of_app in Hv as [Hv|Hv]; auto.
        apply list_elem_of_singleton in Hv as ->. congruence. }
    split.
    { rewrite app_comm_cons. apply elem_of_app. right. apply list_elem_of_singleton. reflexivity. }
    intros v Hv Hn. rewrite app_comm_cons in Hv. apply elem_of_app in Hv as [Hv|Hv].
    + specialize (Hmin v Hv Hn).
      destruct (leb_total acc y (leb_isnan_l _ _ Hmin) Hy) as [H|H]; [congruence|].
      eapply ltb_leb_trans; eauto.
    + apply list_elem_of_singleton in Hv as ->. now apply leb_refl.
Qed.

(** ** Slices *)

Section SliceFacts.
Context {T : Type}.
Implicit Types (a v s : list T).

Lemma but_last_drop a : but_last a ++ drop (length a - 1) a = a.
Proof. apply take_drop. Qed.

Lemma take_1_from_1 a : take 1 a ++ from_1 a = a.
Proof. apply take_drop. Qed.

Lemma length_ior (orT : T -> T -> T) v s : length (ior orT v s) = length v.
Proof.
  revert s; induction v as [|x v IH]; intros [|y s]; simpl; auto.
Qed.

Lemma length_upd_but_last (f : list T -> list T) a :
  (forall v, length (f v) = length v) -> length (upd_but_last f a) = length a.
Proof.
  intros Hf. unfold upd_but_last. rewrite length_app, Hf, <- length_app, but_last_drop.
  reflexivity.
Qed.

Lemma length_upd_from_1 (f : list T -> list T) a :
  (forall v, length (f v) = length v) -> length (upd_from_1 f a) = length a.
Proof.
  intros Hf. unfold upd_from_1. rewrite length_app, Hf, <- length_app, take_1_from_1.
  reflexivity.
Qed.

(** A property of all the entries survives the updates. *)
Lemma Forall_ior (P : T -> Prop) (orT : T -> T -> T) v s :
  (forall x y, P x -> P y -> P (orT x y)) ->
  Forall P v -> Forall P s -> Forall P (ior orT v s).
Proof.
  intros Hor Hv. revert s. induction Hv as [|x v Hx Hv IH]; intros s Hs; simpl; auto.
  destruct Hs as [|y s Hy Hs]; constructor; auto.
Qed.

Lemma Forall_but_last (P : T -> Prop) a : Forall P a -> Forall P (but_last a).
Proof. apply Forall_take. Qed.
Lemma Forall_from_1 (P : T -> Prop) a : Forall P a -> Forall P (from_1 a).
Proof. apply Forall_drop. Qed.

Lemma Forall_upd_but_last (P : T -> Prop) (f : list T -> list T) a :
  (forall v, Forall P v -> Forall P (f v)) -> Forall P a -> Forall P (upd_but_last f a).
Proof.
  intros Hf Ha. apply Forall_app. split.
  - apply Hf, Forall_but_last, Ha.
  - apply Forall_drop, Ha.
Qed.

Lemma Forall_upd_from_1 (P : T -> Prop) (f : list T -> list T) a :
  (forall v, Forall P v -> Forall P (f v)) -> Forall P a -> Forall P (upd_from_1 f a).
Proof.
  intros Hf Ha. apply Forall_app. split.
  - apply Forall_take, Ha.
  - apply Hf, Forall_from_1, Ha.
Qed.

(** Entrywise relations between two lists. *)
Variable R : T -> T -> Prop.

Lemma Forall2_but_last a b : Forall2 R a b -> Forall2 R (but_last a) (but_last b).
Proof.
  intros H. unfold but_last. rewrite <- (Forall2_length _ _ _ H). apply Forall2_take, H.
Qed.

Lemma Forall2_from_1 a b : Forall2 R a b -> Forall2 R (from_1 a) (from_1 b).
Proof. apply Forall2_drop. Qed.

Lemma Forall2_ior_extensive (orT : T -> T -> T) v s :
  (forall x, R x x) -> (forall x y, R x (orT x y)) -> Forall2 R v (ior orT v s).
Proof.
  intros Hrefl Hor. revert s; induction v as [|x v IH]; intros [|y s]; simpl;
    repeat constructor; auto.
  apply Forall2_same_length_lookup_2; [reflexivity|]. intros i a b ? ?. simplify_eq. apply Hrefl.
Qed.

Lemma Forall2_ior_monotone (orT : T -> T -> T) v v' s s' :
  (forall x x' y y', R x x' -> R y y' -> R (orT x y) (orT x' y')) ->
  Forall2 R v v' -> Forall2 R s s' -> Forall2 R (ior orT v s) (ior orT v' s').
Proof.
  intros Hor Hv. revert s s'. induction Hv as [|x x' v v' Hx Hv IH]; intros s s' Hs; simpl.
  - constructor.
  - destruct Hs as [|y y' s s' Hy Hs]; constructor; auto.
Qed.

Lemma Forall2_upd_but_last (f g : list T -> list T) a b :
  (forall v w, Forall2 R v w -> Forall2 R (f v) (g w)) ->
  Forall2 R a b -> Forall2 R (upd_but_last f a) (upd_but_last g b).
Proof.
  intros Hf Hab. unfold upd_but_last. apply Forall2_app.
  - apply Hf, Forall2_but_last, Hab.
  - rewrite <- (Forall2_length _ _ _ Hab). apply Forall2_drop, Hab.
Qed.

Lemma Forall2_upd_from_1 (f g : list T -> list T) a b :
  (forall v w, Forall2 R v w -> Forall2 R (f v) (g w)) ->
  Forall2 R a b -> Forall2 R (upd_from_1 f a) (upd_from_1 g b).
Proof.
  intros Hf Hab. unfold upd_from_1. apply Forall2_app.
  - apply Forall2_take, Hab.
  - apply Hf, Forall2_from_1, Hab.
Qed.

Lemma Forall2_upd_but_last_extensive (f : list T -> list T) a :
  (forall x, R x x) ->
  (forall v, Forall2 R v (f v)) -> Forall2 R a (upd_but_last f a).
Proof.
  intros Hrefl Hf. rewrite <- (but_last_drop a) at 1. apply Forall2_app; [apply Hf|].
  apply Forall2_same_length_lookup_2; [reflexivity|]. intros i x y ? ?. simplify_eq. apply Hrefl.
Qed.

Lemma Forall2_upd_from_1_extensive (f : list T -> list T) a :
  (forall x, R x x) ->
  (forall v, Forall2 R v (f v)) -> Forall2 R a (upd_from_1 f a).
Proof.
  intros Hrefl Hf. rewrite <- (take_1_from_1 a) at 1. apply Forall2_app; [|apply Hf].
  apply Forall2_same_length_lookup_2; [reflexivity|]. intros i x y ? ?. simplify_eq. apply Hrefl.
Qed.
End SliceFacts.

(** ** Grids, pixel by pixel *)

Section GridFacts.
Context {A B C : Type}.

Lemma get2_map (f : A -> B) (g : grid A) i j :
  get2 (map2 f g) i j = f <$> get2 g i j.
Proof.
  unfold get2, map2. rewrite list_lookup_fmap. destruct (g !! i) as [row|]; simpl; auto.
  apply list_lookup_fmap.
Qed.

Lemma get2_zip (f : A -> B -> C) (a : grid A) (b : grid B) i j :
  get2 (zip2 f a b) i j
  = match get2 a i j, get2 b i j with
    | Some x, Some y => Some (f x y)
    | _, _ => None
    end.
Proof.
  unfold get2, zip2. rewrite lookup_zip_with.
  destruct (a !! i) as [ra|]; simpl; auto.
  destruct (b !! i) as [rb|]; simpl.
  - rewrite lookup_zip_with. destruct (ra !! j), (rb !! j); reflexivity.
  - destruct (ra !! j); reflexivity.
Qed.

Lemma shape2_map (f : A -> B) (g : grid A) : shape2 (map2 f g) = shape2 g.
Proof.
  unfold shape2, map2. rewrite <- list_fmap_compose. apply list_fmap_ext.
  intros _ row _. simpl. apply length_fmap.
Qed.

Lemma shape2_zip (f : A -> B -> C) (a : grid A) (b : grid B) :
  shape2 a = shape2 b -> shape2 (zip2 f a b) = shape2 a.
Proof.
  unfold shape2, zip2. revert b; induction a as [|ra a IH]; intros [|rb b]; simpl; try discriminate; auto.
  intros [= Hl Hs]. f_equal; auto. rewrite length_zip_with. lia.
Qed.

Lemma get2_is_Some_shape (a : grid A) (b : grid B) i j :
  shape2 a = shape2 b -> is_Some (get2 a i j) -> is_Some (get2 b i j).
Proof.
  unfold shape2, get2. intros Hs.
  assert (length <$> a !! i = length <$> b !! i) as Hi
    by (rewrite <- !list_lookup_fmap; now f_equal).
  destruct (a !! i) as [ra|], (b !! i) as [rb|]; simpl in *; try discriminate;
    try (now intros []).
  injection Hi as Hi. intros H. apply lookup_lt_is_Some. apply lookup_lt_is_Some in H. lia.
Qed.
End GridFacts.

Lemma grid_ext {A : Type} (a b : grid A) :
  shape2 a = shape2 b -> (forall i j, get2 a i j = get2 b i j) -> a = b.
Proof.
  unfold shape2. revert b. induction a as [|ra a IH]; intros [|rb b]; simpl; try discriminate; auto.
  intros [= Hl Hs] Hget. f_equal.
  - apply list_eq. intros j. apply (Hget 0%nat j).
  - apply IH; auto. intros i j. apply (Hget (S i) j).
Qed.

Lemma Forall2_grid_shape {A B : Type} (R : A -> B -> Prop) (a : grid A) (b : grid B) :
  Forall2 (Forall2 R) a b -> shape2 a = shape2 b.
Proof.
  unfold shape2. induction 1 as [|ra rb a b Hr _ IH]; simpl; auto.
  f_equal; auto. eapply Forall2_length, Hr.
Qed.

Lemma Forall2_grid_get2 {A B : Type} (R : A -> B -> Prop) (a : grid A) (b : grid B) i j x :
  Forall2 (Forall2 R) a b -> get2 a i j = Some x ->
  exists y, get2 b i j = Some y /\ R x y.
Proof.
  unfold get2. intros H Hx. destruct (a !! i) as [ra|] eqn:Ha; [|discriminate].
  destruct (Forall2_lookup_l _ _ _ _ _ H Ha) as (rb & -> & Hr).
  destruct (Forall2_lookup_l _ _ _ _ _ Hr Hx) as (y & -> & Hy). eauto.
Qed.

Lemma Forall2_grid_intro {A B : Type} (R : A -> B -> Prop) (a : grid A) (b : grid B) :
  shape2 a = shape2 b ->
  (forall i j x y, get2 a i j = Some x -> get2 b i j = Some y -> R x y) ->
  Forall2 (Forall2 R) a b.
Proof.
  unfold shape2. revert b. induction a as [|ra a IH]; intros [|rb b]; csimpl; try discriminate.
  - constructor.
  - intros [= Hl Hs] H. constructor.
    + apply Forall2_same_length_lookup_2; [exact Hl|].
      intros j x y Hx Hy. apply (H 0%nat j); assumption.
    + apply IH; auto. intros i j. apply (H (S i) j).
Qed.

Lemma Forall2_grid_refl {A : Type} (R : A -> A -> Prop) (a : grid A) :
  (forall x, R x x) -> Forall2 (Forall2 R) a a.
Proof.
  intros Hrefl. apply Forall2_same_length_lookup_2; [reflexivity|]. intros i r r' ? ?. simplify_eq.
  apply Forall2_same_length_lookup_2; [reflexivity|]. intros j x y ? ?. simplify_eq. apply Hrefl.
Qed.

Lemma Forall2_grid_trans {A : Type} (R : A -> A -> Prop) (a b c : grid A) :
  (forall x y z, R x y -> R y z -> R x z) ->
  Forall2 (Forall2 R) a b -> Forall2 (Forall2 R) b c -> Forall2 (Forall2 R) a c.
Proof.
  intros Ht. apply Forall2_trans. intros r1 r2 r3. apply Forall2_trans, Ht.
Qed.

Lemma Forall2_grid_map {A B : Type} (R : B -> B -> Prop) (f g : A -> B) (a : grid A) :
  (forall x, R (f x) (g x)) -> Forall2 (Forall2 R) (map2 f a) (map2 g a).
Proof.
  intros H. unfold map2. apply Forall2_fmap, Forall2_same_length_lookup_2; [reflexivity|].
  intros i r r' ? ?. simplify_eq.
  apply Forall2_fmap, Forall2_same_length_lookup_2; [reflexivity|].
  intros j x y ? ?. simplify_eq. apply H.
Qed.

Lemma Forall2_fmap_self {A : Type} (R : A -> A -> Prop) (f : A -> A) (l : list A) :
  (forall x, R x (f x)) -> Forall2 R l (f <$> l).
Proof. intros H. induction l; csimpl; constructor; auto. Qed.

Lemma map2_id {A : Type} (g : grid A) : map2 (fun x => x) g = g.
Proof.
  unfold map2. induction g as [|r g IH]; csimpl; f_equal; auto.
  induction r; csimpl; f_equal; auto.
Qed.

Lemma map2_map2 {A B C : Type} (f : A -> B) (h : B -> C) (g : grid A) :
  map2 h (map2 f g) = map2 (fun x => h (f x)) g.
Proof.
  unfold map2. rewrite <- list_fmap_compose. apply list_fmap_ext. intros _ r _. simpl.
  now rewrite <- list_fmap_compose.
Qed.

Lemma get2_nan_mask (g : grid float) i j :
  get2 (map2 isnan g) i j = isnan <$> get2 g i j.
Proof. apply get2_map. Qed.

Lemma elem_of_concat_get2 {A : Type} (g : grid A) (x : A) :
  x ∈ concat g <-> exists i j, get2 g i j = Some x.
Proof.
  unfold get2. induction g as [|row g IH]; simpl.
  - split; [inversion 1|]. intros (i & j & H). discriminate.
  - rewrite elem_of_app, IH. split.
    + intros [H|(i & j & H)].
      * apply list_elem_of_lookup in H as [j Hj]. now exists 0%nat, j.
      * now exists (S i), j.
    + intros ([|i] & j & H); simpl in H.
      * left. eapply list_elem_of_lookup_2, H.
      * right. eauto.
Qed.

(** ** Shapes *)

Lemma has_shape_tmap {A B : Type} (f : A -> B) (n : nat) (sh : list nat) (t : tensor A n) :
  has_shape n sh t -> has_shape n sh (tmap f n t).
Proof.
  revert sh t. induction n as [|k IH]; intros [|d sh] t; simpl; auto.
  intros [Hl Hall]. split; [now rewrite length_fmap|].
  apply Forall_fmap. eapply Forall_impl; [exact Hall|]. intros x Hx. apply IH, Hx.
Qed.

Lemma has_shape_tzip {A B C : Type} (f : A -> B -> C) (n : nat) (sh : list nat)
    (a : tensor A n) (b : tensor B n) :
  has_shape n sh a -> has_shape n sh b -> has_shape n sh (tzip f n a b).
Proof.
  revert sh a b. induction n as [|k IH]; intros [|d sh] a b; simpl; auto.
  intros [Hla Ha] [Hlb Hb]. split.
  { rewrite length_zip_with. transitivity (Nat.min d d); [f_equal; assumption|apply Nat.min_id]. }
  clear Hla Hlb. revert b Hb. induction Ha as [|x a Hx Ha IHa]; intros b Hb; simpl.
  - constructor.
  - destruct Hb as [|y b Hy Hb]; constructor; auto.
Qed.

Lemma has_shape_rows {A : Type} (k : nat) (d1 d2 : nat) (sh : list nat)
    (g : tensor A (S (S k))) :
  has_shape (S (S k)) (d1 :: d2 :: sh) g
  <-> shape2 g = replicate d1 d2 /\ Forall (Forall (has_shape k sh)) g.
Proof.
  change (tensor A (S (S k))) with (list (list (tensor A k))) in g.
  cbn [has_shape]. unfold shape2. revert d1.
  induction g as [|r g IH]; intros d1; csimpl.
  - destruct d1; simpl; split.
    + intros _. split; constructor.
    + intros _. split; constructor.
    + intros [? _]. discriminate.
    + intros [? _]. discriminate.
  - destruct d1 as [|d1]; simpl.
    + split; intros [? _]; discriminate.
    + specialize (IH d1). split.
      * intros [Hl Hall]. inversion Hall as [|? ? [Hr Hc] Hg]; subst.
        destruct IH as [IH _]. destruct IH as [-> IH]; [split; [congruence|assumption]|].
        split; [reflexivity|]. constructor; auto.
      * intros [Hs Hall]. injection Hs as Hr Hs. inversion Hall as [|? ? Hc Hg]; subst.
        destruct IH as [_ IH]. destruct IH as [Hl IH]; [split; assumption|].
        split; [congruence|]. constructor; auto.
Qed.

(** Two grids with the same row lengths have the same shape. *)
Lemma has_shape_shape2 {A B : Type} (sh : list nat) (a : grid A) (b : grid B) :
  shape2 a = shape2 b -> has_shape 2 sh a -> has_shape 2 sh b.
Proof.
  destruct sh as [|d1 [|d2 sh]].
  - simpl; tauto.
  - intros Hs [Hl H]. destruct a as [|r a]; [|inversion H as [|? ? Hr _]; destruct Hr].
    destruct b; [|discriminate]. split; [exact Hl|constructor].
  - unfold shape2. revert b d1. induction a as [|r a IH]; intros [|r' b] d1 Hs; try discriminate.
    + intros [Hl _]. split; [exact Hl|constructor].
    + injection Hs as Hr Hs. intros [Hl Hall].
      inversion Hall as [|? ? [Hlen Hcells] Hrest]; subst.
      destruct (IH b (length a) Hs) as [Hlb Hb]; [split; [reflexivity|assumption]|].
      split; [simpl; now rewrite Hlb|]. constructor; [|exact Hb].
      split; [congruence|].
      destruct sh as [|d3 sh]; [apply Forall_forall; intros; exact I|].
      destruct r' as [|y r']; [constructor|].
      destruct r as [|x r]; [discriminate|]. inversion Hcells as [|? ? Hx _]. destruct Hx.
Qed.

(** ** Tailcut: dilation and masks *)

(** The example in the comment of lines 163-175. *)
Example dilate_as_in_the_source :
  Tailcut.dilate orb
    (Tailcut.mask_of_bits
       [[0; 0; 0; 0; 0; 0; 0; 0; 0];
        [0; 0; 0; 0; 0; 0; 0; 0; 0];
        [0; 0; 1; 0; 0; 0; 1; 0; 0];
        [0; 0; 0; 0; 0; 0; 0; 0; 0];
        [0; 0; 0; 0; 0; 0; 0; 0; 0]])
  = Tailcut.mask_of_bits
      [[0; 0; 0; 0; 0; 0; 0; 0; 0];
       [0; 1; 1; 1; 0; 1; 1; 1; 0];
       [0; 1; 1; 1; 0; 1; 1; 1; 0];
       [0; 1; 1; 1; 0; 1; 1; 1; 0];
       [0; 0; 0; 0; 0; 0; 0; 0; 0]].
Proof. reflexivity. Qed.

(** A mask on the border is dilated inwards only. *)
Example dilate_at_the_border :
  Tailcut.dilate orb (Tailcut.mask_of_bits [[1; 0; 0]; [0; 0; 0]; [0; 0; 0]])
  = Tailcut.mask_of_bits [[1; 1; 0]; [1; 1; 0]; [0; 0; 0]].
Proof. reflexivity. Qed.

Module TailcutFacts.
Import Tailcut.

Section Cells.
Context {C : Type} (orC : C -> C -> C).

Section Extensive.
Variable R : C -> C -> Prop.
Hypothesis R_refl : forall x, R x x.
Hypothesis R_trans : forall x y z, R x y -> R y z -> R x z.
Hypothesis R_or : forall x y, R x (orC x y).

Lemma Forall2_row_refl : forall r : list C, Forall2 R r r.
Proof.
  intros r. apply Forall2_same_length_lookup_2; [reflexivity|].
  intros j x y ? ?. simplify_eq. apply R_refl.
Qed.

Lemma Forall2_rows_or : forall (v s : list (list C)), Forall2 (Forall2 R) v (ior (ior orC) v s).
Proof.
  intros v s. apply Forall2_ior_extensive; auto using Forall2_row_refl.
  intros r r'. apply Forall2_ior_extensive; auto.
Qed.

(** Dilation only adds to the mask. *)
Lemma dilate_extensive (m : list (list C)) :
  Forall2 (Forall2 R) m (dilate orC m).
Proof.
  unfold dilate.
  set (d1 := upd_but_last _ m).
  set (d2 := upd_from_1 _ d1).
  set (d3 := fmap _ d2).
  assert (Forall2 (Forall2 R) m d1) as H1
    by (apply Forall2_upd_but_last_extensive; auto using Forall2_row_refl, Forall2_rows_or).
  assert (Forall2 (Forall2 R) d1 d2) as H2
    by (apply Forall2_upd_from_1_extensive; auto using Forall2_row_refl, Forall2_rows_or).
  assert (Forall2 (Forall2 R) d2 d3) as H3.
  { apply Forall2_fmap_self. intros row.
    apply Forall2_upd_but_last_extensive; auto.
    intros v. apply Forall2_ior_extensive; auto. }
  assert (Forall2 (Forall2 R) d3 (fmap (fun row =>
            upd_from_1 (fun v => ior orC v (but_last row)) row) d3)) as H4.
  { apply Forall2_fmap_self. intros row.
    apply Forall2_upd_from_1_extensive; auto.
    intros v. apply Forall2_ior_extensive; auto. }
  eauto using Forall2_grid_trans.
Qed.
End Extensive.

(** Dilation keeps every row length. *)
Lemma shape2_dilate (m : list (list C)) : shape2 (dilate orC m) = shape2 m.
Proof.
  symmetry. apply (Forall2_grid_shape (fun _ _ => True)).
  apply dilate_extensive; auto.
Qed.

(** Dilation is monotone. *)
Lemma dilate_monotone (R : C -> C -> Prop) (m m' : list (list C)) :
  (forall x x' y y', R x x' -> R y y' -> R (orC x y) (orC x' y')) ->
  Forall2 (Forall2 R) m m' -> Forall2 (Forall2 R) (dilate orC m) (dilate orC m').
Proof.
  intros Hor Hm. unfold dilate.
  assert (forall v v' s s' : list C, Forall2 R v v' -> Forall2 R s s' ->
            Forall2 R (ior orC v s) (ior orC v' s')) as Hrow
    by (intros; apply Forall2_ior_monotone; auto).
  apply Forall2_fmap, Forall2_impl with (P := Forall2 R).
  2:{ intros r r' Hr. apply Forall2_upd_from_1; auto.
      intros v w Hvw. apply Hrow; auto. now apply Forall2_but_last. }
  apply Forall2_fmap, Forall2_impl with (P := Forall2 R).
  2:{ intros r r' Hr. apply Forall2_upd_but_last; auto.
      intros v w Hvw. apply Hrow; auto. now apply Forall2_from_1. }
  apply Forall2_upd_from_1.
  { intros v w Hvw. apply Forall2_ior_monotone; auto. now apply Forall2_but_last. }
  apply Forall2_upd_but_last; auto.
  intros v w Hvw. apply Forall2_ior_monotone; auto. now apply Forall2_from_1.
Qed.

(** A property of every cell survives dilation. *)
Lemma dilate_Forall (P : C -> Prop) (m : list (list C)) :
  (forall x y, P x -> P y -> P (orC x y)) ->
  Forall (Forall P) m -> Forall (Forall P) (dilate orC m).
Proof.
  intros Hor Hm. unfold dilate.
  assert (forall v s : list C, Forall P v -> Forall P s -> Forall P (ior orC v s)) as Hrow
    by (intros; apply Forall_ior; auto).
  assert (forall v s : list (list C), Forall (Forall P) v -> Forall (Forall P) s ->
            Forall (Forall P) (ior (ior orC) v s)) as Hrows
    by (intros; apply Forall_ior; auto).
  apply Forall_fmap, Forall_fmap.
  eapply Forall_impl.
  { apply Forall_upd_from_1; [|apply Forall_upd_but_last; [|exact Hm]].
    - intros v Hv. apply Hrows; auto. now apply Forall_but_last.
    - intros v Hv. apply Hrows; auto. now apply Forall_from_1. }
  intros row Hrow'. simpl.
  apply Forall_upd_from_1.
  - intros v Hv. apply Hrow; auto. apply Forall_but_last.
    apply Forall_upd_but_last; auto. intros v' Hv'. apply Hrow; auto. now apply Forall_from_1.
  - apply Forall_upd_but_last; auto. intros v' Hv'. apply Hrow; auto. now apply Forall_from_1.
Qed.
End Cells.
End TailcutFacts.

Module TailcutShape.
Import Tailcut TailcutFacts.

Lemma has_shape_dilate (k : nat) (sh : list nat) (m : tensor bool (S (S k))) :
  has_shape (S (S k)) sh m -> has_shape (S (S k)) sh (dilate (tzip orb k) m).
Proof.
  destruct sh as [|d1 [|d2 sh]]; try (simpl; tauto).
  { change (tensor bool (S (S k))) with (list (list (tensor bool k))) in m.
    intros [Hl H]. destruct m as [|r m].
    - split; [exact Hl|constructor].
    - inversion H as [|? ? Hr _]; subst. destruct Hr. }
  rewrite !has_shape_rows. intros [Hs Hall]. split.
  - etransitivity; [apply (shape2_dilate (C:=tensor bool k))|exact Hs].
  - apply (dilate_Forall (C:=tensor bool k)); auto. intros x y. apply has_shape_tzip.
Qed.

(** Masking keeps the shape, from rank two on. *)
Lemma has_shape_clean (k : nat) (sh : list nat) (g : tensor float (S (S k)))
    (high low : float) :
  has_shape (S (S k)) sh g ->
  has_shape (S (S k)) sh (apply_mask (S (S k)) g (final_mask k g high low)).
Proof.
  intros Hsh. unfold apply_mask. apply has_shape_tzip; auto.
  unfold final_mask. apply has_shape_tzip.
  - apply has_shape_dilate, has_shape_tmap, Hsh.
  - apply has_shape_tmap, Hsh.
Qed.
End TailcutShape.

Module TailcutMasks.
Import Tailcut TailcutFacts.

Lemma ble_refl x : ble x x.
Proof. unfold ble; auto. Qed.
Lemma ble_trans x y z : ble x y -> ble y z -> ble x z.
Proof. unfold ble; auto. Qed.
Lemma ble_orb_l x y : ble x (x || y).
Proof. unfold ble. intros ->. reflexivity. Qed.
Lemma ble_orb x x' y y' : ble x x' -> ble y y' -> ble (x || y) (x' || y').
Proof. unfold ble. destruct x, y, x', y'; simpl; auto. Qed.

Lemma dilate_above (m : grid bool) : Forall2 (Forall2 ble) m (dilate orb m).
Proof.
  apply dilate_extensive; [apply ble_refl|apply ble_trans|apply ble_orb_l].
Qed.

Lemma dilate_ble (m m' : grid bool) :
  Forall2 (Forall2 ble) m m' -> Forall2 (Forall2 ble) (dilate orb m) (dilate orb m').
Proof. apply dilate_monotone. apply ble_orb. Qed.

(** A mask below the dilated mask is left as it is by the conjunction. *)
Lemma zip2_andb_absorb (low dilated : grid bool) :
  Forall2 (Forall2 ble) low dilated -> zip2 andb dilated low = low.
Proof.
  unfold zip2. induction 1 as [|r d low dilated Hr _ IH]; simpl; auto.
  f_equal; auto. clear IH.
  induction Hr as [|x y r d Hxy _ IH]; simpl; auto.
  f_equal; auto. destruct x, y; auto.
Qed.

Lemma tailcut_clean_image_2d (img : grid float) (high low : float) :
  clean_image (NdArray 2 img) high low = Ok (NdArray 2 (clean2 img high low)).
Proof. reflexivity. Qed.

Lemma final_mask2_eq (img : grid float) (high low : float) :
  final_mask2 img high low
  = zip2 andb (dilate orb (map2 (fun x => geb x high) img)) (map2 (fun x => geb x low) img).
Proof. reflexivity. Qed.

Lemma clean2_eq (img : grid float) (high low : float) :
  clean2 img high low = zip2 mul_mask img (final_mask2 img high low).
Proof. reflexivity. Qed.

Lemma shape2_final_mask2 (img : grid float) (high low : float) :
  shape2 (final_mask2 img high low) = shape2 img.
Proof.
  rewrite final_mask2_eq, shape2_zip; rewrite shape2_dilate, !shape2_map; reflexivity.
Qed.

Lemma shape2_clean2 (img : grid float) (high low : float) :
  shape2 (clean2 img high low) = shape2 img.
Proof. rewrite clean2_eq, shape2_zip; auto. now rewrite shape2_final_mask2. Qed.

(** When the low mask lies inside the high mask, only the low
    threshold counts. *)
Lemma final_mask2_low_inside (img : grid float) (high low : float) :
  (forall x, geb x low = true -> geb x high = true) ->
  final_mask2 img high low = map2 (fun x => geb x low) img.
Proof.
  intros H. rewrite final_mask2_eq. apply zip2_andb_absorb.
  eapply Forall2_grid_trans; [apply ble_trans| |apply dilate_above].
  apply Forall2_grid_map. intros x. exact (H x).
Qed.
End TailcutMasks.

(** ** Tailcut: cleaning twice *)

Module TailcutTwice.
Import Tailcut TailcutFacts TailcutMasks.

Section Twice.
Variables (img : grid float) (high low : float).
Hypothesis img_valid : Forall (Forall valid) img.

Lemma get2_valid i j x : get2 img i j = Some x -> valid x.
Proof.
  unfold get2. destruct (img !! i) as [row|] eqn:Hr; [|discriminate]. intros Hx.
  eapply Forall_lookup_1; [|exact Hx]. eapply Forall_lookup_1; [exact img_valid|exact Hr].
Qed.

(** The pixels of a cleaned image and of a final mask. *)
Lemma get2_clean2 (g : grid float) i j y :
  get2 (clean2 g high low) i j = Some y ->
  exists x b, get2 g i j = Some x /\ get2 (final_mask2 g high low) i j = Some b
              /\ y = mul_mask x b.
Proof.
  rewrite clean2_eq, get2_zip.
  destruct (get2 g i j) as [x|], (get2 (final_mask2 g high low) i j) as [b|];
    try discriminate.
  intros [= <-]. eauto.
Qed.

Lemma get2_final_mask2 (g : grid float) i j b :
  get2 (final_mask2 g high low) i j = Some b ->
  exists x d, get2 g i j = Some x
              /\ get2 (dilate orb (map2 (fun x => geb x high) g)) i j = Some d
              /\ b = d && geb x low.
Proof.
  rewrite final_mask2_eq, get2_zip, get2_map.
  destruct (get2 (dilate _ _) i j) as [d|], (get2 g i j) as [x|]; try discriminate.
  simpl. intros [= <-]. eauto.
Qed.

Lemma shape2_final_mask2_twice :
  shape2 (final_mask2 (clean2 img high low) high low) = shape2 img.
Proof. now rewrite shape2_final_mask2, shape2_clean2. Qed.

(** A kept pixel is unchanged. *)
Lemma clean2_kept i j x :
  get2 img i j = Some x -> get2 (final_mask2 img high low) i j = Some true ->
  get2 (clean2 img high low) i j = Some x.
Proof.
  intros Hx Hb. rewrite clean2_eq, get2_zip, Hx, Hb.
  unfold mul_mask. simpl. rewrite mul_one; eauto using get2_valid.
Qed.

(** The second mask covers the first. *)
Lemma final_mask2_grows :
  Forall2 (Forall2 ble) (final_mask2 img high low)
    (final_mask2 (clean2 img high low) high low).
Proof.
  apply Forall2_grid_intro; [now rewrite !shape2_final_mask2, ?shape2_clean2|].
  intros i j b b' Hb Hb' ->.
  destruct (get2_final_mask2 _ _ _ _ Hb) as (x & d & Hx & Hd & Hbd).
  symmetry in Hbd. apply andb_true_iff in Hbd as [-> Hxl].
  pose proof (clean2_kept _ _ _ Hx Hb) as Hout.
  destruct (get2_final_mask2 _ _ _ _ Hb') as (y & d' & Hy & Hd' & ->).
  rewrite Hout in Hy. injection Hy as <-. rewrite Hxl, andb_true_r.
  set (H := map2 (fun x => geb x high) img) in *.
  set (H' := map2 (fun x => geb x high) (clean2 img high low)) in *.
  (* the dilated high mask of the result covers the pixel *)
  assert (Forall2 (Forall2 ble) (dilate orb H) (dilate orb H')
          \/ (geb x high = true)) as [Hmono|Hxh].
  { destruct (thresholds_nested high low) as [Hin|Hin].
    - right. auto.
    - left. apply dilate_ble. apply Forall2_grid_intro.
      + unfold H, H'. now rewrite !shape2_map, shape2_clean2.
      + intros i' j' h h'. unfold H, H'. rewrite !get2_map.
        destruct (get2 img i' j') as [x'|] eqn:Hx'; [|discriminate].
        destruct (get2 (clean2 img high low) i' j') as [y'|] eqn:Hy'; [|discriminate].
        simpl. intros [= <-] [= <-] Hh.
        assert (get2 (final_mask2 img high low) i' j' = Some true) as HF.
        { rewrite final_mask2_eq, get2_zip, get2_map, Hx'. simpl. fold H.
          destruct (Forall2_grid_get2 ble H (dilate orb H) i' j' true (dilate_above H))
            as (d0 & Hd0e & Hd0).
          { unfold H. rewrite get2_map, Hx'. simpl. now rewrite Hh. }
          rewrite Hd0e, (Hd0 eq_refl), (Hin _ Hh). reflexivity. }
        rewrite (clean2_kept _ _ _ Hx' HF) in Hy'. injection Hy' as <-. exact Hh. }
  - destruct (Forall2_grid_get2 ble _ _ i j true Hmono Hd) as (d2 & Hd2 & Hle).
    rewrite Hd' in Hd2. injection Hd2 as <-. now apply Hle.
  - destruct (Forall2_grid_get2 ble H' (dilate orb H') i j true (dilate_above H'))
      as (d2 & Hd2 & Hle).
    { unfold H'. rewrite get2_map, Hout. simpl. now rewrite Hxh. }
    rewrite Hd' in Hd2. injection Hd2 as <-. now apply Hle.
Qed.

(** Cleaning the result again returns it. *)
Lemma clean2_twice : clean2 (clean2 img high low) high low = clean2 img high low.
Proof.
  apply grid_ext; [now rewrite shape2_clean2|].
  intros i j. rewrite (clean2_eq (clean2 img high low)), get2_zip.
  destruct (get2 (clean2 img high low) i j) as [y|] eqn:Hy.
  2:{ reflexivity. }
  destruct (get2_is_Some_shape (clean2 img high low)
              (final_mask2 (clean2 img high low) high low) i j) as [b' Hb'];
    [now rewrite ?shape2_final_mask2, !shape2_clean2|now rewrite Hy|].
  rewrite Hb'. f_equal.
  destruct (get2_clean2 _ _ _ _ Hy) as (x & b & Hx & Hb & ->).
  destruct b.
  - destruct (Forall2_grid_get2 ble _ _ i j true final_mask2_grows Hb) as (b2 & Hb2 & Hle).
    rewrite Hb' in Hb2. injection Hb2 as <-. rewrite (Hle eq_refl).
    unfold mul_mask. simpl. rewrite !(mul_one x); eauto using get2_valid.
  - unfold mul_mask. simpl. rewrite mul_zero.
    destruct x, b'; cbn; rewrite ?xorb_false_r; reflexivity.
Qed.

(** With a positive low threshold the mask is the same, too. *)
Lemma final_mask2_twice :
  ltb zero low = true ->
  final_mask2 (clean2 img high low) high low = final_mask2 img high low.
Proof.
  intros Hpos.
  apply grid_ext; [now rewrite !shape2_final_mask2, ?shape2_clean2|].
  intros i j.
  destruct (get2 (final_mask2 img high low) i j) as [b|] eqn:Hb.
  2:{ destruct (get2 (final_mask2 (clean2 img high low) high low) i j) eqn:Hb'; auto.
      destruct (get2_is_Some_shape (final_mask2 (clean2 img high low) high low)
                  (final_mask2 img high low) i j) as [b0 Hb2];
        [now rewrite !shape2_final_mask2, ?shape2_clean2|now rewrite Hb'|].
      congruence. }
  destruct (get2_is_Some_shape (final_mask2 img high low)
              (final_mask2 (clean2 img high low) high low) i j) as [b' Hb'];
    [now rewrite !shape2_final_mask2, ?shape2_clean2|now rewrite Hb|].
  rewrite Hb'. f_equal.
  destruct b.
  - destruct (Forall2_grid_get2 ble _ _ i j true final_mask2_grows Hb) as (b2 & Hb2 & Hle).
    rewrite Hb' in Hb2. injection Hb2 as <-. now apply Hle.
  - destruct (get2_final_mask2 _ _ _ _ Hb') as (y & d' & Hy & _ & ->).
    destruct (get2_clean2 _ _ _ _ Hy) as (x & b & Hx & Hb2 & ->).
    rewrite Hb in Hb2. injection Hb2 as <-.
    unfold mul_mask. simpl. rewrite mul_zero.
    destruct x; rewrite ?geb_zero_positive, ?geb_nan by assumption;
      rewrite ?andb_false_r; reflexivity.
Qed.
End Twice.
End TailcutTwice.

(** ** The wrapper, step by step *)

Module CorrectionOffset.
Import WaveletTransform.

Lemma apply_correction_offset_eq (g : grid float) (m : float) :
  nanmin g = Ok m ->
  apply_correction_offset g = Ok (map2 floor_pixel (map2 (fun x => sub x m) g)).
Proof. unfold apply_correction_offset. intros ->. reflexivity. Qed.

Lemma floor_pixel_finite (z : float) :
  isfinite (floor_pixel z) = true ->
  leb zero (floor_pixel z) = true
  /\ (ltb zero (floor_pixel z) = true -> ltb (floor_pixel z) one = true -> False).
Proof.
  unfold floor_pixel. destruct (isfinite z && ltb z one) eqn:E.
  - intros _. split; [reflexivity|discriminate].
  - intros Hf. rewrite Hf in E. simpl in E. split; [|congruence].
    destruct z as [[]|[]| |[] m e]; try discriminate; reflexivity.
Qed.

Lemma nanmin_finite (g : grid float) :
  (exists i j x, get2 g i j = Some x /\ isfinite x = true) ->
  (forall i j, get2 g i j <> Some ninf) ->
  exists m i j, nanmin g = Ok m /\ get2 g i j = Some m /\ isfinite m = true.
Proof.
  intros (i0 & j0 & v & Hv & Hfin) Hninf. unfold nanmin.
  assert (v ∈ concat g) as Hin by (apply elem_of_concat_get2; eauto).
  destruct (concat g) as [|x xs] eqn:Hc; [inversion Hin|].
  destruct (fmin_fold_spec xs x) as [Hm Hmin]. set (m := foldl fmin x xs) in *.
  rewrite <- Hc in Hm. apply elem_of_concat_get2 in Hm as (i & j & Hij).
  exists m, i, j. repeat split; auto.
  assert (leb m v = true) as Hle.
  { apply Hmin; [exact Hin|]. destruct v; try discriminate; reflexivity. }
  clearbody m. destruct m as [s|[]| |s mm e]; auto.
  - destruct (Hninf i j Hij).
  - destruct v as [[]|[]| |[]]; discriminate.
Qed.
End CorrectionOffset.

Module WaveletFacts.
Import WaveletTransform.

(** *** Restoring the NaN pixels *)

Lemma set_nan_ok (c : grid float) (mask : grid bool) (out : grid float) :
  set_nan c mask = Ok out ->
  shape2 mask = shape2 c
  /\ out = zip2 restore_pixel c mask.
Proof.
  unfold set_nan. case_bool_decide; [|discriminate]. intros [= <-]. auto.
Qed.

Lemma set_nan_same_shape (c : grid float) (mask : grid bool) :
  shape2 mask = shape2 c ->
  set_nan c mask = Ok (zip2 restore_pixel c mask).
Proof. intros H. unfold set_nan. now rewrite bool_decide_eq_true_2. Qed.

Lemma set_nan_raises (c : grid float) (mask : grid bool) (e : exn) :
  set_nan c mask = Raise e -> e = IndexError.
Proof. unfold set_nan. case_bool_decide; congruence. Qed.

(** *** The correction offset *)

Lemma nanmin_raises (g : grid float) (e : exn) : nanmin g = Raise e -> e = ValueError.
Proof. unfold nanmin. destruct (concat g); congruence. Qed.

Lemma apply_correction_offset_ok (g out : grid float) :
  apply_correction_offset g = Ok out ->
  exists m, out = map2 floor_pixel (map2 (fun x => sub x m) g).
Proof.
  unfold apply_correction_offset. destruct (nanmin g) as [m|]; [|discriminate].
  intros [= <-]. eauto.
Qed.

Lemma apply_correction_offset_raises (g : grid float) (e : exn) :
  apply_correction_offset g = Raise e -> e = ValueError.
Proof.
  unfold apply_correction_offset. destruct (nanmin g) eqn:E; [discriminate|].
  intros [= <-]. eapply nanmin_raises, E.
Qed.

Lemma apply_correction_offset_total (g : grid float) i j x :
  get2 g i j = Some x -> exists out, apply_correction_offset g = Ok out.
Proof.
  intros H. unfold apply_correction_offset, nanmin.
  assert (x ∈ concat g) as Hin by (apply elem_of_concat_get2; eauto).
  destruct (concat g); [inversion Hin|]. eauto.
Qed.

(** *** Filling the masked pixels *)

Lemma put_row_spec (row : list float) (mask : list bool) (vals : list float) :
  length (put_row row mask vals).1 = length row
  /\ forall j, mask !! j = Some false -> (put_row row mask vals).1 !! j = row !! j.
Proof.
  revert mask vals. induction row as [|x row IH]; intros [|b mask] vals; simpl; auto.
  destruct b, vals as [|v vals]; simpl.
  - destruct (put_row row mask []) as [r rest] eqn:E. simpl.
    specialize (IH mask []). rewrite E in IH. destruct IH as [IHl IHj]. split; [simpl in *; lia|].
    intros [|j]; simpl; auto; discriminate.
  - destruct (put_row row mask vals) as [r rest] eqn:E. simpl.
    specialize (IH mask vals). rewrite E in IH. destruct IH as [IHl IHj]. split; [simpl in *; lia|].
    intros [|j]; simpl; auto; discriminate.
  - destruct (put_row row mask []) as [r rest] eqn:E. simpl.
    specialize (IH mask []). rewrite E in IH. destruct IH as [IHl IHj]. split; [simpl in *; lia|].
    intros [|j]; simpl; auto.
  - destruct (put_row row mask (v :: vals)) as [r rest] eqn:E. simpl.
    specialize (IH mask (v :: vals)). rewrite E in IH. destruct IH as [IHl IHj].
    split; [simpl in *; lia|]. intros [|j]; simpl; auto.
Qed.

Lemma put_rows_spec (img : grid float) (mask : grid bool) (vals : list float) :
  shape2 (put_rows img mask vals) = shape2 img
  /\ forall i j, get2 mask i j = Some false ->
                 get2 (put_rows img mask vals) i j = get2 img i j.
Proof.
  unfold shape2, get2. revert mask vals.
  induction img as [|row img IH]; intros [|m mask] vals; simpl; auto.
  destruct (put_row row m vals) as [r rest] eqn:E.
  destruct (put_row_spec row m vals) as [Hl Hj]. rewrite E in Hl, Hj. simpl in Hl, Hj.
  destruct (IH mask rest) as [IHs IHg]. split.
  - csimpl. now rewrite Hl, IHs.
  - intros [|i] j; simpl; auto.
Qed.

Lemma assign_masked_spec (img : grid float) (mask : grid bool) (vals : list float)
    (out : grid float) :
  assign_masked img mask vals = Ok out ->
  shape2 out = shape2 img
  /\ forall i j, get2 mask i j = Some false -> get2 out i j = get2 img i j.
Proof.
  unfold assign_masked. destruct (_ =? _)%nat.
  - intros [= <-]. apply put_rows_spec.
  - destruct vals as [|v [|? ?]]; try discriminate. intros [= <-]. apply put_rows_spec.
Qed.

Lemma assign_masked_raises (img : grid float) (mask : grid bool) (vals : list float) e :
  assign_masked img mask vals = Raise e -> e = ValueError.
Proof.
  unfold assign_masked. destruct (_ =? _)%nat; [discriminate|].
  destruct vals as [|v [|? ?]]; congruence.
Qed.

Lemma assign_masked_total (img : grid float) (mask : grid bool) (vals : list float) :
  length vals = count_nonzero mask -> exists out, assign_masked img mask vals = Ok out.
Proof.
  intros H. unfold assign_masked. rewrite H, Nat.eqb_refl. eauto.
Qed.
End WaveletFacts.

Module WaveletRun.
Import WaveletTransform WaveletFacts.

Section Libm.
Variable lg : positive -> Z -> float.
Variable pw10 pw2 : float -> float.

Abbreviation prepare := (WaveletTransform.prepare lg).

Lemma change_scale_eq (scale : string) (img : grid float) :
  change_scale lg scale img = map2 (scale_pixel lg scale) img.
Proof.
  unfold change_scale, scale_pixel.
  destruct (String.eqb scale "log"); auto.
  destruct (String.eqb scale "sqrt"); auto. now rewrite map2_id.
Qed.

Lemma invert_scale_eq (scale : string) (img : grid float) :
  invert_scale pw10 pw2 scale img = map2 (unscale_pixel pw10 pw2 scale) img.
Proof.
  unfold invert_scale, unscale_pixel.
  destruct (String.eqb scale "log"); auto.
  destruct (String.eqb scale "sqrt"); auto. now rewrite map2_id.
Qed.

Lemma unscale_pixel_nan scale : unscale_pixel pw10 pw2 scale nan = nan.
Proof.
  unfold unscale_pixel. destruct (String.eqb scale "log"); auto.
  destruct (String.eqb scale "sqrt"); auto.
Qed.

Lemma unoffset_pixel_nan p : unoffset_pixel p nan = nan.
Proof.
  unfold unoffset_pixel. destruct (offset_after_calibration p); auto.
  destruct (negb _); auto.
Qed.

(** What is written to the input file. *)
Lemma prepare_ok (p : params) (g : grid float) (mask : grid bool) (img : grid float) :
  WaveletTransform.prepare lg p g mask = Ok img ->
  shape2 img = shape2 g
  /\ forall i j, get2 mask i j = Some false ->
       get2 img i j
       = (fun x => scale_pixel lg (input_image_scale p) (offset_pixel p x)) <$> get2 g i j.
Proof.
  unfold WaveletTransform.prepare. intros H.
  assert (exists g1, Ok img = Ok (change_scale lg (input_image_scale p)
                      (map2 (offset_pixel p) g1))
            /\ shape2 g1 = shape2 g
            /\ forall i j, get2 mask i j = Some false -> get2 g1 i j = get2 g i j)
    as (g1 & E & Hs & Hg).
  { destruct (noise_distribution p) as [rvs|].
    - destruct (assign_masked _ _ _) as [g1|] eqn:E; [|discriminate].
      apply assign_masked_spec in E as [Hs Hg]. exists g1. rewrite <- H.
      split; auto. unfold offset_pixel. destruct (offset_after_calibration p); auto.
      now rewrite map2_id.
    - exists g. rewrite <- H. split; auto. unfold offset_pixel.
      destruct (offset_after_calibration p); auto. now rewrite map2_id. }
  injection E as ->. rewrite change_scale_eq, map2_map2. split.
  - now rewrite shape2_map.
  - intros i j Hm. now rewrite get2_map, Hg.
Qed.

Lemma prepare_raises (p : params) (g : grid float) (mask : grid bool) (e : exn) :
  WaveletTransform.prepare lg p g mask = Raise e -> e = ValueError.
Proof.
  unfold WaveletTransform.prepare. destruct (noise_distribution p) as [rvs|]; [|discriminate].
  destruct (assign_masked _ _ _) eqn:E; [discriminate|]. intros [= <-].
  eapply assign_masked_raises, E.
Qed.

Lemma prepare_total (p : params) (g : grid float) (mask : grid bool) :
  noise_ok p -> exists img, WaveletTransform.prepare lg p g mask = Ok img.
Proof.
  unfold noise_ok, WaveletTransform.prepare. destruct (noise_distribution p) as [rvs|]; eauto.
  intros H. destruct (assign_masked_total g mask (rvs (count_nonzero mask)) (H _)) as [g1 ->].
  eauto.
Qed.


Lemma finish_ok (env : environment) (p : params) (c : grid float) (mask : grid bool)
    (out : grid float) :
  WaveletTransform.finish pw10 pw2 env p c mask = Ok out ->
  shape2 mask = shape2 c
  /\ exists m, (correction_offset p = false -> m = None)
       /\ let img := map2 (post_pixel pw10 pw2 p m) (zip2 restore_pixel c mask) in
          out = if kill_isolated_pixels p then scipy_kill_isolated_pixels env img else img.
Proof.
  unfold WaveletTransform.finish.
  destruct (set_nan c mask) as [c1|] eqn:E1; [|discriminate].
  apply set_nan_ok in E1 as [Hs ->]. fold restore_pixel.
  rewrite invert_scale_eq.
  set (c2 := map2 _ _).
  assert ((match offset_after_calibration p with
           | Some o => if negb (suppress_last_scale p)
                       then map2 (fun x => sub x o) c2 else c2
           | None => c2
           end) = map2 (unoffset_pixel p) c2) as ->.
  { unfold unoffset_pixel. destruct (offset_after_calibration p); [|now rewrite map2_id].
    destruct (negb _); auto. now rewrite map2_id. }
  destruct (correction_offset p).
  - destruct (apply_correction_offset _) as [c4|] eqn:E4; [|discriminate].
    apply apply_correction_offset_ok in E4 as [m ->]. intros [= <-]. split; auto.
    exists (Some m). split; [discriminate|]. simpl. unfold c2.
    now rewrite !map2_map2.
  - intros [= <-]. split; auto. exists None. split; auto. simpl. unfold c2.
    now rewrite !map2_map2.
Qed.

Lemma finish_raises (env : environment) (p : params) (c : grid float) (mask : grid bool)
    (e : exn) :
  WaveletTransform.finish pw10 pw2 env p c mask = Raise e -> e = IndexError \/ e = ValueError.
Proof.
  unfold WaveletTransform.finish.
  destruct (set_nan c mask) as [c1|] eqn:E1.
  2:{ intros [= <-]. left. eapply set_nan_raises, E1. }
  destruct (correction_offset p); [|discriminate].
  destruct (apply_correction_offset _) eqn:E4; [discriminate|].
  intros [= <-]. right. eapply apply_correction_offset_raises, E4.
Qed.

Lemma finish_total (env : environment) (p : params) (c : grid float) (mask : grid bool) :
  shape2 mask = shape2 c ->
  (correction_offset p = true -> exists i j x, get2 c i j = Some x) ->
  exists out, WaveletTransform.finish pw10 pw2 env p c mask = Ok out.
Proof.
  intros Hs Hx. unfold WaveletTransform.finish. rewrite (set_nan_same_shape _ _ Hs).
  destruct (correction_offset p); eauto.
  destruct (Hx eq_refl) as (i & j & x & Hij).
  set (c1 := zip2 _ c mask).
  assert (is_Some (get2 c1 i j)) as Hy.
  { apply (get2_is_Some_shape c); [|now rewrite Hij]. unfold c1. symmetry.
    apply shape2_zip. auto. }
  assert (forall (F : float -> float) (a : grid float),
             is_Some (get2 a i j) -> is_Some (get2 (map2 F a) i j)) as Hmap
    by (intros F a [z Hz]; rewrite get2_map, Hz; simpl; eauto).
  assert (is_Some (get2 (invert_scale pw10 pw2 (input_image_scale p) c1) i j)) as Hc2
    by (rewrite invert_scale_eq; auto).
  set (c2 := invert_scale _ _ _ _) in *.
  set (c3 := match offset_after_calibration p with Some _ => _ | None => _ end).
  assert (is_Some (get2 c3 i j)) as [z Hz].
  { unfold c3. destruct (offset_after_calibration p); [destruct (negb _)|]; auto. }
  destruct (apply_correction_offset_total c3 i j z Hz) as [out ->]. eauto.
Qed.

(** The call on a two-dimensional array, file operation by file operation. *)
Lemma wavelet_clean_image_2d (env : environment) (p : params) (g : grid float) (fs : filesystem) :
  WaveletTransform.clean_image lg pw10 pw2 env p (NdArray 2 g) fs
  = match WaveletTransform.prepare lg p g (map2 isnan g) with
    | Raise e => (fs, Raise e)
    | Ok img =>
        if writable env (input_file_path p) then
          let fs2 := mr_filter env (<[input_file_path p := Fits (NdArray 2 img)]> fs) in
          match fs2 !! mr_output_file_path p with
          | Some (Fits cleaned_img) =>
              match fs2 !! input_file_path p with
              | Some _ =>
                  match delete (input_file_path p) fs2 !! mr_output_file_path p with
                  | Some _ =>
                      (delete (mr_output_file_path p) (delete (input_file_path p) fs2),
                       conclude pw10 pw2 env p cleaned_img (map2 isnan g))
                  | None => (delete (input_file_path p) fs2, Raise FileNotFoundError)
                  end
              | None => (fs2, Raise FileNotFoundError)
              end
          | _ => (fs2, Raise OSError)
          end
        else (fs, Raise OSError)
    end.
Proof.
  unfold WaveletTransform.clean_image, bind, lift, images_save, os_system, images_load,
    os_remove, ret, raise.
  destruct (WaveletTransform.prepare lg p g (map2 isnan g)) as [img|e]; [|reflexivity].
  destruct (writable env (input_file_path p)); [|reflexivity].
  cbv zeta.
  destruct (mr_filter env _ !! mr_output_file_path p) as [[cleaned|]|]; try reflexivity.
  destruct (mr_filter env _ !! input_file_path p); [|reflexivity].
  destruct (delete _ _ !! mr_output_file_path p); [|reflexivity].
  unfold conclude. destruct cleaned as [[|[|[|n]]] c]; try reflexivity.
  destruct (WaveletTransform.finish pw10 pw2 env p c (map2 isnan g)); reflexivity.
Qed.

(** With a stand-in for the external program that writes [f] of the
    grid it reads. *)
Lemma clean_image_mock (env : environment) (p : params) (f : grid float -> grid float)
    (g : grid float) (fs : filesystem) :
  writable env (input_file_path p) = true ->
  mr_filter env
  = mock_mr_filter (on_grid f) (input_file_path p) (mr_output_file_path p) ->
  input_file_path p <> mr_output_file_path p ->
  WaveletTransform.clean_image lg pw10 pw2 env p (NdArray 2 g) fs
  = match WaveletTransform.prepare lg p g (map2 isnan g) with
    | Raise e => (fs, Raise e)
    | Ok img =>
        (delete (mr_output_file_path p) (delete (input_file_path p)
           (<[mr_output_file_path p := Fits (NdArray 2 (f img))]>
              (<[input_file_path p := Fits (NdArray 2 img)]> fs))),
         match WaveletTransform.finish pw10 pw2 env p (f img) (map2 isnan g) with
         | Ok out => Ok (NdArray 2 out)
         | Raise e => Raise e
         end)
    end.
Proof.
  intros Hw Hm Hne. rewrite wavelet_clean_image_2d.
  destruct (WaveletTransform.prepare lg p g (map2 isnan g)) as [img|e]; [|reflexivity].
  rewrite Hw, Hm. unfold mock_mr_filter. cbv zeta.
  rewrite lookup_insert_eq. cbn [on_grid].
  rewrite lookup_insert_eq, lookup_insert_ne, lookup_insert_eq by congruence.
  rewrite lookup_delete_ne, lookup_insert_eq by congruence.
  reflexivity.
Qed.

Lemma clean_image_not_2d (env : environment) (p : params) (a : ndarray float)
    (fs : filesystem) :
  ndim a <> 2%nat -> WaveletTransform.clean_image lg pw10 pw2 env p a fs = (fs, Raise WrongDimensionError).
Proof. destruct a as [[|[|[|n]]] t]; simpl; intros H; try reflexivity; congruence. Qed.
End Libm.
End WaveletRun.

Module WaveletMock.
Import WaveletTransform WaveletFacts WaveletRun.

Section Libm.
Variable lg : positive -> Z -> float.
Variable pw10 pw2 : float -> float.





Lemma power10_log10_nan : power10_log10 lg pw10 nan = nan.
Proof. reflexivity. Qed.


Lemma power10_log10_pinf : power10_log10 lg pw10 pinf = pinf.
Proof. reflexivity. Qed.
End Libm.
End WaveletMock.

(** * Part III: the claims *)

Import Tailcut TailcutMasks.
Import WaveletTransform WaveletFacts WaveletRun WaveletMock CorrectionOffset.

(** ** Tailcut *)

(** C4, as stated, fails: a NaN pixel is outside every mask and stays NaN,
    since [nan * 0.0] is NaN. *)
Lemma tailcut_excluded_nan_stays_nan :
  ~ (forall (img : grid float) (high low : float) (i j : nat) (y : float),
       get2 (final_mask2 img high low) i j = Some false ->
       get2 (clean2 img high low) i j = Some y ->
       iszero y = true).
Proof.
  intros H.
  specialize (H [[nan; of_Z 20]] (of_Z 10) (of_Z 5) 0%nat 0%nat nan eq_refl eq_refl).
  discriminate H.
Qed.

(** C4, amended.  A pixel that the final mask excludes is multiplied by
    [0.0]: it becomes a zero when it is finite, and NaN when it is NaN or
    infinite. *)
Theorem tailcut_excluded_pixel (img : grid float) (high low : float) (i j : nat) (x : float) :
  get2 img i j = Some x ->
  get2 (final_mask2 img high low) i j = Some false ->
  Tailcut.clean_image (NdArray 2 img) high low = Ok (NdArray 2 (clean2 img high low))
  /\ exists y, get2 (clean2 img high low) i j = Some y
               /\ (isfinite x = true -> iszero y = true)
               /\ (isfinite x = false -> y = nan).
Proof.
  intros Hx Hm. split; [reflexivity|].
  exists (mul x zero). rewrite clean2_eq, get2_zip, Hx, Hm.
  split; [reflexivity|]. rewrite mul_zero.
  destruct x; simpl; split; auto; discriminate.
Qed.

Lemma tailcut_excluded_pixel_witness :
  Tailcut.clean_image (NdArray 2 [[of_Z (-3); ninf; of_Z 20]]) (of_Z 10) (of_Z 5)
  = Ok (NdArray 2 (clean2 [[of_Z (-3); ninf; of_Z 20]] (of_Z 10) (of_Z 5)))
  /\ exists y, get2 (clean2 [[of_Z (-3); ninf; of_Z 20]] (of_Z 10) (of_Z 5)) 0 0 = Some y
               /\ (isfinite (of_Z (-3)) = true -> iszero y = true)
               /\ (isfinite (of_Z (-3)) = false -> y = nan).
Proof.
  apply (tailcut_excluded_pixel [[of_Z (-3); ninf; of_Z 20]] (of_Z 10) (of_Z 5) 0 0 (of_Z (-3)));
    reflexivity.
Defined.

(** C5.  With [high_threshold = low_threshold = t], Tailcut returns
    [image * (image >= t)]: the high mask lies inside its own dilation and
    is the low mask, so dilation changes nothing. *)
Theorem tailcut_equal_thresholds (img : grid float) (t : float) :
  Tailcut.clean_image (NdArray 2 img) t t = Ok (NdArray 2 (threshold_filter img t)).
Proof.
  rewrite tailcut_clean_image_2d, clean2_eq, final_mask2_low_inside by auto. reflexivity.
Qed.

(** C6, as stated, fails: with a low threshold that is not positive the
    zeros of the cleaned image pass it, and the second mask is larger. *)
Lemma tailcut_mask_not_idempotent :
  Tailcut.final_mask2 (Tailcut.clean2 [[of_Z 5; of_Z (-3)]] zero zero) zero zero
  <> Tailcut.final_mask2 [[of_Z 5; of_Z (-3)]] zero zero.
Proof. vm_compute. discriminate. Qed.

(** C6, amended.  Cleaning a cleaned image again with the same thresholds
    returns the same image; the final mask is the same as well when the low
    threshold is positive. *)
Theorem tailcut_idempotent (img : grid float) (high low : float) :
  Forall (Forall valid) img ->
  Tailcut.clean_image (NdArray 2 (Tailcut.clean2 img high low)) high low
  = Tailcut.clean_image (NdArray 2 img) high low
  /\ (ltb zero low = true ->
      Tailcut.final_mask2 (Tailcut.clean2 img high low) high low
      = Tailcut.final_mask2 img high low).
Proof.
  intros Hv. split.
  - rewrite !TailcutMasks.tailcut_clean_image_2d. now rewrite TailcutTwice.clean2_twice.
  - now apply TailcutTwice.final_mask2_twice.
Qed.

Lemma tailcut_idempotent_witness :
  Tailcut.clean_image (NdArray 2 (Tailcut.clean2 shower (of_Z 10) (of_Z 5))) (of_Z 10) (of_Z 5)
  = Tailcut.clean_image (NdArray 2 shower) (of_Z 10) (of_Z 5)
  /\ (ltb zero (of_Z 5) = true ->
      Tailcut.final_mask2 (Tailcut.clean2 shower (of_Z 10) (of_Z 5)) (of_Z 10) (of_Z 5)
      = Tailcut.final_mask2 shower (of_Z 10) (of_Z 5)).
Proof.
  apply tailcut_idempotent. unfold shower, valid. repeat constructor.
Defined.

(** C7.  With [low_threshold > high_threshold], Tailcut returns
    [image * (image >= low_threshold)]: the low mask lies inside the high
    mask, hence inside its dilation. *)
Theorem tailcut_low_above_high (img : grid float) (high low : float) :
  ltb high low = true ->
  Tailcut.clean_image (NdArray 2 img) high low = Ok (NdArray 2 (threshold_filter img low)).
Proof.
  intros Hlt. rewrite tailcut_clean_image_2d, clean2_eq, final_mask2_low_inside; [reflexivity|].
  intros x Hx. unfold geb in *. eapply ltb_leb_trans; eauto.
Qed.

Lemma tailcut_low_above_high_witness :
  ltb (of_Z 2) (of_Z 5) = true /\
  Tailcut.clean_image (NdArray 2 [[of_Z 7; of_Z 3]; [of_Z 1; of_Z 5]]) (of_Z 2) (of_Z 5)
  = Ok (NdArray 2 (threshold_filter [[of_Z 7; of_Z 3]; [of_Z 1; of_Z 5]] (of_Z 5))).
Proof.
  split; [reflexivity|]. apply tailcut_low_above_high. reflexivity.
Defined.

(** C10, as stated, fails: a one-dimensional array cannot be indexed with
    two subscripts. *)
Lemma tailcut_rank_1_raises :
  Tailcut.clean_image (NdArray 1 [of_Z 20; of_Z 7; of_Z 1]) (of_Z 10) (of_Z 5)
  = Raise IndexError.
Proof. reflexivity. Qed.

(** C10, amended.  Tailcut validates nothing; it returns an array of the
    shape of its input for every array of two or more dimensions, and raises
    IndexError below that. *)
Theorem tailcut_total_from_rank_2 (n : nat) (sh : list nat) (t : tensor float n)
    (high low : float) :
  has_shape n sh t ->
  match n with
  | O | S O => Tailcut.clean_image (NdArray n t) high low = Raise IndexError
  | _ => exists out, Tailcut.clean_image (NdArray n t) high low = Ok (NdArray n out)
                     /\ has_shape n sh out
  end.
Proof.
  intros Hsh. destruct n as [|[|k]]; try reflexivity.
  eexists. split; [reflexivity|]. now apply TailcutShape.has_shape_clean.
Qed.

Lemma tailcut_total_from_rank_2_witness :
  exists out, Tailcut.clean_image (NdArray 3 cube) (of_Z 10) (of_Z 5) = Ok (NdArray 3 out)
              /\ has_shape 3 [2; 2; 2]%nat out.
Proof.
  apply (tailcut_total_from_rank_2 3 [2; 2; 2]%nat cube (of_Z 10) (of_Z 5)).
  simpl. repeat constructor.
Defined.

(** ** The mr_filter wrapper *)


Section Restore.
Variable lg : positive -> Z -> float.
Variable pw10 pw2 : float -> float.

End Restore.


(** C3, as stated, fails: when the external program writes no output
    file, reading it raises and the input file is still there. *)
Lemma temp_input_file_left_behind :
  ~ (forall lg pw10 pw2 env p img fs fs' r,
       fs !! input_file_path p = None ->
       fs !! mr_output_file_path p = None ->
       WaveletTransform.clean_image lg pw10 pw2 env p img fs = (fs', r) ->
       fs' !! input_file_path p = None /\ fs' !! mr_output_file_path p = None).
Proof.
  intros H.
  destruct (H no_libm_lg no_libm_pw no_libm_pw
              (Environment (fun _ => true) (fun fs => fs) (fun g => g))
              linear_params (NdArray 2 [[one]]) ∅
              {[ ".tmp_in.fits" := Fits (NdArray 2 [[one]]) ]} (Raise OSError))
    as [Hin _]; try reflexivity.
  vm_compute in Hin. discriminate Hin.
Qed.

(** C3, amended.  When the call returns, or raises anything but an I/O
    error (OSError from writing the input file or reading the output file,
    FileNotFoundError from a removal), neither temporary path exists
    afterwards, provided neither existed before. *)
Theorem temp_files_removed lg pw10 pw2 (env : environment) (p : params)
    (img : ndarray float) (fs fs' : filesystem) (r : result (ndarray float)) :
  fs !! input_file_path p = None ->
  fs !! mr_output_file_path p = None ->
  WaveletTransform.clean_image lg pw10 pw2 env p img fs = (fs', r) ->
  r <> Raise OSError -> r <> Raise FileNotFoundError ->
  fs' !! input_file_path p = None /\ fs' !! mr_output_file_path p = None.
Proof.
  intros Hin Hout Hrun Hos Hnf.
  destruct (decide (ndim img = 2%nat)) as [E|E].
  2:{ rewrite clean_image_not_2d in Hrun by exact E. injection Hrun as <- <-. auto. }
  destruct img as [n g]. simpl in E. subst n. rewrite wavelet_clean_image_2d in Hrun.
  destruct (WaveletTransform.prepare lg p g (map2 isnan g)) as [img|e].
  2:{ injection Hrun as <- <-. auto. }
  destruct (writable env (input_file_path p)).
  2:{ injection Hrun as <- <-. congruence. }
  cbv zeta in Hrun.
  destruct (mr_filter env _ !! mr_output_file_path p) as [[cleaned|]|];
    try (injection Hrun as <- <-; congruence).
  destruct (mr_filter env _ !! input_file_path p);
    try (injection Hrun as <- <-; congruence).
  destruct (delete _ _ !! mr_output_file_path p);
    try (injection Hrun as <- <-; congruence).
  injection Hrun as <- <-. rewrite !lookup_delete.
  split; repeat case_decide; try reflexivity; congruence.
Qed.

Lemma temp_files_removed_witness :
  example_run.1 !! ".tmp_in.fits" = None /\ example_run.1 !! ".tmp_out.fits" = None.
Proof.
  apply (temp_files_removed no_libm_lg no_libm_pw no_libm_pw
           (mock_environment (fun g => g) linear_params) linear_params
           (NdArray 2 [[of_Z 5; nan]]) ∅ example_run.1 example_run.2);
    [reflexivity|reflexivity|apply surjective_pairing
    |vm_compute; discriminate|vm_compute; discriminate].
Defined.


Section LogScale.
Variable lg : positive -> Z -> float.
Variable pw10 pw2 : float -> float.

End LogScale.


(** C9, as stated, fails: [np.nanmin] skips NaN but not an infinity; with a
    [-inf] pixel every finite pixel is sent to [+inf] and none is left. *)
Lemma correction_offset_with_neg_infinity :
  ~ (forall g : grid float,
       (exists i j x, get2 g i j = Some x /\ isfinite x = true) ->
       exists out i j y, apply_correction_offset g = Ok out
                         /\ get2 out i j = Some y /\ isfinite y = true).
Proof.
  intros H. destruct (H [[ninf; of_Z 3]]) as (out & i & j & y & Hout & Hy & Hfin).
  { exists 0%nat, 1%nat, (of_Z 3). split; reflexivity. }
  vm_compute in Hout. injection Hout as <-.
  destruct i as [|[|i]], j as [|[|[|j]]]; vm_compute in Hy; try discriminate;
    injection Hy as <-; discriminate.
Qed.

(** C9, amended.  On a grid with a finite pixel and no [-inf] pixel, the
    correction-offset step returns a grid in which some pixel is [0], every
    finite pixel is at least [0], and no finite pixel lies strictly between
    [0] and [1]. *)
Theorem correction_offset_floor (g : grid float) :
  (exists i j x, get2 g i j = Some x /\ isfinite x = true) ->
  (forall i j, get2 g i j <> Some ninf) ->
  exists out,
    apply_correction_offset g = Ok out
    /\ (exists i j, get2 out i j = Some zero)
    /\ (forall i j y, get2 out i j = Some y -> isfinite y = true ->
          leb zero y = true /\ ~ (ltb zero y = true /\ ltb y one = true)).
Proof.
  intros Hfin Hninf.
  destruct (nanmin_finite g Hfin Hninf) as (m & i0 & j0 & Hm & Hij & Hmfin).
  eexists. split; [apply apply_correction_offset_eq, Hm|]. split.
  - exists i0, j0. rewrite !get2_map, Hij. simpl. f_equal.
    pose proof (sub_self m Hmfin) as Hz. unfold floor_pixel.
    destruct (sub m m) as [[]| | |]; try discriminate; reflexivity.
  - intros i j y. rewrite !get2_map. destruct (get2 g i j) as [x|]; [|discriminate].
    simpl. intros [= <-] Hy. destruct (floor_pixel_finite _ Hy) as [H0 H1].
    split; [exact H0|]. intros [? ?]. auto.
Qed.

Lemma correction_offset_floor_witness :
  exists out,
    apply_correction_offset [[of_Z 7; of_Z 3; nan]; [pinf; of_Z 2; of_Z 3]] = Ok out
    /\ (exists i j, get2 out i j = Some zero)
    /\ (forall i j y, get2 out i j = Some y -> isfinite y = true ->
          leb zero y = true /\ ~ (ltb zero y = true /\ ltb y one = true)).
Proof.
  apply correction_offset_floor.
  - exists 0%nat, 0%nat, (of_Z 7). split; reflexivity.
  - intros i j. destruct i as [|[|i]], j as [|[|[|j]]]; vm_compute; discriminate.
Defined.

(** ** Both algorithms *)

(** C2.  The array returned by a cleaning call has the shape of the
    input, whatever the external program wrote. *)
Theorem cleaning_preserves_shape (img out : ndarray float) (sh : list nat) :
  cleaning_returns img out -> array_has_shape sh img -> array_has_shape sh out.
Proof.
  unfold array_has_shape. intros [a high low b Hrun|lg pw10 pw2 env p a fs fs' b Hkill Hrun] Hsh.
  - destruct a as [n t]. cbn [ndim items] in Hsh.
    destruct n as [|[|k]]; try discriminate.
    injection Hrun as <-. cbn [ndim items]. now apply TailcutShape.has_shape_clean.
  - destruct (decide (ndim a = 2%nat)) as [E|E].
    2:{ rewrite clean_image_not_2d in Hrun by exact E. discriminate. }
    destruct a as [n g]. simpl in E. subst n. cbn [ndim items] in Hsh.
    rewrite wavelet_clean_image_2d in Hrun.
    destruct (WaveletTransform.prepare lg p g (map2 isnan g)) as [written|e]; [|discriminate].
    destruct (writable env (input_file_path p)); [|discriminate].
    cbv zeta in Hrun.
    destruct (mr_filter env _ !! mr_output_file_path p) as [[cleaned|]|]; try discriminate.
    destruct (mr_filter env _ !! input_file_path p); try discriminate.
    destruct (delete _ _ !! mr_output_file_path p); try discriminate.
    injection Hrun as _ Hrun. unfold conclude in Hrun.
    destruct cleaned as [[|[|[|n]]] c]; try discriminate.
    destruct (WaveletTransform.finish pw10 pw2 env p c (map2 isnan g)) as [o|] eqn:Ef;
      [|discriminate].
    injection Hrun as <-. cbn [ndim items].
    apply finish_ok in Ef as (Hs & m & _ & ->). cbv zeta.
    assert (has_shape 2 sh (map2 (post_pixel pw10 pw2 p m) (zip2 restore_pixel c (map2 isnan g))))
      as Himg.
    { apply (has_shape_shape2 sh g); [|exact Hsh].
      rewrite shape2_map, shape2_zip by (symmetry; exact Hs).
      rewrite <- Hs. symmetry. apply shape2_map. }
    destruct (kill_isolated_pixels p); [exact (Hkill sh _ Himg)|exact Himg].
Qed.

Lemma cleaning_preserves_shape_witness :
  array_has_shape [1; 2]%nat
    (NdArray 2 (Tailcut.clean2 [[of_Z 20; of_Z 7]] (of_Z 10) (of_Z 5)))
  /\ array_has_shape [1; 2]%nat (NdArray 2 [[of_Z 5; nan]]).
Proof.
  split.
  - apply (cleaning_preserves_shape (NdArray 2 [[of_Z 20; of_Z 7]])).
    + apply (tailcut_returns _ (of_Z 10) (of_Z 5)). reflexivity.
    + simpl. repeat constructor.
  - apply (cleaning_preserves_shape (NdArray 2 [[of_Z 5; nan]])).
    + apply (wavelet_returns no_libm_lg no_libm_pw no_libm_pw
               (mock_environment (fun g => g) linear_params) linear_params _ ∅
               (delete ".tmp_out.fits" (delete ".tmp_in.fits"
                  (<[".tmp_out.fits" := Fits (NdArray 2 [[of_Z 5; nan]])]>
                     (<[".tmp_in.fits" := Fits (NdArray 2 [[of_Z 5; nan]])]> ∅))))).
      * intros sh g H. exact H.
      * reflexivity.
    + simpl. repeat constructor.
Defined.

(** * Part IV: further properties of the code *)

(** ** Slices, entry by entry *)

Section SliceLookup.
Context {T : Type} (f : T -> T -> T) (u : T).
Hypothesis f_unit : forall x, f x u = x.

Lemma lookup_ior (v s : list T) (i : nat) :
  ior f v s !! i = (fun x => f x (default u (s !! i))) <$> v !! i.
Proof.
  revert s i. induction v as [|x v IH]; intros [|y s] [|i]; simpl; auto.
  - now rewrite f_unit.
  - destruct (v !! i); simpl; auto. now rewrite f_unit.
Qed.

(** [a[:-1] |= s[1:]] *)
Lemma lookup_upd_but_last_ior (a s : list T) (i : nat) :
  length s = length a ->
  upd_but_last (fun v => ior f v (from_1 s)) a !! i
  = (fun x => f x (default u (s !! S i))) <$> a !! i.
Proof.
  intros Hl. unfold upd_but_last, but_last, from_1.
  destruct (decide (i < length a - 1)) as [Hi|Hi].
  - rewrite lookup_app_l by (rewrite length_ior, length_take; lia).
    rewrite lookup_ior, lookup_take_lt, lookup_drop by lia. reflexivity.
  - rewrite lookup_app_r by (rewrite length_ior, length_take; lia).
    rewrite length_ior, length_take, lookup_drop.
    replace (length a - 1 + (i - (length a - 1) `min` length a)) with i by lia.
    destruct (a !! i) eqn:E; simpl; auto.
    rewrite (lookup_ge_None_2 s (S i)); simpl; [now rewrite f_unit|].
    apply lookup_lt_Some in E. lia.
Qed.

(** [a[1:] |= s[:-1]] *)
Lemma lookup_upd_from_1_ior (a s : list T) (i : nat) :
  length s = length a ->
  upd_from_1 (fun v => ior f v (but_last s)) a !! i
  = (fun x => f x (match i with O => u | S i' => default u (s !! i') end)) <$> a !! i.
Proof.
  intros Hl. unfold upd_from_1, but_last, from_1.
  destruct a as [|x a]; [now destruct i|]. simpl in *.
  destruct i as [|i]; simpl; [now rewrite f_unit|].
  rewrite drop_0, lookup_ior. destruct (a !! i) eqn:E; simpl; auto.
  apply lookup_lt_Some in E. rewrite lookup_take_lt by lia. reflexivity.
Qed.
End SliceLookup.

(** ** Tailcut: the dilation, pixel by pixel *)

Section Dilation.
Import Tailcut.

Lemma around_true (p : nat -> bool) (k : nat) :
  around p k = true <-> exists k', near k k' /\ p k' = true.
Proof.
  unfold around, near. split.
  - intros H. apply orb_true_iff in H as [H|H]; [apply orb_true_iff in H as [H|H]|].
    + exists k. split; [lia|exact H].
    + exists (S k). split; [lia|exact H].
    + destruct k as [|k']; [discriminate|]. exists k'. split; [lia|exact H].
  - intros (k' & [H1 H2] & Hp).
    assert (k' = k \/ k' = S k \/ k = S k') as [->|[->| ->]] by lia;
      rewrite Hp, ?orb_true_r; reflexivity.
Qed.

Lemma pix_true (m : grid bool) (i j : nat) :
  pix m i j = true <-> get2 m i j = Some true.
Proof.
  unfold pix, get2. destruct (m !! i) as [row|]; simpl.
  - destruct (row !! j) as [[]|]; simpl; split; congruence.
  - split; discriminate.
Qed.

Lemma ior_nil {T : Type} (f : T -> T -> T) (v : list T) : ior f v [] = v.
Proof. now destruct v. Qed.

(** The mask after the two updates along the first axis. *)
Lemma lookup_dilate_rows (m : grid bool) (i : nat) :
  upd_from_1 (fun v => ior (ior orb) v (but_last m))
    (upd_but_last (fun v => ior (ior orb) v (from_1 m)) m) !! i
  = (fun r => ior orb (ior orb r (default [] (m !! S i)))
                (match i with O => [] | S i' => default [] (m !! i') end)) <$> m !! i.
Proof.
  rewrite (lookup_upd_from_1_ior (ior orb) []) by
    (auto using ior_nil; symmetry; apply length_upd_but_last; intros; apply length_ior).
  rewrite (lookup_upd_but_last_ior (ior orb) []) by auto using ior_nil.
  now destruct (m !! i).
Qed.

Lemma lookup_rows_of_width {A : Type} (w : nat) (g : grid A) (i : nat) (row : list A) :
  rows_of_width w g -> g !! i = Some row -> length row = w.
Proof. intros Hw Hr. exact (Forall_lookup_1 _ _ _ _ Hw Hr). Qed.

Lemma default_row_width (w : nat) (m : grid bool) (i j : nat) :
  rows_of_width w m -> w <= j -> default [] (m !! i) !! j = None.
Proof.
  intros Hw Hj. destruct (m !! i) as [row|] eqn:Hr; simpl; [|reflexivity].
  apply lookup_ge_None_2. rewrite (lookup_rows_of_width w m i row); auto.
Qed.

(** An entry of a row after the two updates along the first axis. *)
Lemma lookup_dilate_rows_pixel (w : nat) (m : grid bool) (i j : nat) (r2 : list bool) :
  rows_of_width w m ->
  upd_from_1 (fun v => ior (ior orb) v (but_last m))
    (upd_but_last (fun v => ior (ior orb) v (from_1 m)) m) !! i = Some r2 ->
  default false (r2 !! j) = around (fun i' => pix m i' j) i /\ length r2 = w.
Proof.
  intros Hw. rewrite lookup_dilate_rows.
  destruct (m !! i) as [row|] eqn:Hr; [|discriminate]. simpl. intros [= <-].
  split; [|rewrite !length_ior; eauto using lookup_rows_of_width].
  rewrite !(lookup_ior orb false) by apply orb_false_r.
  unfold around, pix. rewrite Hr. simpl.
  destruct (row !! j) as [x|] eqn:Hx; simpl.
  - now destruct i.
  - assert (w <= j) as Hj.
    { apply lookup_ge_None_1 in Hx. now rewrite (lookup_rows_of_width w m i row) in Hx. }
    rewrite (default_row_width w m (S i) j) by auto.
    destruct i as [|i']; simpl; [reflexivity|].
    now rewrite (default_row_width w m i' j) by auto.
Qed.

(** A pixel of the dilated mask: the disjunction of the mask over the
    pixel, the one after and the one before, along both axes. *)
Lemma get2_dilate (w : nat) (m : grid bool) (i j : nat) :
  rows_of_width w m ->
  get2 (dilate orb m) i j
  = (fun _ => around (fun j' => around (fun i' => pix m i' j') i) j) <$> get2 m i j.
Proof.
  intros Hw. unfold dilate, get2. rewrite !list_lookup_fmap.
  destruct (upd_from_1 _ _ !! i) as [r2|] eqn:Hr2; simpl.
  2:{ rewrite lookup_dilate_rows in Hr2. now destruct (m !! i). }
  pose proof (fun j' => proj1 (lookup_dilate_rows_pixel w m i j' r2 Hw Hr2)) as Hpix.
  pose proof (proj2 (lookup_dilate_rows_pixel w m i j r2 Hw Hr2)) as Hlen.
  rewrite lookup_dilate_rows in Hr2.
  destruct (m !! i) as [row|] eqn:Hr; [|discriminate].
  assert (length row = w) as Hrow by eauto using lookup_rows_of_width.
  rewrite (lookup_upd_from_1_ior orb false) by (auto using orb_false_r).
  rewrite (lookup_upd_but_last_ior orb false) by (auto using orb_false_r).
  destruct (row !! j) as [x|] eqn:Hx.
  - destruct (lookup_lt_is_Some_2 r2 j) as [y Hy];
      [apply lookup_lt_Some in Hx; lia|].
    rewrite Hy. simpl. f_equal. unfold around at 1.
    rewrite <- !Hpix, Hy. simpl.
    destruct j as [|j']; simpl; [now rewrite orb_false_r|].
    rewrite (lookup_upd_but_last_ior orb false) by (auto using orb_false_r).
    rewrite <- (Hpix j'). destruct (r2 !! j') as [z|]; simpl.
    + rewrite Hy. simpl. destruct y, z, (default false (r2 !! S (S j'))); reflexivity.
    + reflexivity.
  - rewrite (lookup_ge_None_2 r2 j); [reflexivity|].
    apply lookup_ge_None_1 in Hx. lia.
Qed.
End Dilation.

(** ** Tailcut: which pixels are kept *)

Module TailcutPixels.
Import Tailcut TailcutFacts TailcutMasks.

(** The final mask holds where the pixel reaches the low threshold and a
    pixel at most one row and one column away reaches the high one. *)
Lemma final_mask2_true (w : nat) (img : grid float) (high low : float) (i j : nat) :
  rows_of_width w img ->
  get2 (final_mask2 img high low) i j = Some true
  <-> exists x, get2 img i j = Some x /\ geb x low = true
      /\ exists i' j' y, near i i' /\ near j j'
                         /\ get2 img i' j' = Some y /\ geb y high = true.
Proof.
  intros Hw. rewrite final_mask2_eq, get2_zip.
  rewrite (get2_dilate w) by (unfold rows_of_width, map2 in *; rewrite Forall_fmap;
    eapply Forall_impl; [exact Hw|]; intros row; simpl; now rewrite length_fmap).
  rewrite !get2_map.
  assert (forall i' j', pix (map2 (fun x => geb x high) img) i' j' = true
                        <-> exists y, get2 img i' j' = Some y /\ geb y high = true) as Hpix.
  { intros i' j'. rewrite pix_true, get2_map.
    destruct (get2 img i' j') as [y|]; simpl; split.
    - intros [= H]. eauto.
    - intros (y' & [= <-] & H). now rewrite H.
    - discriminate.
    - intros (y' & [=] & _). }
  destruct (get2 img i j) as [x|]; simpl.
  2:{ split; [discriminate|]. intros (x & [=] & _). }
  split.
  - intros [= H]. apply andb_true_iff in H as [Hd Hl].
    exists x. split; [reflexivity|]. split; [exact Hl|].
    apply around_true in Hd as (j' & Hj & Hd).
    apply around_true in Hd as (i' & Hi & Hd).
    apply Hpix in Hd as (y & Hy & Hh). eauto 10.
  - intros (x' & [= <-] & Hl & i' & j' & y & Hi & Hj & Hy & Hh).
    rewrite Hl, andb_true_r. f_equal.
    apply around_true. exists j'. split; [exact Hj|].
    apply around_true. exists i'. split; [exact Hi|].
    apply Hpix. eauto.
Qed.

(** Lower thresholds give a larger mask. *)
Lemma final_mask2_monotone (img : grid float) (high low high' low' : float) :
  leb high' high = true -> leb low' low = true ->
  Forall2 (Forall2 ble) (final_mask2 img high low) (final_mask2 img high' low').
Proof.
  intros Hh Hl.
  assert (Forall2 (Forall2 ble) (dilate orb (map2 (fun x => geb x high) img))
            (dilate orb (map2 (fun x => geb x high') img))) as Hd.
  { apply dilate_ble, Forall2_grid_map. intros x Hx. unfold geb in *.
    eapply leb_trans; eauto. }
  apply Forall2_grid_intro; [now rewrite !shape2_final_mask2|].
  intros i j b b'. rewrite !final_mask2_eq, !get2_zip, !get2_map.
  destruct (get2 (dilate orb (map2 (fun x => geb x high) img)) i j) as [d|] eqn:E;
    [|discriminate].
  destruct (Forall2_grid_get2 ble _ _ i j d Hd E) as (d' & -> & Hdd').
  destruct (get2 img i j) as [x|]; [|discriminate]. simpl.
  intros [= <-] [= <-] H. apply andb_true_iff in H as [H1 H2].
  rewrite (Hdd' H1). simpl. unfold geb in *. eapply leb_trans; eauto.
Qed.

(** Without a pixel at the high threshold the mask is empty. *)
Lemma final_mask2_empty (img : grid float) (high low : float) :
  (forall i j y, get2 img i j = Some y -> geb y high = false) ->
  final_mask2 img high low = map2 (fun _ => false) img.
Proof.
  intros Hnone.
  assert (Forall (Forall (fun b => b = false)) (dilate orb (map2 (fun x => geb x high) img)))
    as Hd.
  { apply dilate_Forall; [intros x y -> ->; reflexivity|].
    apply Forall_forall. intros row Hrow. apply Forall_forall. intros b Hb.
    apply list_elem_of_lookup in Hrow as [i Hi]. apply list_elem_of_lookup in Hb as [j Hj].
    assert (get2 (map2 (fun x => geb x high) img) i j = Some b) as H
      by (unfold get2; now rewrite Hi).
    rewrite get2_map in H. destruct (get2 img i j) as [y|] eqn:Hy; [|discriminate].
    simpl in H. injection H as <-. eauto. }
  apply grid_ext; [now rewrite shape2_final_mask2, shape2_map|].
  intros i j. rewrite final_mask2_eq, get2_zip, !get2_map.
  destruct (get2 (dilate orb _) i j) as [d|] eqn:E.
  - assert (d = false) as ->.
    { unfold get2 in E. destruct (dilate orb _ !! i) as [row|] eqn:Hr; [|discriminate].
      exact (Forall_lookup_1 _ _ _ _ (Forall_lookup_1 _ _ _ _ Hd Hr) E). }
    now destruct (get2 img i j).
  - destruct (get2 img i j) as [x|] eqn:Hx; [|reflexivity].
    destruct (get2_is_Some_shape img (dilate orb (map2 (fun x => geb x high) img)) i j)
      as [d Hd']; [now rewrite shape2_dilate, shape2_map|now rewrite Hx|].
    congruence.
Qed.
End TailcutPixels.

(** The dilation of lines 177-184 is the dilation by a 3 x 3 square: in a
    rectangular mask, a pixel of the dilated mask holds exactly when the
    mask holds at the pixel or at one of its eight neighbours, and the
    dilated mask has a pixel exactly where the mask has one. *)
Theorem dilate_neighbourhood (w : nat) (mask : grid bool) (i j : nat) :
  rows_of_width w mask ->
  (is_Some (get2 (Tailcut.dilate orb mask) i j) <-> is_Some (get2 mask i j))
  /\ (get2 (Tailcut.dilate orb mask) i j = Some true
      <-> is_Some (get2 mask i j)
          /\ exists i' j', near i i' /\ near j j' /\ get2 mask i' j' = Some true).
Proof.
  intros Hw. rewrite (get2_dilate w) by exact Hw. split.
  - now rewrite fmap_is_Some.
  - destruct (get2 mask i j) as [x|]; simpl.
    2:{ split; [discriminate|]. intros [[? [=]] _]. }
    split.
    + intros [= H]. split; [eauto|].
      apply around_true in H as (j' & Hj & H). apply around_true in H as (i' & Hi & H).
      apply pix_true in H. eauto.
    + intros (_ & i' & j' & Hi & Hj & H). f_equal.
      apply around_true. exists j'. split; [exact Hj|].
      apply around_true. exists i'. split; [exact Hi|]. now apply pix_true.
Qed.

Lemma dilate_neighbourhood_witness :
  (is_Some (get2 (Tailcut.dilate orb [[false; false; false]; [false; false; true]]) 0 1)
   <-> is_Some (get2 [[false; false; false]; [false; false; true]] 0 1))
  /\ (get2 (Tailcut.dilate orb [[false; false; false]; [false; false; true]]) 0 1 = Some true
      <-> is_Some (get2 [[false; false; false]; [false; false; true]] 0 1)
          /\ exists i' j', near 0 i' /\ near 1 j'
                           /\ get2 [[false; false; false]; [false; false; true]] i' j'
                              = Some true).
Proof.
  apply (dilate_neighbourhood 3). repeat constructor.
Defined.

(** Tailcut keeps a pixel exactly when it reaches the low threshold and
    it or one of its eight neighbours reaches the high threshold. *)
Theorem tailcut_mask_neighbourhood (w : nat) (img : grid float) (high low : float)
    (i j : nat) :
  rows_of_width w img ->
  get2 (Tailcut.final_mask2 img high low) i j = Some true
  <-> exists x, get2 img i j = Some x /\ geb x low = true
      /\ exists i' j' y, near i i' /\ near j j'
                         /\ get2 img i' j' = Some y /\ geb y high = true.
Proof. apply TailcutPixels.final_mask2_true. Qed.

Lemma tailcut_mask_neighbourhood_witness :
  get2 (Tailcut.final_mask2 shower (of_Z 10) (of_Z 5)) 0 1 = Some true
  <-> exists x, get2 shower 0 1 = Some x /\ geb x (of_Z 5) = true
      /\ exists i' j' y, near 0 i' /\ near 1 j'
                         /\ get2 shower i' j' = Some y /\ geb y (of_Z 10) = true.
Proof.
  apply (tailcut_mask_neighbourhood 3). repeat constructor.
Defined.

(** A pixel that reaches the low threshold, with a pixel at the high
    threshold at most one row and one column away, is returned as it is. *)
Theorem tailcut_kept_pixel_unchanged (w : nat) (img : grid float) (high low : float)
    (i j i' j' : nat) (x y : float) :
  rows_of_width w img -> Forall (Forall valid) img ->
  get2 img i j = Some x -> geb x low = true ->
  near i i' -> near j j' -> get2 img i' j' = Some y -> geb y high = true ->
  exists out, Tailcut.clean_image (NdArray 2 img) high low = Ok (NdArray 2 out)
              /\ get2 out i j = Some x.
Proof.
  intros Hw Hv Hx Hl Hi Hj Hy Hh. eexists. split; [reflexivity|].
  apply TailcutTwice.clean2_kept; auto.
  apply (TailcutPixels.final_mask2_true w); eauto 10.
Qed.

Lemma tailcut_kept_pixel_unchanged_witness :
  exists out, Tailcut.clean_image (NdArray 2 shower) (of_Z 10) (of_Z 5) = Ok (NdArray 2 out)
              /\ get2 out 0 1 = Some (of_Z 6).
Proof.
  apply (tailcut_kept_pixel_unchanged 3 shower (of_Z 10) (of_Z 5) 0 1 1 1 (of_Z 6) (of_Z 20));
    try reflexivity; try (split; lia); unfold shower, valid; repeat constructor.
Defined.

(** Lowering a threshold never removes a pixel from the final mask. *)
Theorem tailcut_mask_monotone (img : grid float) (high low high' low' : float) (i j : nat) :
  leb high' high = true -> leb low' low = true ->
  get2 (Tailcut.final_mask2 img high low) i j = Some true ->
  get2 (Tailcut.final_mask2 img high' low') i j = Some true.
Proof.
  intros Hh Hl H.
  destruct (Forall2_grid_get2 ble _ _ i j true
              (TailcutPixels.final_mask2_monotone img high low high' low' Hh Hl) H)
    as (b & Hb & Hle).
  now rewrite Hb, (Hle eq_refl).
Qed.

Lemma tailcut_mask_monotone_witness :
  get2 (Tailcut.final_mask2 shower (of_Z 7) (of_Z 2)) 0 1 = Some true.
Proof.
  apply (tailcut_mask_monotone shower (of_Z 10) (of_Z 5) (of_Z 7) (of_Z 2) 0 1); reflexivity.
Defined.

(** When no pixel reaches the high threshold (for one, when the threshold
    is NaN) nothing is kept, whatever the low threshold: every pixel is
    multiplied by [0.0]. *)
Theorem tailcut_nothing_above_high (img : grid float) (high low : float) :
  (forall i j y, get2 img i j = Some y -> geb y high = false) ->
  Tailcut.clean_image (NdArray 2 img) high low
  = Ok (NdArray 2 (map2 (fun x => mul x zero) img)).
Proof.
  intros Hnone. rewrite tailcut_clean_image_2d, clean2_eq.
  rewrite (TailcutPixels.final_mask2_empty img high low Hnone).
  do 2 f_equal. apply grid_ext.
  - rewrite shape2_zip, shape2_map; auto. now rewrite shape2_map.
  - intros i j. rewrite get2_zip, !get2_map. now destruct (get2 img i j).
Qed.

Lemma tailcut_nothing_above_high_witness :
  Tailcut.clean_image (NdArray 2 [[of_Z 20; of_Z 7]]) nan (of_Z 5)
  = Ok (NdArray 2 (map2 (fun x => mul x zero) [[of_Z 20; of_Z 7]])).
Proof.
  apply tailcut_nothing_above_high.
  intros i j y _. unfold geb. now destruct y as [| | |[]].
Defined.

(** ** The wrapper around an external program that copies its input *)

Module WaveletIdentity.
Import WaveletTransform WaveletFacts WaveletRun.

Lemma temp_files_gone (fs : filesystem) (input output : string) (a b : file) :
  input <> output ->
  delete output (delete input (<[output := b]> (<[input := a]> fs)))
  = delete output (delete input fs).
Proof.
  intros Hne. rewrite (delete_insert_ne _ input output) by exact Hne.
  now rewrite delete_insert_eq, delete_insert_eq.
Qed.

Section Libm.
Variable lg : positive -> Z -> float.
Variable pw10 pw2 : float -> float.

Lemma round_trip_pixel_nan (p : params) : round_trip_pixel lg pw10 pw2 p nan = nan.
Proof.
  unfold round_trip_pixel.
  assert (offset_pixel p nan = nan) as ->
    by (unfold offset_pixel; now destruct (offset_after_calibration p)).
  assert (scale_pixel lg (input_image_scale p) nan = nan) as ->.
  { unfold scale_pixel. destruct (String.eqb _ "log"); [reflexivity|].
    now destruct (String.eqb _ "sqrt"). }
  now rewrite unscale_pixel_nan, unoffset_pixel_nan.
Qed.

(** With an external program that copies its input, and neither the
    correction offset nor the isolated-pixel filter, every pixel goes
    through the offset, the change of scale and their inverses, and the
    two temporary files are gone. *)
Lemma identity_program_run (p : params) (g : grid float) (fs : filesystem) :
  input_file_path p <> mr_output_file_path p ->
  noise_ok p ->
  correction_offset p = false ->
  kill_isolated_pixels p = false ->
  WaveletTransform.clean_image lg pw10 pw2 (mock_environment (fun a => a) p) p (NdArray 2 g) fs
  = (delete (mr_output_file_path p) (delete (input_file_path p) fs),
     Ok (NdArray 2 (map2 (round_trip_pixel lg pw10 pw2 p) g))).
Proof.
  intros Hne Hnoise Hcorr Hkill.
  rewrite (clean_image_mock lg pw10 pw2 _ p (fun a => a)) by (auto; reflexivity).
  destruct (prepare_total lg p g (map2 isnan g) Hnoise) as [written Hw]. rewrite Hw.
  destruct (prepare_ok lg p g _ _ Hw) as [Hsw Hpix].
  rewrite temp_files_gone by exact Hne. f_equal.
  destruct (finish_total pw10 pw2 (mock_environment (fun a => a) p) p written (map2 isnan g))
    as [out Hout]; [now rewrite shape2_map|rewrite Hcorr; discriminate|].
  rewrite Hout. destruct (finish_ok pw10 pw2 _ _ _ _ _ Hout) as (_ & m & Hm & ->).
  rewrite Hkill, (Hm Hcorr). cbv zeta. do 2 f_equal. apply grid_ext.
  - rewrite !shape2_map, shape2_zip; auto. now rewrite shape2_map.
  - intros i j. rewrite !get2_map, get2_zip, get2_nan_mask.
    destruct (get2 g i j) as [x|] eqn:Hx; simpl.
    2:{ now destruct (get2 written i j). }
    destruct (get2_is_Some_shape g written i j) as [y Hy]; [auto|now rewrite Hx|].
    rewrite Hy. simpl. f_equal.
    destruct (isnan x) eqn:Hn; cbn [restore_pixel].
    + apply isnan_true in Hn. subst x.
      now rewrite unscale_pixel_nan, unoffset_pixel_nan, round_trip_pixel_nan.
    + specialize (Hpix i j). rewrite get2_nan_mask, Hx in Hpix. simpl in Hpix.
      rewrite Hn, Hy in Hpix. specialize (Hpix eq_refl). injection Hpix as ->.
      reflexivity.
Qed.
End Libm.
End WaveletIdentity.

Module WaveletErrors.
Import WaveletTransform WaveletFacts WaveletRun.

(** A grid has no pixel exactly when all its rows are empty. *)
Lemma concat_nil_shape2 {A : Type} (g : grid A) :
  concat g = [] <-> Forall (fun n => n = 0) (shape2 g).
Proof.
  unfold shape2. induction g as [|row g IH]; simpl.
  - split; auto.
  - rewrite Forall_cons. split.
    + intros H. apply app_eq_nil in H as [-> H]. split; [reflexivity|now apply IH].
    + intros [H1 H2]. apply length_zero_iff_nil in H1 as ->. simpl. now apply IH.
Qed.

Lemma concat_nil_same_shape {A B : Type} (a : grid A) (b : grid B) :
  shape2 a = shape2 b -> concat a = [] -> concat b = [].
Proof. rewrite !concat_nil_shape2. now intros ->. Qed.

Section Libm.
Variable lg : positive -> Z -> float.
Variable pw10 pw2 : float -> float.

(** The correction offset on a grid without pixels. *)
Lemma finish_without_pixels (env : environment) (p : params) (c : grid float)
    (mask : grid bool) :
  shape2 mask = shape2 c -> concat c = [] -> correction_offset p = true ->
  WaveletTransform.finish pw10 pw2 env p c mask = Raise ValueError.
Proof.
  intros Hs Hc Hcorr. unfold WaveletTransform.finish.
  rewrite (set_nan_same_shape _ _ Hs), Hcorr, invert_scale_eq.
  set (c2 := map2 _ (zip2 _ c mask)).
  assert (shape2 c2 = shape2 c) as H2
    by (unfold c2; rewrite shape2_map, shape2_zip; auto).
  set (c3 := match offset_after_calibration p with Some _ => _ | None => _ end).
  assert (shape2 c3 = shape2 c) as H3.
  { unfold c3. destruct (offset_after_calibration p); [destruct (negb _)|];
      rewrite ?shape2_map; exact H2. }
  unfold apply_correction_offset, nanmin.
  now rewrite (concat_nil_same_shape c c3) by auto.
Qed.
End Libm.
End WaveletErrors.

(** ** The mr_filter wrapper: errors *)

Section WrapperErrors.
Variable lg : positive -> Z -> float.
Variable pw10 pw2 : float -> float.

(** When the external program writes an array that is not two-dimensional,
    the call raises WrongDimensionError, and it does so after the two
    temporary files were removed. *)
Theorem wavelet_output_not_2d (env : environment) (p : params)
    (f : ndarray float -> ndarray float) (g : grid float) (fs : filesystem) :
  writable env (input_file_path p) = true ->
  mr_filter env = mock_mr_filter f (input_file_path p) (mr_output_file_path p) ->
  input_file_path p <> mr_output_file_path p ->
  noise_ok p ->
  (forall a, ndim (f a) <> 2%nat) ->
  WaveletTransform.clean_image lg pw10 pw2 env p (NdArray 2 g) fs
  = (delete (mr_output_file_path p) (delete (input_file_path p) fs),
     Raise WrongDimensionError).
Proof.
  intros Hw Hm Hne Hnoise Hf. rewrite wavelet_clean_image_2d.
  destruct (prepare_total lg p g (map2 isnan g) Hnoise) as [written ->].
  rewrite Hw, Hm. unfold mock_mr_filter. cbv zeta.
  rewrite lookup_insert_eq.
  rewrite lookup_insert_eq, lookup_insert_ne, lookup_insert_eq by congruence.
  rewrite lookup_delete_ne, lookup_insert_eq by congruence.
  rewrite WaveletIdentity.temp_files_gone by exact Hne. f_equal.
  specialize (Hf (NdArray 2 written)). unfold conclude.
  destruct (f (NdArray 2 written)) as [[|[|[|n]]] c]; simpl in *; congruence.
Qed.

(** When the external program writes a two-dimensional array of another
    shape than the input, restoring the NaN pixels raises IndexError; the
    two temporary files were removed before. *)
Theorem wavelet_output_shape_mismatch (p : params) (f : grid float -> grid float)
    (g : grid float) (fs : filesystem) :
  input_file_path p <> mr_output_file_path p ->
  noise_ok p ->
  (forall a, shape2 (f a) <> shape2 g) ->
  WaveletTransform.clean_image lg pw10 pw2 (mock_environment f p) p (NdArray 2 g) fs
  = (delete (mr_output_file_path p) (delete (input_file_path p) fs), Raise IndexError).
Proof.
  intros Hne Hnoise Hf.
  rewrite (clean_image_mock lg pw10 pw2 _ p f) by (auto; reflexivity).
  destruct (prepare_total lg p g (map2 isnan g) Hnoise) as [written ->].
  rewrite WaveletIdentity.temp_files_gone by exact Hne. f_equal.
  unfold WaveletTransform.finish, set_nan.
  rewrite bool_decide_eq_false_2; [reflexivity|].
  rewrite shape2_map. intros E. now apply (Hf written).
Qed.

(** With the correction offset on, an image without pixels makes
    [np.nanmin] raise ValueError, after the external program has run and
    the two temporary files were removed. *)
Theorem wavelet_correction_offset_without_pixels (p : params) (g : grid float)
    (fs : filesystem) :
  input_file_path p <> mr_output_file_path p ->
  noise_ok p ->
  correction_offset p = true ->
  concat g = [] ->
  WaveletTransform.clean_image lg pw10 pw2 (mock_environment (fun a => a) p) p (NdArray 2 g) fs
  = (delete (mr_output_file_path p) (delete (input_file_path p) fs), Raise ValueError).
Proof.
  intros Hne Hnoise Hcorr Hg.
  rewrite (clean_image_mock lg pw10 pw2 _ p (fun a => a)) by (auto; reflexivity).
  destruct (prepare_total lg p g (map2 isnan g) Hnoise) as [written Hw]. rewrite Hw.
  destruct (prepare_ok lg p g _ _ Hw) as [Hsw _].
  rewrite WaveletIdentity.temp_files_gone by exact Hne. f_equal.
  rewrite WaveletErrors.finish_without_pixels; auto.
  - now rewrite shape2_map.
  - apply (WaveletErrors.concat_nil_same_shape g); auto.
Qed.
End WrapperErrors.

Lemma wavelet_output_not_2d_witness :
  WaveletTransform.clean_image no_libm_lg no_libm_pw no_libm_pw
    (Environment (fun _ => true)
       (mock_mr_filter flat_output ".tmp_in.fits" ".tmp_out.fits") (fun g => g))
    linear_params (NdArray 2 [[of_Z 5; nan]]) ∅
  = (delete ".tmp_out.fits" (delete ".tmp_in.fits" ∅), Raise WrongDimensionError).
Proof.
  apply (wavelet_output_not_2d no_libm_lg no_libm_pw no_libm_pw _ linear_params flat_output).
  - reflexivity.
  - reflexivity.
  - discriminate.
  - exact I.
  - intros a. simpl. lia.
Defined.

Lemma wavelet_output_shape_mismatch_witness :
  WaveletTransform.clean_image no_libm_lg no_libm_pw no_libm_pw
    (mock_environment one_more_row linear_params) linear_params (NdArray 2 [[of_Z 5; nan]]) ∅
  = (delete ".tmp_out.fits" (delete ".tmp_in.fits" ∅), Raise IndexError).
Proof.
  apply (wavelet_output_shape_mismatch no_libm_lg no_libm_pw no_libm_pw linear_params
           one_more_row [[of_Z 5; nan]] ∅).
  - discriminate.
  - exact I.
  - intros a. unfold one_more_row. destruct a; discriminate.
Defined.

Lemma wavelet_correction_offset_without_pixels_witness :
  WaveletTransform.clean_image no_libm_lg no_libm_pw no_libm_pw
    (mock_environment (fun a => a) correction_params) correction_params (NdArray 2 [[]; []]) ∅
  = (delete ".tmp_out.fits" (delete ".tmp_in.fits" ∅), Raise ValueError).
Proof.
  apply (wavelet_correction_offset_without_pixels no_libm_lg no_libm_pw no_libm_pw
           correction_params [[]; []] ∅).
  - discriminate.
  - exact I.
  - reflexivity.
  - reflexivity.
Defined.

(** ** The mr_filter wrapper: what comes back *)

Section WrapperRoundTrips.
Variable lg : positive -> Z -> float.
Variable pw10 pw2 : float -> float.

(** In the linear scale, without offset, correction offset and
    isolated-pixel filter, and with an external program that copies its
    input, the call returns the input image, its NaN pixels included, also
    when noise was injected into them; the two temporary files are gone and
    no other file is touched. *)
Theorem wavelet_linear_round_trip (p : params) (g : grid float) (fs : filesystem) :
  input_file_path p <> mr_output_file_path p ->
  noise_ok p ->
  input_image_scale p = "linear" ->
  offset_after_calibration p = None ->
  correction_offset p = false ->
  kill_isolated_pixels p = false ->
  WaveletTransform.clean_image lg pw10 pw2 (mock_environment (fun a => a) p) p (NdArray 2 g) fs
  = (delete (mr_output_file_path p) (delete (input_file_path p) fs), Ok (NdArray 2 g)).
Proof.
  intros Hne Hnoise Hscale Hoff Hcorr Hkill.
  rewrite WaveletIdentity.identity_program_run by assumption.
  do 3 f_equal. rewrite <- (map2_id g) at 2.
  unfold map2. apply list_fmap_ext. intros _ row _. apply list_fmap_ext. intros _ x _.
  unfold round_trip_pixel, unoffset_pixel, offset_pixel, unscale_pixel, scale_pixel.
  now rewrite Hoff, Hscale.
Qed.

(** The square-root scale is undone by [2 ^ y], not by a square: with an
    external program that copies its input, a pixel [x] comes back as
    [2 ^ sqrt x].  A zero comes back as [1.0], a negative pixel as NaN. *)
Theorem wavelet_sqrt_round_trip (p : params) (g : grid float) (fs : filesystem) :
  input_file_path p <> mr_output_file_path p ->
  noise_ok p ->
  input_image_scale p = "sqrt" ->
  offset_after_calibration p = None ->
  correction_offset p = false ->
  kill_isolated_pixels p = false ->
  WaveletTransform.clean_image lg pw10 pw2 (mock_environment (fun a => a) p) p (NdArray 2 g) fs
  = (delete (mr_output_file_path p) (delete (input_file_path p) fs),
     Ok (NdArray 2 (map2 (fun x => power pw2 (sqrt x)) g)))
  /\ forall i j x, get2 g i j = Some x ->
       (iszero x = true -> get2 (map2 (fun x => power pw2 (sqrt x)) g) i j = Some one)
       /\ (ltb x zero = true -> get2 (map2 (fun x => power pw2 (sqrt x)) g) i j = Some nan).
Proof.
  intros Hne Hnoise Hscale Hoff Hcorr Hkill. split.
  - rewrite WaveletIdentity.identity_program_run by assumption.
    do 3 f_equal.
    unfold map2. apply list_fmap_ext. intros _ row _. apply list_fmap_ext. intros _ x _.
    unfold round_trip_pixel, unoffset_pixel, offset_pixel, unscale_pixel, scale_pixel.
    now rewrite Hoff, Hscale.
  - intros i j x Hx. rewrite get2_map, Hx. simpl. split; intros H; f_equal.
    + destruct x; try discriminate. reflexivity.
    + destruct x as [[]|[]| |[] m e]; try discriminate; reflexivity.
Qed.

(** A scale name other than ['log'] and ['sqrt'] is not refused: the call
    does what it does in the linear scale. *)
Theorem wavelet_unknown_scale_is_linear (env : environment) (scale : string)
    (noise : option (nat -> list float)) (offset : option float)
    (suppress correction kill : bool) (input output : string)
    (a : ndarray float) (fs : filesystem) :
  scale <> "log" -> scale <> "sqrt" ->
  WaveletTransform.clean_image lg pw10 pw2 env
    (Params noise offset scale suppress correction kill input output) a fs
  = WaveletTransform.clean_image lg pw10 pw2 env
      (Params noise offset "linear" suppress correction kill input output) a fs.
Proof.
  intros Hlog Hsqrt.
  apply String.eqb_neq in Hlog, Hsqrt.
  unfold WaveletTransform.clean_image, WaveletTransform.prepare, WaveletTransform.finish,
    change_scale, invert_scale. simpl.
  rewrite Hlog, Hsqrt. reflexivity.
Qed.

(** The offset added before the external program runs is subtracted
    afterwards, unless [suppress_last_scale] is set: then it stays in the
    image returned. *)
Theorem wavelet_offset_round_trip (p : params) (o : float) (g : grid float)
    (fs : filesystem) :
  input_file_path p <> mr_output_file_path p ->
  noise_ok p ->
  input_image_scale p = "linear" ->
  offset_after_calibration p = Some o ->
  correction_offset p = false ->
  kill_isolated_pixels p = false ->
  WaveletTransform.clean_image lg pw10 pw2 (mock_environment (fun a => a) p) p (NdArray 2 g) fs
  = (delete (mr_output_file_path p) (delete (input_file_path p) fs),
     Ok (NdArray 2 (map2 (fun x => if suppress_last_scale p then add x o
                                   else sub (add x o) o) g))).
Proof.
  intros Hne Hnoise Hscale Hoff Hcorr Hkill.
  rewrite WaveletIdentity.identity_program_run by assumption.
  do 3 f_equal.
  unfold map2. apply list_fmap_ext. intros _ row _. apply list_fmap_ext. intros _ x _.
  unfold round_trip_pixel, unoffset_pixel, offset_pixel, unscale_pixel, scale_pixel.
  rewrite Hoff, Hscale. now destruct (suppress_last_scale p).
Qed.
End WrapperRoundTrips.

Lemma wavelet_linear_round_trip_witness :
  WaveletTransform.clean_image no_libm_lg no_libm_pw no_libm_pw
    (mock_environment (fun a => a) noise_params) noise_params
    (NdArray 2 [[of_Z 5; nan]; [nan; of_Z (-2)]]) ∅
  = (delete ".tmp_out.fits" (delete ".tmp_in.fits" ∅),
     Ok (NdArray 2 [[of_Z 5; nan]; [nan; of_Z (-2)]])).
Proof.
  apply (wavelet_linear_round_trip no_libm_lg no_libm_pw no_libm_pw noise_params).
  - discriminate.
  - intros n. apply length_replicate.
  - reflexivity.
  - reflexivity.
  - reflexivity.
  - reflexivity.
Defined.

Lemma wavelet_sqrt_round_trip_witness :
  WaveletTransform.clean_image no_libm_lg no_libm_pw no_libm_pw
    (mock_environment (fun a => a) sqrt_params) sqrt_params
    (NdArray 2 [[zero; of_Z (-4)]]) ∅
  = (delete ".tmp_out.fits" (delete ".tmp_in.fits" ∅),
     Ok (NdArray 2 (map2 (fun x => power no_libm_pw (sqrt x)) [[zero; of_Z (-4)]])))
  /\ forall i j x, get2 [[zero; of_Z (-4)]] i j = Some x ->
       (iszero x = true
        -> get2 (map2 (fun x => power no_libm_pw (sqrt x)) [[zero; of_Z (-4)]]) i j = Some one)
       /\ (ltb x zero = true
           -> get2 (map2 (fun x => power no_libm_pw (sqrt x)) [[zero; of_Z (-4)]]) i j
              = Some nan).
Proof.
  apply (wavelet_sqrt_round_trip no_libm_lg no_libm_pw no_libm_pw sqrt_params).
  - discriminate.
  - exact I.
  - reflexivity.
  - reflexivity.
  - reflexivity.
  - reflexivity.
Defined.

Lemma wavelet_unknown_scale_is_linear_witness :
  WaveletTransform.clean_image no_libm_lg no_libm_pw no_libm_pw
    (mock_environment (fun a => a) linear_params)
    (Params None None "LOG" false false false ".tmp_in.fits" ".tmp_out.fits")
    (NdArray 2 [[zero; of_Z (-4)]]) ∅
  = WaveletTransform.clean_image no_libm_lg no_libm_pw no_libm_pw
      (mock_environment (fun a => a) linear_params)
      (Params None None "linear" false false false ".tmp_in.fits" ".tmp_out.fits")
      (NdArray 2 [[zero; of_Z (-4)]]) ∅.
Proof.
  apply (wavelet_unknown_scale_is_linear no_libm_lg no_libm_pw no_libm_pw); discriminate.
Defined.

Lemma wavelet_offset_round_trip_witness :
  WaveletTransform.clean_image no_libm_lg no_libm_pw no_libm_pw
    (mock_environment (fun a => a) (offset_params true)) (offset_params true)
    (NdArray 2 [[of_Z 5; nan]]) ∅
  = (delete ".tmp_out.fits" (delete ".tmp_in.fits" ∅),
     Ok (NdArray 2 (map2 (fun x => if suppress_last_scale (offset_params true)
                                   then add x (of_Z 3)
                                   else sub (add x (of_Z 3)) (of_Z 3)) [[of_Z 5; nan]]))).
Proof.
  apply (wavelet_offset_round_trip no_libm_lg no_libm_pw no_libm_pw (offset_params true)).
  - discriminate.
  - exact I.
  - reflexivity.
  - reflexivity.
  - reflexivity.
  - reflexivity.
Defined.

(** ** The mr_filter wrapper: noise in the NaN pixels *)

Module WaveletNoise.
Import WaveletTransform WaveletFacts WaveletRun.

Lemma put_row_noise (row vals : list float) :
  length (filter (fun b => b = true) (isnan <$> row)) <= length vals ->
  Forall (fun v => isnan v = false) vals ->
  Forall (fun y => isnan y = false) (put_row row (isnan <$> row) vals).1
  /\ (put_row row (isnan <$> row) vals).2
     = drop (length (filter (fun b => b = true) (isnan <$> row))) vals.
Proof.
  revert vals. induction row as [|x row IH]; intros vals Hlen Hvals.
  - simpl. split; [constructor|reflexivity].
  - rewrite fmap_cons in Hlen |- *. destruct (isnan x) eqn:Hx.
    + rewrite filter_cons_True in Hlen |- * by reflexivity. simpl in Hlen.
      destruct vals as [|v vals]; [simpl in Hlen; lia|]. simpl in Hlen.
      apply Forall_cons in Hvals as [Hv Hvals].
      destruct (IH vals) as [IH1 IH2]; [lia|exact Hvals|].
      simpl. destruct (put_row row (isnan <$> row) vals) as [r rest]. simpl in *.
      split; [constructor; assumption|exact IH2].
    + rewrite filter_cons_False in Hlen |- * by discriminate.
      destruct (IH vals Hlen Hvals) as [IH1 IH2].
      simpl. destruct (put_row row (isnan <$> row) vals) as [r rest]. simpl in *.
      split; [constructor; assumption|exact IH2].
Qed.

Lemma put_rows_noise (img : grid float) (vals : list float) :
  count_nonzero (map2 isnan img) <= length vals ->
  Forall (fun v => isnan v = false) vals ->
  Forall (Forall (fun y => isnan y = false)) (put_rows img (map2 isnan img) vals).
Proof.
  unfold count_nonzero, map2. revert vals.
  induction img as [|row img IH]; intros vals Hlen Hvals; [constructor|].
  rewrite fmap_cons in *. simpl in Hlen. rewrite filter_app, length_app in Hlen.
  destruct (put_row_noise row vals) as [H1 H2]; [lia|exact Hvals|].
  simpl. destruct (put_row row (isnan <$> row) vals) as [r rest]. simpl in *.
  constructor; [exact H1|]. apply IH.
  - subst rest. rewrite length_drop. lia.
  - subst rest. now apply Forall_drop.
Qed.
End WaveletNoise.

Section WrapperNoise.
Variable lg : positive -> Z -> float.

(** With a noise distribution, the image written for the external program
    (in the linear scale and without offset) has the shape of the input and
    holds no NaN when the samples hold none: the NaN pixels are filled with
    samples, the other pixels are the ones of the input. *)
Theorem wavelet_noise_fills_nan (p : params) (rvs : nat -> list float) (g : grid float) :
  noise_distribution p = Some rvs ->
  (forall n, length (rvs n) = n /\ Forall (fun v => isnan v = false) (rvs n)) ->
  input_image_scale p = "linear" ->
  offset_after_calibration p = None ->
  exists written,
    WaveletTransform.prepare lg p g (map2 isnan g) = Ok written
    /\ shape2 written = shape2 g
    /\ (forall i j y, get2 written i j = Some y -> isnan y = false)
    /\ (forall i j x, get2 g i j = Some x -> isnan x = false -> get2 written i j = Some x).
Proof.
  intros Hrvs Hok Hscale Hoff.
  set (n := count_nonzero (map2 isnan g)).
  assert (WaveletTransform.prepare lg p g (map2 isnan g)
          = Ok (put_rows g (map2 isnan g) (rvs n))) as Hw.
  { unfold WaveletTransform.prepare, assign_masked. rewrite Hrvs, Hoff, Hscale. fold n.
    rewrite (proj1 (Hok n)), Nat.eqb_refl. reflexivity. }
  exists (put_rows g (map2 isnan g) (rvs n)). split; [exact Hw|].
  destruct (put_rows_spec g (map2 isnan g) (rvs n)) as [Hs Hkeep].
  split; [exact Hs|]. split.
  - intros i j y Hy.
    pose proof (WaveletNoise.put_rows_noise g (rvs n)) as Hall.
    unfold get2 in Hy.
    destruct (put_rows g (map2 isnan g) (rvs n) !! i) as [row|] eqn:Hr; [|discriminate].
    refine (Forall_lookup_1 _ _ _ _ (Forall_lookup_1 _ _ _ _ (Hall _ _) Hr) Hy).
    + fold n. now rewrite (proj1 (Hok n)).
    + apply Hok.
  - intros i j x Hx Hn. rewrite Hkeep; [exact Hx|].
    now rewrite get2_nan_mask, Hx, <- Hn.
Qed.
End WrapperNoise.

Lemma wavelet_noise_fills_nan_witness :
  exists written,
    WaveletTransform.prepare no_libm_lg noise_params [[of_Z 5; nan]; [nan; of_Z (-2)]]
      (map2 isnan [[of_Z 5; nan]; [nan; of_Z (-2)]]) = Ok written
    /\ shape2 written = shape2 [[of_Z 5; nan]; [nan; of_Z (-2)]]
    /\ (forall i j y, get2 written i j = Some y -> isnan y = false)
    /\ (forall i j x, get2 [[of_Z 5; nan]; [nan; of_Z (-2)]] i j = Some x ->
                      isnan x = false -> get2 written i j = Some x).
Proof.
  apply (wavelet_noise_fills_nan no_libm_lg noise_params sevens).
  - reflexivity.
  - intros n. split; [apply length_replicate|]. apply Forall_replicate. reflexivity.
  - reflexivity.
  - reflexivity.
Defined.

(** ** The converter of camera images *)

Module GeometryFacts.
Import GeometryConverter.

(** *** The numpy operations commute with a function on the entries *)

Lemma reshape_fmap {A B : Type} (f : A -> B) (rows cols : nat) (a : list A) :
  reshape rows cols (f <$> a) = map2 f (reshape rows cols a).
Proof.
  revert a. induction rows as [|r IH]; intros a; [reflexivity|].
  cbn [reshape]. unfold map2 in *. rewrite fmap_cons, <- fmap_take, <- IH, <- fmap_drop.
  reflexivity.
Qed.

Lemma ravel_map2 {A B : Type} (f : A -> B) (g : grid A) :
  ravel (map2 f g) = f <$> ravel g.
Proof.
  unfold ravel, map2. induction g as [|row g IH]; [reflexivity|].
  rewrite fmap_cons. simpl. now rewrite fmap_app, IH.
Qed.

Lemma flip_rows_map2 {A B : Type} (f : A -> B) (g : grid A) :
  flip_rows (map2 f g) = map2 f (flip_rows g).
Proof. unfold flip_rows, map2. now rewrite fmap_reverse. Qed.

Lemma slice2_map2 {A B : Type} (f : A -> B) (r0 r1 c0 c1 : nat) (g : grid A) :
  slice2 r0 r1 c0 c1 (map2 f g) = map2 f (slice2 r0 r1 c0 c1 g).
Proof.
  unfold slice2, map2. rewrite <- fmap_drop, <- fmap_take, <- !list_fmap_compose.
  apply list_fmap_ext. intros _ row _. simpl. now rewrite fmap_take, fmap_drop.
Qed.

Lemma module_of_map2 {A B : Type} (f : A -> B) (g : grid A) (r c : nat) :
  module_of (map2 f g) r c = f <$> module_of g r c.
Proof. unfold module_of. now rewrite slice2_map2, flip_rows_map2, ravel_map2. Qed.

Lemma array_2d_to_astri_map2 {A B : Type} (f : A -> B) (g : grid A) :
  array_2d_to_astri (map2 f g) = f <$> array_2d_to_astri g.
Proof.
  unfold array_2d_to_astri. rewrite !module_of_map2.
  change (concat ?l) with (ravel l).
  rewrite <- ravel_map2. reflexivity.
Qed.

(** Two functions that agree on the entries of a grid. *)
Lemma map2_ext_Forall {A B : Type} (P : A -> Prop) (f h : A -> B) (g : grid A) :
  (forall x, P x -> f x = h x) -> Forall (Forall P) g -> map2 f g = map2 h g.
Proof.
  intros Hfh Hg. unfold map2. apply Forall_fmap_ext_1.
  eapply Forall_impl; [exact Hg|]. intros row Hrow. apply Forall_fmap_ext_1.
  eapply Forall_impl; [exact Hrow|]. exact Hfh.
Qed.

Lemma Forall_grid_forallb {A : Type} (q : A -> bool) (g : grid A) :
  forallb (forallb q) g = true -> Forall (Forall (fun x => q x = true)) g.
Proof.
  intros H. apply Forall_forall. intros row Hrow. apply Forall_forall. intros x Hx.
  rewrite forallb_forall in H. apply list_elem_of_In in Hrow. specialize (H row Hrow).
  rewrite forallb_forall in H. apply H. now apply list_elem_of_In.
Qed.

(** *** Indexing *)

Lemma extend_with_nan_eq (img : list float) : extend_with_nan img = img ++ [nan].
Proof.
  unfold extend_with_nan, upd_but_last, but_last.
  rewrite length_replicate, drop_replicate.
  replace (length img + 1 - (length img + 1 - 1)) with 1 by lia.
  rewrite length_app. simpl. f_equal.
  replace (length img + 1 - 1) with (length img) by lia.
  now rewrite take_app_length.
Qed.

Lemma py_index_in_bounds {A : Type} (a : list A) (k : Z) :
  in_bounds (Z.of_nat (length a)) k = true -> is_Some (py_index a k).
Proof.
  unfold in_bounds, py_index. intros H. apply andb_true_iff in H as [H1 H2].
  apply Z.leb_le in H1. apply Z.ltb_lt in H2. rewrite (proj2 (Z.leb_le _ _) H1).
  destruct (0 <=? k)%Z eqn:E; apply lookup_lt_is_Some.
  - apply Z.leb_le in E. lia.
  - apply Z.leb_gt in E. lia.
Qed.

Lemma take_indices_ok (a : list float) (idx : list Z) :
  forallb (in_bounds (Z.of_nat (length a))) idx = true ->
  take_indices a idx = Ok (entry a <$> idx).
Proof.
  intros H. unfold take_indices.
  assert (mapM (py_index a) idx = Some (entry a <$> idx)) as ->; [|reflexivity].
  induction idx as [|k idx IH]; [reflexivity|].
  simpl in H. apply andb_true_iff in H as [Hk H].
  destruct (py_index_in_bounds a k Hk) as [x Hx].
  change (mapM (py_index a) (k :: idx))
    with (y ← py_index a k; l ← mapM (py_index a) idx; mret (y :: l)).
  assert (entry a k = x) as Hk' by (unfold entry; now rewrite Hx).
  rewrite Hx, (IH H), fmap_cons, Hk'. reflexivity.
Qed.

(** The entries of the extended image: the pixels, then NaN, which the
    index [-1] reads. *)
Lemma entry_pixel (img : list float) (k : Z) :
  (0 <= k < Z.of_nat (length img))%Z ->
  entry (img ++ [nan]) k = entry img k
  /\ img !! Z.to_nat k = Some (entry img k).
Proof.
  intros Hk. unfold entry, py_index.
  rewrite (proj2 (Z.leb_le 0 k)) by lia.
  rewrite lookup_app_l by lia.
  destruct (lookup_lt_is_Some_2 img (Z.to_nat k)) as [x ->]; [lia|]. auto.
Qed.

Lemma entry_last (img : list float) : entry (img ++ [nan]) (-1) = nan.
Proof.
  unfold entry, py_index. rewrite length_app. simpl length.
  replace (0 <=? -1)%Z with false by reflexivity.
  rewrite (proj2 (Z.leb_le _ _)) by lia.
  replace (Z.to_nat (Z.of_nat (length img + 1) + -1)) with (length img) by lia.
  rewrite lookup_app_r, Nat.sub_diag by lia. reflexivity.
Qed.

Lemma entry_arange (img : list float) :
  entry img <$> arange (length img) = img.
Proof.
  apply list_eq. intros i. unfold arange. rewrite <- list_fmap_compose, list_lookup_fmap.
  destruct (decide (i < length img)) as [Hi|Hi].
  - rewrite lookup_seq_lt by exact Hi. simpl.
    destruct (entry_pixel img (Z.of_nat i)) as [_ H]; [lia|].
    rewrite Nat2Z.id in H. now rewrite H.
  - rewrite lookup_seq_ge by lia. simpl. symmetry. apply lookup_ge_None_2. lia.
Qed.
End GeometryFacts.

Module GeometryMaps.
Import GeometryConverter GeometryFacts.

Lemma grid_has_shape {A : Type} (h w : nat) (g : grid A) :
  shape2 g = replicate h w -> has_shape 2 [h; w] g.
Proof.
  intros H. apply (has_shape_rows 0). split; [exact H|].
  apply Forall_forall. intros row _. apply Forall_forall. intros x _. exact I.
Qed.

(** *** The ASTRI maps *)

Lemma astri_map_bounds : forallb (in_bounds 2369) (ravel astri_img_map) = true.
Proof. vm_compute. reflexivity. Qed.

Lemma astri_map_reshape : reshape (8 * 7) (8 * 7) (ravel astri_img_map) = astri_img_map.
Proof. vm_compute. reflexivity. Qed.

Lemma astri_map_shape : shape2 astri_img_map = replicate 56 56.
Proof. vm_compute. reflexivity. Qed.

(** Read module by module, the map counts the pixels. *)
Lemma astri_map_back : array_2d_to_astri astri_img_map = arange (37 * 64).
Proof. vm_compute. reflexivity. Qed.

(** An entry of the map is [-1] or the number of a pixel. *)
Lemma astri_map_entries :
  forallb (forallb (fun k => (k =? -1)%Z || ((0 <=? k)%Z && (k <? 2368)%Z))) astri_img_map
  = true.
Proof. vm_compute. reflexivity. Qed.

Lemma astri_map_mask : mask_of_map astri_img_map = astri_pixel_mask false.
Proof. vm_compute. reflexivity. Qed.

Lemma astri_crop_map_bounds : forallb (in_bounds 2368) (ravel astri_crop_img_map) = true.
Proof. vm_compute. reflexivity. Qed.

Lemma astri_crop_map_reshape :
  reshape (8 * 5) (8 * 5) (ravel astri_crop_img_map) = astri_crop_img_map.
Proof. vm_compute. reflexivity. Qed.

Lemma astri_crop_map_shape : shape2 astri_crop_img_map = replicate 40 40.
Proof. vm_compute. reflexivity. Qed.

Lemma astri_crop_map_entries :
  forallb (forallb (fun k => (0 <=? k)%Z && (k <? 2368)%Z)) astri_crop_img_map = true.
Proof. vm_compute. reflexivity. Qed.

(** The map of the cropped image is the middle of the other map. *)
Lemma astri_crop_map_window : slice2 8 48 8 48 astri_img_map = astri_crop_img_map.
Proof. vm_compute. reflexivity. Qed.

Lemma astri_crop_map_mask : mask_of_map astri_crop_img_map = astri_pixel_mask true.
Proof. vm_compute. reflexivity. Qed.

(** *** The GCT map *)

Lemma gct_map_bounds : forallb (in_bounds 2049) (ravel gct_img_map) = true.
Proof. vm_compute. reflexivity. Qed.

Lemma gct_map_reshape : reshape (8 * 6) (8 * 6) (ravel gct_img_map) = gct_img_map.
Proof. vm_compute. reflexivity. Qed.

Lemma gct_map_shape : shape2 gct_img_map = replicate 48 48.
Proof. vm_compute. reflexivity. Qed.

Lemma gct_map_entries :
  forallb (forallb (fun k => (k =? -1)%Z || ((0 <=? k)%Z && (k <? 2048)%Z))) gct_img_map
  = true.
Proof. vm_compute. reflexivity. Qed.

(** In row-major order, the map counts the pixels and skips the corners. *)
Lemma gct_map_back :
  filter (fun k => (0 <=? k)%Z = true) (ravel gct_img_map) = arange 2048.
Proof. vm_compute. reflexivity. Qed.

Lemma gct_map_mask : mask_of_map gct_img_map = gct_pixel_mask.
Proof. vm_compute. reflexivity. Qed.

(** *** The conversions, as maps read entry by entry *)

Lemma astri_to_2d_array_no_crop_eq (img : list float) :
  length img = 37 * 64 ->
  astri_to_2d_array_no_crop img = Ok (map2 (entry (img ++ [nan])) astri_img_map).
Proof.
  intros H. unfold astri_to_2d_array_no_crop. rewrite H, Nat.eqb_refl. cbn [negb].
  rewrite extend_with_nan_eq, take_indices_ok.
  - now rewrite reshape_fmap, astri_map_reshape.
  - rewrite length_app, H. exact astri_map_bounds.
Qed.

Lemma astri_to_2d_array_crop_eq (img : list float) :
  length img = 37 * 64 ->
  astri_to_2d_array_crop img = Ok (map2 (entry img) astri_crop_img_map).
Proof.
  intros H. unfold astri_to_2d_array_crop. rewrite H, Nat.eqb_refl. cbn [negb].
  rewrite take_indices_ok.
  - now rewrite reshape_fmap, astri_crop_map_reshape.
  - rewrite H. exact astri_crop_map_bounds.
Qed.

Lemma gct_to_2d_array_eq (img : list float) :
  length img = 2048 ->
  gct_to_2d_array img = Ok (map2 (entry (img ++ [nan])) gct_img_map).
Proof.
  intros H. unfold gct_to_2d_array. rewrite H, Nat.eqb_refl. cbn [negb].
  rewrite extend_with_nan_eq, take_indices_ok.
  - now rewrite reshape_fmap, gct_map_reshape.
  - rewrite length_app, H. exact gct_map_bounds.
Qed.

(** The mask of an image read through a map, when the pixels hold no NaN. *)
Lemma mask_of_image_map (n : Z) (img : list float) (img_map : grid Z) :
  Z.of_nat (length img) = n ->
  Forall (fun x => isnan x = false) img ->
  forallb (forallb (fun k => (k =? -1)%Z || ((0 <=? k)%Z && (k <? n)%Z))) img_map = true ->
  mask_of_image (map2 (entry (img ++ [nan])) img_map) = mask_of_map img_map.
Proof.
  intros Hn Himg Hmap. unfold mask_of_image, mask_of_map. rewrite map2_map2.
  eapply map2_ext_Forall; [|exact (Forall_grid_forallb _ _ Hmap)].
  intros k Hk. cbv beta in Hk. apply orb_true_iff in Hk as [Hk|Hk].
  - apply Z.eqb_eq in Hk. subst k. now rewrite entry_last.
  - apply andb_true_iff in Hk as [H0 H1]. apply Z.leb_le in H0. apply Z.ltb_lt in H1.
    destruct (entry_pixel img k) as [-> Hx]; [lia|].
    rewrite (Forall_lookup_1 _ _ _ _ Himg Hx).
    now rewrite (proj2 (Z.ltb_ge k 0)) by lia.
Qed.
End GeometryMaps.

Module GeometryTrips.
Import GeometryConverter GeometryFacts GeometryMaps.

Lemma entry_ext_arange (img : list float) :
  entry (img ++ [nan]) <$> arange (length img) = img.
Proof.
  rewrite <- (entry_arange img) at 3. unfold arange.
  rewrite <- !list_fmap_compose. apply Forall_fmap_ext_1, Forall_forall.
  intros i Hi. apply elem_of_seq in Hi. simpl.
  destruct (entry_pixel img (Z.of_nat i)) as [H _]; [lia|exact H].
Qed.

(** Filtering after reading a map skips the entries whose image fails
    the filter. *)
Lemma filter_fmap_skip {A B : Type} (P : B -> Prop) `{forall y, Decision (P y)}
    (q : A -> bool) (f : A -> B) (l : list A) :
  Forall (fun k => q k = false -> ~ P (f k)) l ->
  filter P (f <$> l) = filter P (f <$> filter (fun k => q k = true) l).
Proof.
  induction 1 as [|k l Hk _ IH]; [reflexivity|].
  rewrite fmap_cons. destruct (q k) eqn:Hq.
  - rewrite (filter_cons_True (fun k => q k = true)) by exact Hq.
    rewrite fmap_cons, !filter_cons. now rewrite IH.
  - rewrite (filter_cons_False (fun k => q k = true)) by congruence.
    rewrite filter_cons_False by auto. exact IH.
Qed.

Lemma Forall_ravel_forallb {A : Type} (q : A -> bool) (g : grid A) :
  forallb (forallb q) g = true -> Forall (fun x => q x = true) (ravel g).
Proof.
  intros H. apply Forall_concat. exact (Forall_grid_forallb q g H).
Qed.

Lemma astri_round_trip_eq (img : list float) :
  length img = 37 * 64 ->
  array_2d_to_astri (map2 (entry (img ++ [nan])) astri_img_map) = img.
Proof.
  intros H. rewrite array_2d_to_astri_map2, astri_map_back, <- H. apply entry_ext_arange.
Qed.

Lemma gct_round_trip_eq (img : list float) :
  length img = 2048 ->
  array_2d_to_gct (map2 (entry (img ++ [nan])) gct_img_map)
  = filter (fun x => isfinite x = true) img.
Proof.
  intros H. unfold array_2d_to_gct. rewrite ravel_map2.
  rewrite (filter_fmap_skip _ (fun k => (0 <=? k)%Z)).
  - rewrite gct_map_back, <- H. now rewrite entry_ext_arange.
  - eapply Forall_impl; [exact (Forall_ravel_forallb _ _ gct_map_entries)|].
    intros k Hk Hneg. cbv beta in Hk. apply orb_true_iff in Hk as [Hk|Hk].
    + apply Z.eqb_eq in Hk. subst k. rewrite entry_last. discriminate.
    + rewrite Hneg in Hk. discriminate.
Qed.

Lemma filter_all {A : Type} (P : A -> Prop) `{forall x, Decision (P x)} (l : list A) :
  Forall P l -> filter P l = l.
Proof.
  induction 1 as [|x l Hx _ IH]; [reflexivity|].
  now rewrite filter_cons_True, IH by exact Hx.
Qed.

Lemma mask_of_image_crop (img : list float) :
  length img = 37 * 64 ->
  Forall (fun x => isnan x = false) img ->
  mask_of_image (map2 (entry img) astri_crop_img_map) = mask_of_map astri_crop_img_map.
Proof.
  intros Hn Himg. unfold mask_of_image, mask_of_map. rewrite map2_map2.
  eapply map2_ext_Forall; [|exact (Forall_grid_forallb _ _ astri_crop_map_entries)].
  intros k Hk. cbv beta in Hk.
  apply andb_true_iff in Hk as [H0 H1]. apply Z.leb_le in H0. apply Z.ltb_lt in H1.
  destruct (entry_pixel img k) as [_ Hx]; [lia|].
  rewrite (Forall_lookup_1 _ _ _ _ Himg Hx).
  now rewrite (proj2 (Z.ltb_ge k 0)) by lia.
Qed.

Lemma crop_window_eq (img : list float) :
  length img = 37 * 64 ->
  map2 (entry img) astri_crop_img_map
  = slice2 8 48 8 48 (map2 (entry (img ++ [nan])) astri_img_map).
Proof.
  intros Hn. rewrite slice2_map2, astri_crop_map_window. symmetry.
  eapply map2_ext_Forall; [|exact (Forall_grid_forallb _ _ astri_crop_map_entries)].
  intros k Hk. cbv beta in Hk.
  apply andb_true_iff in Hk as [H0 H1]. apply Z.leb_le in H0. apply Z.ltb_lt in H1.
  destruct (entry_pixel img k) as [H _]; [lia|exact H].
Qed.
End GeometryTrips.

Import GeometryConverter.

(** An ASTRI image has 37 modules of 64 pixels: an array of another
    length is refused with ValueError, and an array of that length gives a
    grid of 56 x 56 pixels, or of 40 x 40 when cropped. *)
Theorem astri_to_2d_array_layout (input_img : list float) (crop : bool) :
  if (length input_img =? 37 * 64)%nat
  then exists img_2d, astri_to_2d_array input_img crop = Ok img_2d
                      /\ has_shape 2 (if crop then [40; 40] else [56; 56]) img_2d
  else astri_to_2d_array input_img crop = Raise ValueError.
Proof.
  destruct (length input_img =? 37 * 64)%nat eqn:E.
  - apply Nat.eqb_eq in E. destruct crop; cbn [astri_to_2d_array].
    + rewrite GeometryMaps.astri_to_2d_array_crop_eq by exact E.
      eexists. split; [reflexivity|]. apply GeometryMaps.grid_has_shape.
      rewrite shape2_map. exact GeometryMaps.astri_crop_map_shape.
    + rewrite GeometryMaps.astri_to_2d_array_no_crop_eq by exact E.
      eexists. split; [reflexivity|]. apply GeometryMaps.grid_has_shape.
      rewrite shape2_map. exact GeometryMaps.astri_map_shape.
  - unfold astri_to_2d_array, astri_to_2d_array_crop, astri_to_2d_array_no_crop.
    rewrite E. now destruct crop.
Qed.

(** Laying an ASTRI image out on the grid and reading the grid back gives
    the image: every pixel, NaN and infinite ones included, at its place. *)
Theorem astri_round_trip (input_img : list float) :
  length input_img = 37 * 64 ->
  exists img_2d, astri_to_2d_array input_img false = Ok img_2d
                 /\ array_2d_to_astri img_2d = input_img.
Proof.
  intros H. cbn [astri_to_2d_array].
  rewrite GeometryMaps.astri_to_2d_array_no_crop_eq by exact H.
  eexists. split; [reflexivity|]. now apply GeometryTrips.astri_round_trip_eq.
Qed.

Lemma astri_round_trip_witness :
  exists img_2d, astri_to_2d_array (ramp (37 * 64)) false = Ok img_2d
                 /\ array_2d_to_astri img_2d = ramp (37 * 64).
Proof.
  apply (astri_round_trip (ramp (37 * 64))). reflexivity.
Defined.

(** The cropped ASTRI image is the window of rows and columns 8 to 47 of
    the full one. *)
Theorem astri_crop_is_window (input_img : list float) :
  length input_img = 37 * 64 ->
  exists img_2d cropped_img,
    astri_to_2d_array input_img false = Ok img_2d
    /\ astri_to_2d_array input_img true = Ok cropped_img
    /\ cropped_img = slice2 8 48 8 48 img_2d.
Proof.
  intros H. cbn [astri_to_2d_array].
  rewrite GeometryMaps.astri_to_2d_array_no_crop_eq,
    GeometryMaps.astri_to_2d_array_crop_eq by exact H.
  eexists _, _. split; [reflexivity|]. split; [reflexivity|].
  now apply GeometryTrips.crop_window_eq.
Qed.

Lemma astri_crop_is_window_witness :
  exists img_2d cropped_img,
    astri_to_2d_array (ramp (37 * 64)) false = Ok img_2d
    /\ astri_to_2d_array (ramp (37 * 64)) true = Ok cropped_img
    /\ cropped_img = slice2 8 48 8 48 img_2d.
Proof.
  apply (astri_crop_is_window (ramp (37 * 64))). reflexivity.
Defined.

(** [astri_pixel_mask] marks the pixels of the grid that come from the
    camera: when the image holds no NaN, the grid holds NaN exactly where
    the mask is [0]. *)
Theorem astri_pixel_mask_marks_pixels (input_img : list float) (crop : bool) :
  length input_img = 37 * 64 ->
  Forall (fun x => isnan x = false) input_img ->
  exists img_2d, astri_to_2d_array input_img crop = Ok img_2d
                 /\ mask_of_image img_2d = astri_pixel_mask crop.
Proof.
  intros H Hn. destruct crop; cbn [astri_to_2d_array].
  - rewrite GeometryMaps.astri_to_2d_array_crop_eq by exact H.
    eexists. split; [reflexivity|].
    rewrite GeometryTrips.mask_of_image_crop by assumption.
    exact GeometryMaps.astri_crop_map_mask.
  - rewrite GeometryMaps.astri_to_2d_array_no_crop_eq by exact H.
    eexists. split; [reflexivity|].
    rewrite (GeometryMaps.mask_of_image_map 2368 input_img _ (f_equal Z.of_nat H) Hn
               GeometryMaps.astri_map_entries).
    exact GeometryMaps.astri_map_mask.
Qed.

Lemma astri_pixel_mask_marks_pixels_witness :
  exists img_2d, astri_to_2d_array (replicate (37 * 64) one) false = Ok img_2d
                 /\ mask_of_image img_2d = astri_pixel_mask false.
Proof.
  apply (astri_pixel_mask_marks_pixels (replicate (37 * 64) one) false).
  - apply length_replicate.
  - apply Forall_replicate. reflexivity.
Defined.

(** A GCT image has 2048 pixels: an array of another length is refused
    with ValueError, and an array of that length gives a grid of 48 x 48
    pixels. *)
Theorem gct_to_2d_array_layout (input_img : list float) :
  if (length input_img =? 2048)%nat
  then exists img_2d, gct_to_2d_array input_img = Ok img_2d
                      /\ has_shape 2 [48; 48] img_2d
  else gct_to_2d_array input_img = Raise ValueError.
Proof.
  destruct (length input_img =? 2048)%nat eqn:E.
  - apply Nat.eqb_eq in E. rewrite GeometryMaps.gct_to_2d_array_eq by exact E.
    eexists. split; [reflexivity|]. apply GeometryMaps.grid_has_shape.
    rewrite shape2_map. exact GeometryMaps.gct_map_shape.
  - unfold gct_to_2d_array. now rewrite E.
Qed.

(** Reading a GCT grid back keeps the finite pixels only, in their order:
    it gives the image when all its pixels are finite, and a shorter array
    when a pixel is NaN or infinite. *)
Theorem gct_round_trip (input_img : list float) :
  length input_img = 2048 ->
  exists img_2d, gct_to_2d_array input_img = Ok img_2d
                 /\ array_2d_to_gct img_2d = filter (fun x => isfinite x = true) input_img
                 /\ (Forall (fun x => isfinite x = true) input_img ->
                     array_2d_to_gct img_2d = input_img).
Proof.
  intros H. rewrite GeometryMaps.gct_to_2d_array_eq by exact H.
  eexists. split; [reflexivity|].
  rewrite GeometryTrips.gct_round_trip_eq by exact H. split; [reflexivity|].
  apply GeometryTrips.filter_all.
Qed.

Lemma gct_round_trip_witness :
  exists img_2d, gct_to_2d_array (ramp 2048) = Ok img_2d
                 /\ array_2d_to_gct img_2d = filter (fun x => isfinite x = true) (ramp 2048)
                 /\ (Forall (fun x => isfinite x = true) (ramp 2048) ->
                     array_2d_to_gct img_2d = ramp 2048).
Proof.
  apply (gct_round_trip (ramp 2048)). reflexivity.
Defined.

(** [gct_pixel_mask] marks the pixels of the grid that come from the
    camera: when the image holds no NaN, the grid holds NaN exactly where
    the mask is [0]. *)
Theorem gct_pixel_mask_marks_pixels (input_img : list float) :
  length input_img = 2048 ->
  Forall (fun x => isnan x = false) input_img ->
  exists img_2d, gct_to_2d_array input_img = Ok img_2d
                 /\ mask_of_image img_2d = gct_pixel_mask.
Proof.
  intros H Hn. rewrite GeometryMaps.gct_to_2d_array_eq by exact H.
  eexists. split; [reflexivity|].
  rewrite (GeometryMaps.mask_of_image_map 2048 input_img _ (f_equal Z.of_nat H) Hn
             GeometryMaps.gct_map_entries).
  exact GeometryMaps.gct_map_mask.
Qed.

Lemma gct_pixel_mask_marks_pixels_witness :
  exists img_2d, gct_to_2d_array (replicate 2048 one) = Ok img_2d
                 /\ mask_of_image img_2d = gct_pixel_mask.
Proof.
  apply (gct_pixel_mask_marks_pixels (replicate 2048 one)).
  - apply length_replicate.
  - apply Forall_replicate. reflexivity.
Defined.

(** ** The command line and the temporary paths *)

Module CommandFacts.
Import CommandLine.

Lemma append_cons (x : Ascii.ascii) (a b : string) :
  String x a +:+ b = String x (a +:+ b).
Proof. reflexivity. Qed.

Lemma append_nil_l (a : string) : EmptyString +:+ a = a.
Proof. reflexivity. Qed.

Lemma append_assoc (a b c : string) : (a +:+ b) +:+ c = a +:+ (b +:+ c).
Proof.
  induction a as [|x a IH]; [reflexivity|]. now rewrite !append_cons, IH.
Qed.

Lemma append_nil_r (a : string) : a +:+ EmptyString = a.
Proof.
  induction a as [|x a IH]; [reflexivity|]. now rewrite append_cons, IH.
Qed.

Lemma length_append (a b : string) :
  String.length (a +:+ b) = String.length a + String.length b.
Proof.
  induction a as [|x a IH]; [reflexivity|]. rewrite append_cons. simpl. now rewrite IH.
Qed.

Lemma append_inj_l (p a b : string) : p +:+ a = p +:+ b -> a = b.
Proof.
  induction p as [|x p IH]; [auto|]. rewrite !append_cons. intros [= H]. auto.
Qed.

(** No string ends both with [_in.fits] and with [_out.fits]. *)
Lemma suffixes_distinct (s1 s2 : string) : s1 +:+ "_in.fits" <> s2 +:+ "_out.fits".
Proof.
  revert s1. induction s2 as [|c2 s2 IH]; intros s1 H.
  - pose proof (f_equal String.length H) as Hl. rewrite !length_append in Hl. simpl in Hl.
    destruct s1 as [|c1 [|? ?]]; simpl in Hl; try lia.
    rewrite append_cons, !append_nil_l in H. discriminate H.
  - destruct s1 as [|c1 s1].
    + pose proof (f_equal String.length H) as Hl.
      rewrite !length_append in Hl. simpl in Hl. lia.
    + rewrite !append_cons in H. injection H as _ H. exact (IH s1 H).
Qed.

Lemma path_join_relative (a b b' : string) :
  starts_with_sep b = false -> starts_with_sep b' = false ->
  path_join a b = path_join a b' -> b = b'.
Proof.
  unfold path_join. intros -> ->.
  destruct (String.eqb a EmptyString || ends_with_sep a).
  - apply append_inj_l.
  - intros H. apply append_inj_l in H. rewrite !append_cons, !append_nil_l in H.
    now injection H.
Qed.
(** The two temporary paths differ. *)
Lemma path_join_relative_distinct (repr_float : float -> string) (dir : string) (pid : Z)
    (t1 t2 : float) :
  CommandLine.input_file_path repr_float dir pid t1
  <> CommandLine.mr_output_file_path repr_float dir pid t2.
Proof.
  unfold CommandLine.input_file_path, CommandLine.mr_output_file_path. intros H.
  apply path_join_relative in H; [|reflexivity|reflexivity].
  apply (append_inj_l ".tmp_") in H.
  apply append_inj_l in H.
  apply (append_inj_l "_") in H.
  exact (suffixes_distinct _ _ H).
Qed.
End CommandFacts.

Section Commands.
Import CommandLine.
Variable repr_float : float -> string.

(** The two temporary files never have the same path, whatever the
    directory, the process id and the two readings of the clock. *)
Theorem temporary_paths_distinct (tmp_files_directory : string) (pid : Z) (t1 t2 : float) :
  CommandLine.input_file_path repr_float tmp_files_directory pid t1
  <> CommandLine.mr_output_file_path repr_float tmp_files_directory pid t2.
Proof.
  apply CommandFacts.path_join_relative_distinct.
Qed.

(** With [raw_option_string], the command is the program, the string as
    it is and the two paths between double quotes: no keyword argument adds
    a flag, not even [verbose], which only decides whether the output goes to
    [/dev/null]. *)
Theorem raw_option_string_replaces_flags (o : options) (raw input output : string) :
  raw_option_string o = Some raw ->
  mr_filter_command repr_float o input output
  = program o +:+ " " +:+ raw
    +:+ " " +:+ double_quote +:+ input +:+ double_quote
    +:+ " " +:+ double_quote +:+ output +:+ double_quote
    +:+ (if verbose o then EmptyString else " > /dev/null").
Proof.
  intros H. unfold mr_filter_command. rewrite H.
  destruct (verbose o); rewrite !CommandFacts.append_assoc;
    rewrite ?CommandFacts.append_nil_r; reflexivity.
Qed.

(** With [number_of_scales] and [suppress_last_scale] alone, the command
    is [mr_filter -n<N> -K], the two paths between double quotes and the
    redirection of the output. *)
Theorem command_with_scales_and_suppress (n : Z) (input output : string) :
  mr_filter_command repr_float
    (Options None None None (Some (PyInt n)) true false None None None false false
       None None None None None None None false None None) input output
  = "mr_filter -n" +:+ pretty n +:+ " -K"
    +:+ " " +:+ double_quote +:+ input +:+ double_quote
    +:+ " " +:+ double_quote +:+ output +:+ double_quote
    +:+ " > /dev/null".
Proof.
  unfold mr_filter_command, program, flag, switch, format. cbn [mrfilter_directory
    raw_option_string type_of_multiresolution_transform type_of_filters
    type_of_non_orthog_filters number_of_scales CommandLine.suppress_last_scale
    suppress_isolated_pixels coef_detection_method k_sigma_noise_threshold noise_model
    detect_only_positive_structure suppress_positivity_constraint type_of_filtering
    first_detection_scale number_of_iterations epsilon support_file_name precision
    mask_file_path verbose].
  rewrite !CommandFacts.append_nil_r, !CommandFacts.append_assoc. reflexivity.
Qed.
End Commands.

Lemma raw_option_string_replaces_flags_witness :
  CommandLine.mr_filter_command CommandLine.repr_stub
    (CommandLine.Options None None None (Some (CommandLine.PyInt 4)) true false None None None
       false false None None None None None None None true (Some "-K -k -C1 -s3 -m3 -n4")
       None) "in.fits" "out.fits"
  = "mr_filter" +:+ " " +:+ "-K -k -C1 -s3 -m3 -n4"
    +:+ " " +:+ CommandLine.double_quote +:+ "in.fits" +:+ CommandLine.double_quote
    +:+ " " +:+ CommandLine.double_quote +:+ "out.fits" +:+ CommandLine.double_quote
    +:+ EmptyString.
Proof.
  apply (raw_option_string_replaces_flags CommandLine.repr_stub). reflexivity.
Defined.

(** ** The whole call and its report *)

Module FullCallFacts.
Import CommandLine FullCall.

Section Libm.
Variable lg : positive -> Z -> float.
Variable pw10 pw2 : float -> float.

(** [WaveletTransform.finish] stops at the image of the island statistics
    and then applies the isolated-pixel filter. *)
Lemma finish_before_islands (sys : system) (kw : keywords) (c : grid float)
    (mask : grid bool) :
  WaveletTransform.finish pw10 pw2 (environment_of sys kw) (call_params sys kw) c mask
  = match before_islands pw10 pw2 kw c mask with
    | Ok img => Ok (if FullCall.kill_isolated_pixels kw
                    then FullCall.scipy_kill_isolated_pixels sys img else img)
    | Raise e => Raise e
    end.
Proof.
  unfold WaveletTransform.finish, before_islands, call_params, params_of, environment_of.
  cbn [WaveletTransform.input_image_scale WaveletTransform.offset_after_calibration
       WaveletTransform.suppress_last_scale WaveletTransform.correction_offset
       WaveletTransform.kill_isolated_pixels WaveletTransform.scipy_kill_isolated_pixels].
  destruct (set_nan c mask) as [img|e]; [|reflexivity].
  destruct (FullCall.correction_offset kw); [|reflexivity].
  now destruct (apply_correction_offset _).
Qed.

(** The run of the whole call on a two-dimensional array, step by step:
    the state it ends in and what it returns or raises. *)
Lemma full_call_2d (sys : system) (kw : keywords) (g : grid float) (st : state) :
  let input := CommandLine.input_file_path (repr_float sys) (tmp_files_directory kw)
                 (getpid sys) (time_in sys) in
  let output := CommandLine.mr_output_file_path (repr_float sys) (tmp_files_directory kw)
                  (getpid sys) (time_out sys) in
  let n := readings st in
  let timing := fun k => PyFloat (sub (perf_counter sys (S k)) (perf_counter sys k)) in
  let d0 := (fun d =>
      let d := <["mr_input_tmp_file_path" := PyStr input]> d in
      let d := <["mr_output_tmp_file_path" := PyStr output]> d in
      match mask_file_path (command_options kw) with
      | Some path => <["mr_mask_file_path" := path]> d
      | None => d
      end) <$> output_data_dict st in
  let d1 := (fun d => <["save_tmp_file_time_sec" := timing n]> d) <$> d0 in
  let d2 := (fun d => <["mrfilter_cmd_exec_time_sec" := timing (2 + n)]> d) <$> d1 in
  let d3 := (fun d => <["load_tmp_file_time_sec" := timing (4 + n)]> d) <$> d2 in
  FullCall.clean_image lg pw10 pw2 sys kw (NdArray 2 g) st
  = match WaveletTransform.prepare lg (call_params sys kw) g (map2 isnan g) with
    | Raise e => (State (files st) d0 n, Raise e)
    | Ok img =>
        if FullCall.writable sys input then
          let fs2 := shell sys (mr_filter_command (repr_float sys) (command_options kw)
                                  input output)
                       (<[input := Fits (NdArray 2 img)]> (files st)) in
          match fs2 !! output with
          | Some (Fits cleaned_img) =>
              match fs2 !! input with
              | Some _ =>
                  let fs3 := delete output (delete input fs2) in
                  match cleaned_img with
                  | NdArray 2 c =>
                      match before_islands pw10 pw2 kw c (map2 isnan g) with
                      | Ok out =>
                          let d4 := (fun d =>
                              <["img_cleaned_num_islands" := number_of_islands sys out]>
                              (<["img_cleaned_islands_delta_num_pixels" :=
                                   (kill_isolated_pixels_stats sys out).2]>
                              (<["img_cleaned_islands_delta_abs_pe" :=
                                   (kill_isolated_pixels_stats sys out).1.2]>
                              (<["img_cleaned_islands_delta_pe" :=
                                   (kill_isolated_pixels_stats sys out).1.1]> d))))
                            <$> d3 in
                          if FullCall.kill_isolated_pixels kw then
                            (State fs3
                               ((fun d => <["scipy_kill_isolated_pixels_time_sec" :=
                                              timing (6 + n)]> d) <$> d4)
                               (8 + n),
                             Ok (NdArray 2 (FullCall.scipy_kill_isolated_pixels sys out)))
                          else (State fs3 d4 (6 + n), Ok (NdArray 2 out))
                      | Raise e => (State fs3 d3 (6 + n), Raise e)
                      end
                  | _ => (State fs3 d3 (6 + n), Raise WrongDimensionError)
                  end
              | None => (State fs2 d3 (6 + n), Raise FileNotFoundError)
              end
          | _ => (State fs2 d2 (5 + n), Raise OSError)
          end
        else (State (files st) d0 (1 + n), Raise OSError)
    end.
Proof.
  cbv zeta. destruct st as [fs d n].
  unfold FullCall.clean_image, FullCall.bind, FullCall.record, FullCall.lift,
    FullCall.on_files, FullCall.read_perf_counter, FullCall.ret, FullCall.raise,
    images_save, os_system, images_load, os_remove, call_params.
  cbn [files output_data_dict readings].
  set (input := CommandLine.input_file_path _ _ _ _).
  set (output := CommandLine.mr_output_file_path _ _ _ _).
  assert (input <> output) as Hne.
  { unfold input, output. apply CommandFacts.path_join_relative_distinct. }
  destruct d as [d|]; cbn [fmap option_fmap option_map];
    (destruct (mask_file_path (command_options kw)) as [path|];
     cbn [fmap option_fmap option_map];
     (destruct (WaveletTransform.prepare lg _ g (map2 isnan g)) as [img|e]; [|reflexivity];
      destruct (FullCall.writable sys input); [|reflexivity];
      cbn [files output_data_dict readings fmap option_fmap option_map];
      destruct (shell sys _ _ !! output) as [[cleaned|]|] eqn:Eout; try reflexivity;
      cbn [files output_data_dict readings fmap option_fmap option_map];
      destruct (shell sys _ _ !! input) as [x|] eqn:Ein; [|reflexivity];
      cbn [files output_data_dict readings fmap option_fmap option_map];
      rewrite lookup_delete_ne, Eout by exact Hne;
      cbn [files output_data_dict readings fmap option_fmap option_map];
      destruct cleaned as [[|[|[|k]]] c]; try reflexivity;
      destruct (before_islands pw10 pw2 kw c (map2 isnan g)) as [out|e]; [|reflexivity];
      destruct (kill_isolated_pixels_stats sys out) as [[a b] m];
      cbn [files output_data_dict readings fmap option_fmap option_map fst snd];
      destruct (FullCall.kill_isolated_pixels kw); reflexivity)).
Qed.
End Libm.
End FullCallFacts.

Section Report.
Import CommandLine FullCall.
Variable lg : positive -> Z -> float.
Variable pw10 pw2 : float -> float.

(** The dictionary and the clock have no part in what the call does: it
    leaves the files and returns or raises exactly as
    [WaveletTransform.clean_image] does with the temporary paths and the
    command line built from the keyword arguments, whether the caller gave
    a dictionary or not. *)
Theorem report_changes_nothing (sys : system) (kw : keywords) (img : ndarray float)
    (st : state) :
  (files (FullCall.clean_image lg pw10 pw2 sys kw img st).1,
   (FullCall.clean_image lg pw10 pw2 sys kw img st).2)
  = WaveletTransform.clean_image lg pw10 pw2 (environment_of sys kw) (call_params sys kw)
      img (files st).
Proof.
  destruct (decide (ndim img = 2)) as [E|E].
  2:{ rewrite clean_image_not_2d by exact E.
      destruct img as [[|[|[|n]]] t]; simpl in E; try reflexivity; congruence. }
  destruct img as [n g]. simpl in E. subst n.
  rewrite FullCallFacts.full_call_2d, wavelet_clean_image_2d. cbv zeta.
  change (WaveletTransform.input_file_path (call_params sys kw))
    with (CommandLine.input_file_path (repr_float sys) (tmp_files_directory kw)
            (getpid sys) (time_in sys)).
  change (WaveletTransform.mr_output_file_path (call_params sys kw))
    with (CommandLine.mr_output_file_path (repr_float sys) (tmp_files_directory kw)
            (getpid sys) (time_out sys)).
  change (WaveletTransform.writable (environment_of sys kw)) with (FullCall.writable sys).
  change (mr_filter (environment_of sys kw))
    with (shell sys (mr_filter_command (repr_float sys) (command_options kw)
            (CommandLine.input_file_path (repr_float sys) (tmp_files_directory kw)
               (getpid sys) (time_in sys))
            (CommandLine.mr_output_file_path (repr_float sys) (tmp_files_directory kw)
               (getpid sys) (time_out sys)))).
  set (input := CommandLine.input_file_path _ _ _ _).
  set (output := CommandLine.mr_output_file_path _ _ _ _).
  assert (input <> output) as Hne by apply CommandFacts.path_join_relative_distinct.
  destruct (WaveletTransform.prepare lg _ g (map2 isnan g)) as [written|e]; [|reflexivity].
  destruct (FullCall.writable sys input); [|reflexivity].
  destruct (shell sys _ _ !! output) as [[cleaned|]|] eqn:Eout; try reflexivity.
  destruct (shell sys _ _ !! input) as [x|]; [|reflexivity].
  rewrite lookup_delete_ne, Eout by exact Hne.
  unfold conclude. destruct cleaned as [[|[|[|k]]] c]; try reflexivity.
  rewrite FullCallFacts.finish_before_islands.
  destruct (before_islands pw10 pw2 kw c (map2 isnan g)) as [out|e]; [|reflexivity].
  now destruct (FullCall.kill_isolated_pixels kw).
Qed.

(** A call that is given a dictionary and returns has written exactly
    the keys of [keys_written] and kept the other entries.  The two paths
    it reports are the ones of the temporary files, which no longer exist. *)
Theorem report_on_return (sys : system) (kw : keywords) (img : ndarray float)
    (st st' : state) (d : report) (out : ndarray float) :
  output_data_dict st = Some d ->
  FullCall.clean_image lg pw10 pw2 sys kw img st = (st', Ok out) ->
  exists d',
    output_data_dict st' = Some d'
    /\ dom d' = dom d ∪ keys_written kw
    /\ (forall key, key ∉ keys_written kw -> d' !! key = d !! key)
    /\ (exists input output,
          d' !! "mr_input_tmp_file_path" = Some (PyStr input)
          /\ d' !! "mr_output_tmp_file_path" = Some (PyStr output)
          /\ files st' !! input = None /\ files st' !! output = None).
Proof.
  intros Hd Hrun.
  destruct (decide (ndim img = 2)) as [E|E].
  2:{ destruct img as [[|[|[|n]]] t]; simpl in E; try discriminate Hrun; congruence. }
  destruct img as [n g]. simpl in E. subst n.
  rewrite FullCallFacts.full_call_2d in Hrun. cbv zeta in Hrun. rewrite Hd in Hrun.
  set (input := CommandLine.input_file_path _ _ _ _) in *.
  set (output := CommandLine.mr_output_file_path _ _ _ _) in *.
  assert (input <> output) as Hne by apply CommandFacts.path_join_relative_distinct.
  destruct (WaveletTransform.prepare lg _ g (map2 isnan g)) as [written|e]; [|discriminate].
  destruct (FullCall.writable sys input); [|discriminate].
  destruct (shell sys _ _ !! output) as [[cleaned|]|]; try discriminate.
  destruct (shell sys _ _ !! input) as [x|]; [|discriminate].
  destruct cleaned as [[|[|[|k]]] c]; try discriminate.
  destruct (before_islands pw10 pw2 kw c (map2 isnan g)) as [res|e]; [|discriminate].
  unfold keys_written.
  assert (forall fs : filesystem,
            delete output (delete input fs) !! input = None
            /\ delete output (delete input fs) !! output = None) as Hgone.
  { intros fs. split.
    - rewrite lookup_delete_ne by congruence. apply lookup_delete_eq.
    - apply lookup_delete_eq. }
  destruct (FullCall.kill_isolated_pixels kw),
    (mask_file_path (command_options kw)) as [path|];
    cbn [fmap option_fmap option_map] in Hrun; injection Hrun as <- <-;
    cbn [files output_data_dict];
    (eexists; split; [reflexivity|]; split; [|split];
     [ rewrite !dom_insert_L; set_unfold; intros key; tauto
     | intros key Hkey; set_unfold in Hkey;
       rewrite !lookup_insert_ne by (intros <-; tauto); reflexivity
     | exists input; exists output; split; [|split];
       [ by simplify_map_eq | by simplify_map_eq | apply Hgone ] ]).
Qed.

(** An input that is not two-dimensional is refused before the dictionary
    is touched and before the clock is read. *)
Theorem report_untouched_on_bad_input (sys : system) (kw : keywords) (img : ndarray float)
    (st : state) :
  ndim img <> 2 ->
  FullCall.clean_image lg pw10 pw2 sys kw img st = (st, Raise WrongDimensionError).
Proof.
  intros E. destruct img as [[|[|[|n]]] t]; simpl in E; try reflexivity; congruence.
Qed.

(** For a two-dimensional input the two temporary paths are in the
    dictionary whatever happens next: also when the call raises. *)
Theorem report_paths_always (sys : system) (kw : keywords) (g : grid float)
    (st st' : state) (d : report) (r : result (ndarray float)) :
  output_data_dict st = Some d ->
  FullCall.clean_image lg pw10 pw2 sys kw (NdArray 2 g) st = (st', r) ->
  exists d',
    output_data_dict st' = Some d'
    /\ d' !! "mr_input_tmp_file_path"
       = Some (PyStr (CommandLine.input_file_path (repr_float sys) (tmp_files_directory kw)
                        (getpid sys) (time_in sys)))
    /\ d' !! "mr_output_tmp_file_path"
       = Some (PyStr (CommandLine.mr_output_file_path (repr_float sys)
                        (tmp_files_directory kw) (getpid sys) (time_out sys))).
Proof.
  intros Hd Hrun.
  rewrite FullCallFacts.full_call_2d in Hrun. cbv zeta in Hrun. rewrite Hd in Hrun.
  set (input := CommandLine.input_file_path _ _ _ _) in *.
  set (output := CommandLine.mr_output_file_path _ _ _ _) in *.
  assert (forall st1 r1, (st1, r1) = (st', r) -> output_data_dict st1 = output_data_dict st')
    as Hst by (intros ? ? [= <- _]; reflexivity).
  destruct (mask_file_path (command_options kw)) as [path|];
    cbn [fmap option_fmap option_map] in Hrun;
    (destruct (WaveletTransform.prepare lg _ g (map2 isnan g)) as [written|e];
     [destruct (FullCall.writable sys input);
      [destruct (shell sys _ _ !! output) as [[cleaned|]|];
       [destruct (shell sys _ _ !! input) as [x|];
        [destruct cleaned as [[|[|[|k]]] c];
         [| |destruct (before_islands pw10 pw2 kw c (map2 isnan g)) as [res|e];
             [destruct (FullCall.kill_isolated_pixels kw)|]|]|]| |]|]|]);
    apply Hst in Hrun; cbn [output_data_dict fmap option_fmap option_map] in Hrun;
    (eexists; split; [symmetry; exact Hrun|]; split; by simplify_map_eq).
Qed.
End Report.

Lemma report_on_return_witness :
  exists d',
    FullCall.output_data_dict FullCall.example_call.1 = Some d'
    /\ dom d' = dom (∅ : FullCall.report) ∪ FullCall.keys_written FullCall.example_keywords
    /\ (forall key, key ∉ FullCall.keys_written FullCall.example_keywords ->
                    d' !! key = (∅ : FullCall.report) !! key)
    /\ (exists input output,
          d' !! "mr_input_tmp_file_path" = Some (CommandLine.PyStr input)
          /\ d' !! "mr_output_tmp_file_path" = Some (CommandLine.PyStr output)
          /\ FullCall.files FullCall.example_call.1 !! input = None
          /\ FullCall.files FullCall.example_call.1 !! output = None).
Proof.
  apply (report_on_return no_libm_lg no_libm_pw no_libm_pw FullCall.example_system
           FullCall.example_keywords (NdArray 2 [[of_Z 5; nan]]) FullCall.example_state
           FullCall.example_call.1 ∅ (NdArray 2 [[of_Z 5; nan]])).
  - reflexivity.
  - change (FullCall.example_call = (FullCall.example_call.1, Ok (NdArray 2 [[of_Z 5; nan]]))).
    rewrite (surjective_pairing FullCall.example_call) at 1. f_equal.
Defined.

Lemma report_untouched_on_bad_input_witness :
  FullCall.clean_image no_libm_lg no_libm_pw no_libm_pw FullCall.example_system
    FullCall.example_keywords (NdArray 1 [of_Z 5; nan]) FullCall.example_state
  = (FullCall.example_state, Raise WrongDimensionError).
Proof.
  apply (report_untouched_on_bad_input no_libm_lg no_libm_pw no_libm_pw). simpl. lia.
Defined.

Lemma report_paths_always_witness :
  exists d',
    FullCall.output_data_dict FullCall.example_call.1 = Some d'
    /\ d' !! "mr_input_tmp_file_path"
       = Some (CommandLine.PyStr
                 (CommandLine.input_file_path CommandLine.repr_stub EmptyString 1 one))
    /\ d' !! "mr_output_tmp_file_path"
       = Some (CommandLine.PyStr
                 (CommandLine.mr_output_file_path CommandLine.repr_stub EmptyString 1 one)).
Proof.
  apply (report_paths_always no_libm_lg no_libm_pw no_libm_pw FullCall.example_system
           FullCall.example_keywords [[of_Z 5; nan]] FullCall.example_state
           FullCall.example_call.1 ∅ FullCall.example_call.2).
  - reflexivity.
  - apply surjective_pairing.
Defined.
